(** * JiTCODE: a shallow embedding of the code-generation helpers

    The development follows the two source files of the package:

    - [Helpers] embeds [jitcode/_helpers.py]: the name counter
      ([rsplit_int], [count_up]), the chunked code writer
      ([write_in_chunks]) and the Gram-Schmidt routine ([orthonormalise]);
    - [Jitcode] embeds [jitcode/_jitcode.py]: the helper sorter
      ([depends_on_any], [_sort_helpers]), the Jacobian synthesiser
      ([_jac_from_f_with_helpers]), the integrator facade ([jitcode]) and
      the tangent-space extension ([jitcode_lyap]).

    Python [str] values are lists of characters, integers are [N] or [nat],
    raised exceptions are values of an error type, generators are the lists
    of what they yield, and files are the lists of the strings written to
    them. *)

From Equations Require Import Equations.
From Stdlib Require Import String Ascii List Arith Lia NArith ZArith Bool.
From Stdlib Require Import Permutation Relations FinFun Reals Lra.
Import ListNotations.
Open Scope list_scope.

(** [inspect x] keeps the equation between [x] and the pattern it is matched
    against, for definitions by well-founded recursion. *)
Definition inspect {A : Type} (x : A) : {y : A | x = y} := exist _ x eq_refl.

(** ** Python strings *)

Definition str := list ascii.

(** A literal of the source. *)
Definition lit (s : string) : str := list_ascii_of_string s.

(** [a == b] *)
Fixpoint str_eqb (a b : str) : bool :=
  match a, b with
  | [], [] => true
  | x :: a', y :: b' => Ascii.eqb x y && str_eqb a' b'
  | _, _ => false
  end.

(** [c.isdigit()] on the characters '0' to '9'. *)
Definition isdigit (c : ascii) : bool :=
  (48 <=? nat_of_ascii c) && (nat_of_ascii c <=? 57).

(** [s[-1]] when [s] is not empty. *)
Definition last_char (s : str) : option ascii :=
  match rev s with c :: _ => Some c | [] => None end.

(** [s and s[-1].isdigit()] *)
Definition ends_in_digit (s : str) : bool :=
  match last_char s with Some c => isdigit c | None => false end.

Definition digit_value (c : ascii) : N := N.of_nat (nat_of_ascii c - 48).

Definition digit_char (d : N) : ascii := ascii_of_N (48 + d).

(** [int(i)] for a string of decimal digits. *)
Definition int_of_str (i : str) : N :=
  fold_left (fun acc c => (10 * acc + digit_value c)%N) i 0%N.

Lemma div10_decreases (n : N) : (n <? 10)%N = false -> N.to_nat (n / 10) < N.to_nat n.
Proof.
  intros H. apply N.ltb_ge in H.
  assert (n / 10 < n)%N by (apply N.div_lt; lia). lia.
Qed.

(** The decimal numeral of [n], as ["%i" % n] prints it. *)
Equations? str_of_int (n : N) : str by wf (N.to_nat n) lt :=
  str_of_int n with inspect (n <? 10)%N => {
    | exist _ true _ := [digit_char n];
    | exist _ false _ := str_of_int (n / 10) ++ [digit_char (n mod 10)] }.
Proof. now apply div10_decreases. Qed.

(** ["%.<prec>i" % n]: the numeral of [n], filled with zeros on the left up to
    [prec] digits. *)
Definition format_int (prec : nat) (n : N) : str :=
  let d := str_of_int n in repeat "0"%char (prec - length d) ++ d.


(** ** SymPy expressions

    The symbolic engine is not part of the package. Its expressions are
    embedded as the polynomial fragment the package builds itself: integers,
    symbols, applications [f(i)] of an undefined function to an index (the
    state [y(i)], and the accessors [get_f_helper(i)] of generated code),
    sums and products. *)

Inductive atom : Type :=
| Symbol (name : string)
| Apply (f : string) (i : nat).

Inductive expr : Type :=
| Num (z : Z)
| Atom (a : atom)
| Add (a b : expr)
| Mul (a b : expr).

Definition atom_eqb (a b : atom) : bool :=
  match a, b with
  | Symbol x, Symbol y => String.eqb x y
  | Apply f i, Apply g j => String.eqb f g && Nat.eqb i j
  | _, _ => false
  end.

(** [y(i)] of [provide_basic_symbols]. *)
Definition y (i : nat) : expr := Atom (Apply "y" i).

(** [a + b] and [a * b]: SymPy evaluates the sum and the product of numbers
    and drops the neutral elements when it builds an expression. Its further
    canonical forms (the order of terms, collected powers) are not part of the
    embedding; statements that depend on them are made on the values of
    expressions ([eval] below). *)
Definition add (a b : expr) : expr :=
  match a, b with
  | Num x, Num y => Num (x + y)
  | Num 0, _ => b
  | _, Num 0 => a
  | _, _ => Add a b
  end.

Definition mul (a b : expr) : expr :=
  match a, b with
  | Num x, Num y => Num (x * y)
  | Num 0, _ => Num 0
  | _, Num 0 => Num 0
  | Num 1, _ => b
  | _, Num 1 => a
  | _, _ => Mul a b
  end.

(** [e.has(a)] *)
Fixpoint has (e : expr) (a : atom) : bool :=
  match e with
  | Num _ => false
  | Atom b => atom_eqb b a
  | Add e1 e2 | Mul e1 e2 => has e1 a || has e2 a
  end.

(** [sympy.diff(e, a)] *)
Fixpoint diff (e : expr) (a : atom) : expr :=
  match e with
  | Num _ => Num 0
  | Atom b => if atom_eqb b a then Num 1 else Num 0
  | Add e1 e2 => add (diff e1 a) (diff e2 a)
  | Mul e1 e2 => add (mul (diff e1 a) e2) (mul e1 (diff e2 a))
  end.

(** The truth value of an expression, and [e != 0]: only the number zero is
    false. *)
Definition truthy (e : expr) : bool :=
  match e with Num 0 => false | _ => true end.

(** [e.subs(substitutions)] for substitutions of atoms. *)
Fixpoint subs (substitutions : list (atom * expr)) (e : expr) : expr :=
  match e with
  | Num z => Num z
  | Atom a =>
      match find (fun s => atom_eqb (fst s) a) substitutions with
      | Some s => snd s
      | None => Atom a
      end
  | Add e1 e2 => add (subs substitutions e1) (subs substitutions e2)
  | Mul e1 e2 => mul (subs substitutions e1) (subs substitutions e2)
  end.

(** [e.subs(substitutions)] for a list of substitutions of which a later one
    may apply to what an earlier one has put in: SymPy makes them one after
    another, in the order of the list. *)
Definition subs_in_turn (substitutions : list (atom * expr)) (e : expr) : expr :=
  fold_left (fun e substitution => subs [substitution] e) substitutions e.

(** The value of an expression where the atoms have the values [env]. *)
Fixpoint eval (env : atom -> R) (e : expr) : R :=
  match e with
  | Num z => IZR z
  | Atom a => env a
  | Add e1 e2 => (eval env e1 + eval env e2)%R
  | Mul e1 e2 => (eval env e1 * eval env e2)%R
  end.

(** ** Exceptions *)

Inductive exn : Type :=
| ValueError (message : string)
| TypeError (message : string)
| NameError (message : string)
| OSError (message : string)
| NotImplementedError (message : string)
| AttributeError (message : string)
| Exception (message : string).

Inductive result (A : Type) : Type :=
| Ok (a : A)
| Raise (e : exn).
Arguments Ok {A} a.
Arguments Raise {A} e.

(** ** Values of the package

    A SymPy application that stands for one statement of generated code, such
    as [set_dy(i, entry)] or [set_dfdy(i, j, entry)]. *)
Record call : Type := {
  fn : string;
  indices : list nat;
  value : expr;
}.

(** What is handed to the C printer. *)
Inductive printable : Type :=
| PExpr (e : expr)
| PCall (c : call).

(** A class of SciPy's integrator table: whether its constructor takes
    [with_jacobian]. *)
Record integrator_class : Type := {
  takes_with_jacobian : bool;
}.

(** The kind of the callable held by [self.f] and [self.jac]. *)
Inductive callable : Type :=
| CFunction
| LambdaFunction.


(** A helper is a pair of a symbol and the expression that defines it. *)
Definition Helper : Type := string * expr.

(** An open file is the list of the strings written to it so far. *)
Definition file := list str.

(** ** The surroundings

    What the package takes from outside and the embedding leaves open:
    SymPy's simplification and common-subexpression extraction, the C
    printer, SciPy's table of integrators, and the native build. *)
Record externals : Type := {
  (** [sympy.simplify(e, ratio=1.0)] *)
  sympy_simplify : expr -> expr;
  (** [sympy.cse(matrix, symbols)] with the accessor named: the helpers taken
      out, and the matrix that is left. *)
  sympy_cse : string -> list (list expr) -> list (atom * expr) * list (list expr);
  (** [ccode(expression, assign_to, user_functions)] *)
  ccode : printable -> option atom -> list (string * string) -> str;
  (** [scipy.integrate._ode.find_integrator(name)] *)
  find_integrator : str -> option integrator_class;
  (** [tempfile.mkdtemp()] *)
  mkdtemp : str;
  (** The text that Jinja2 renders from [jitced_template.c]. *)
  render_template :
    nat -> bool -> str -> bool -> nat -> nat -> option bool -> str;
  (** Whether Setuptools builds the module from its source and the import
      machinery loads it. *)
  build_and_load : str -> str -> bool;
  (** The [draw]-th vector that [random_direction(n)] returns. *)
  random_direction : nat -> nat -> list R;
}.


(** ** The instance

    The attributes of a [jitcode] object. An attribute that an object may
    lack ([t], [_integrator] and [sparse_jac] are not set by [__init__]) is an
    option, as is one that may hold [None]. [_integrator] records the name
    the integrator was found under. [jac_sym] holds the rows that the
    generator stored there yields, row by row. Floating-point numbers are
    real numbers. *)
Module Self.

Record instance : Type := {
  f_sym : list expr;
  n : nat;
  f : option callable;
  _f_C_source : bool;
  helpers : list Helper;
  _wants_jacobian : bool;
  jac_sym : option (list (list expr));
  jac : option callable;
  _jac_C_source : bool;
  _y : list R;
  _tmpdir : option str;
  _modulename : str;
  verbose : bool;
  _number_of_jac_helpers : option nat;
  _number_of_f_helpers : option nat;
  sparse_jac : option bool;
  t : option R;
  _integrator : option str;
}.

(** [self.<attribute> = v] *)
Definition assign_f (v : option callable) (self : instance) : instance :=
  {| f_sym := self.(f_sym); n := self.(n); f := v;
     _f_C_source := self.(_f_C_source); helpers := self.(helpers);
     _wants_jacobian := self.(_wants_jacobian); jac_sym := self.(jac_sym);
     jac := self.(jac); _jac_C_source := self.(_jac_C_source);
     _y := self.(_y); _tmpdir := self.(_tmpdir);
     _modulename := self.(_modulename); verbose := self.(verbose);
     _number_of_jac_helpers := self.(_number_of_jac_helpers);
     _number_of_f_helpers := self.(_number_of_f_helpers);
     sparse_jac := self.(sparse_jac); t := self.(t);
     _integrator := self.(_integrator) |}.

Definition assign_f_C_source (v : bool) (self : instance) : instance :=
  {| f_sym := self.(f_sym); n := self.(n); f := self.(f); _f_C_source := v;
     helpers := self.(helpers); _wants_jacobian := self.(_wants_jacobian);
     jac_sym := self.(jac_sym); jac := self.(jac);
     _jac_C_source := self.(_jac_C_source); _y := self.(_y);
     _tmpdir := self.(_tmpdir); _modulename := self.(_modulename);
     verbose := self.(verbose);
     _number_of_jac_helpers := self.(_number_of_jac_helpers);
     _number_of_f_helpers := self.(_number_of_f_helpers);
     sparse_jac := self.(sparse_jac); t := self.(t);
     _integrator := self.(_integrator) |}.

Definition assign_wants_jacobian (v : bool) (self : instance) : instance :=
  {| f_sym := self.(f_sym); n := self.(n); f := self.(f);
     _f_C_source := self.(_f_C_source); helpers := self.(helpers);
     _wants_jacobian := v; jac_sym := self.(jac_sym); jac := self.(jac);
     _jac_C_source := self.(_jac_C_source); _y := self.(_y);
     _tmpdir := self.(_tmpdir); _modulename := self.(_modulename);
     verbose := self.(verbose);
     _number_of_jac_helpers := self.(_number_of_jac_helpers);
     _number_of_f_helpers := self.(_number_of_f_helpers);
     sparse_jac := self.(sparse_jac); t := self.(t);
     _integrator := self.(_integrator) |}.

Definition assign_jac_sym (v : option (list (list expr))) (self : instance) : instance :=
  {| f_sym := self.(f_sym); n := self.(n); f := self.(f);
     _f_C_source := self.(_f_C_source); helpers := self.(helpers);
     _wants_jacobian := self.(_wants_jacobian); jac_sym := v;
     jac := self.(jac); _jac_C_source := self.(_jac_C_source);
     _y := self.(_y); _tmpdir := self.(_tmpdir);
     _modulename := self.(_modulename); verbose := self.(verbose);
     _number_of_jac_helpers := self.(_number_of_jac_helpers);
     _number_of_f_helpers := self.(_number_of_f_helpers);
     sparse_jac := self.(sparse_jac); t := self.(t);
     _integrator := self.(_integrator) |}.

Definition assign_jac (v : option callable) (self : instance) : instance :=
  {| f_sym := self.(f_sym); n := self.(n); f := self.(f);
     _f_C_source := self.(_f_C_source); helpers := self.(helpers);
     _wants_jacobian := self.(_wants_jacobian); jac_sym := self.(jac_sym);
     jac := v; _jac_C_source := self.(_jac_C_source); _y := self.(_y);
     _tmpdir := self.(_tmpdir); _modulename := self.(_modulename);
     verbose := self.(verbose);
     _number_of_jac_helpers := self.(_number_of_jac_helpers);
     _number_of_f_helpers := self.(_number_of_f_helpers);
     sparse_jac := self.(sparse_jac); t := self.(t);
     _integrator := self.(_integrator) |}.

Definition assign_jac_C_source (v : bool) (self : instance) : instance :=
  {| f_sym := self.(f_sym); n := self.(n); f := self.(f);
     _f_C_source := self.(_f_C_source); helpers := self.(helpers);
     _wants_jacobian := self.(_wants_jacobian); jac_sym := self.(jac_sym);
     jac := self.(jac); _jac_C_source := v; _y := self.(_y);
     _tmpdir := self.(_tmpdir); _modulename := self.(_modulename);
     verbose := self.(verbose);
     _number_of_jac_helpers := self.(_number_of_jac_helpers);
     _number_of_f_helpers := self.(_number_of_f_helpers);
     sparse_jac := self.(sparse_jac); t := self.(t);
     _integrator := self.(_integrator) |}.

Definition assign_y (v : list R) (self : instance) : instance :=
  {| f_sym := self.(f_sym); n := self.(n); f := self.(f);
     _f_C_source := self.(_f_C_source); helpers := self.(helpers);
     _wants_jacobian := self.(_wants_jacobian); jac_sym := self.(jac_sym);
     jac := self.(jac); _jac_C_source := self.(_jac_C_source); _y := v;
     _tmpdir := self.(_tmpdir); _modulename := self.(_modulename);
     verbose := self.(verbose);
     _number_of_jac_helpers := self.(_number_of_jac_helpers);
     _number_of_f_helpers := self.(_number_of_f_helpers);
     sparse_jac := self.(sparse_jac); t := self.(t);
     _integrator := self.(_integrator) |}.

Definition assign_tmpdir (v : option str) (self : instance) : instance :=
  {| f_sym := self.(f_sym); n := self.(n); f := self.(f);
     _f_C_source := self.(_f_C_source); helpers := self.(helpers);
     _wants_jacobian := self.(_wants_jacobian); jac_sym := self.(jac_sym);
     jac := self.(jac); _jac_C_source := self.(_jac_C_source);
     _y := self.(_y); _tmpdir := v; _modulename := self.(_modulename);
     verbose := self.(verbose);
     _number_of_jac_helpers := self.(_number_of_jac_helpers);
     _number_of_f_helpers := self.(_number_of_f_helpers);
     sparse_jac := self.(sparse_jac); t := self.(t);
     _integrator := self.(_integrator) |}.

Definition assign_modulename (v : str) (self : instance) : instance :=
  {| f_sym := self.(f_sym); n := self.(n); f := self.(f);
     _f_C_source := self.(_f_C_source); helpers := self.(helpers);
     _wants_jacobian := self.(_wants_jacobian); jac_sym := self.(jac_sym);
     jac := self.(jac); _jac_C_source := self.(_jac_C_source);
     _y := self.(_y); _tmpdir := self.(_tmpdir); _modulename := v;
     verbose := self.(verbose);
     _number_of_jac_helpers := self.(_number_of_jac_helpers);
     _number_of_f_helpers := self.(_number_of_f_helpers);
     sparse_jac := self.(sparse_jac); t := self.(t);
     _integrator := self.(_integrator) |}.

Definition assign_number_of_jac_helpers (v : option nat) (self : instance) : instance :=
  {| f_sym := self.(f_sym); n := self.(n); f := self.(f);
     _f_C_source := self.(_f_C_source); helpers := self.(helpers);
     _wants_jacobian := self.(_wants_jacobian); jac_sym := self.(jac_sym);
     jac := self.(jac); _jac_C_source := self.(_jac_C_source);
     _y := self.(_y); _tmpdir := self.(_tmpdir);
     _modulename := self.(_modulename); verbose := self.(verbose);
     _number_of_jac_helpers := v;
     _number_of_f_helpers := self.(_number_of_f_helpers);
     sparse_jac := self.(sparse_jac); t := self.(t);
     _integrator := self.(_integrator) |}.

Definition assign_number_of_f_helpers (v : option nat) (self : instance) : instance :=
  {| f_sym := self.(f_sym); n := self.(n); f := self.(f);
     _f_C_source := self.(_f_C_source); helpers := self.(helpers);
     _wants_jacobian := self.(_wants_jacobian); jac_sym := self.(jac_sym);
     jac := self.(jac); _jac_C_source := self.(_jac_C_source);
     _y := self.(_y); _tmpdir := self.(_tmpdir);
     _modulename := self.(_modulename); verbose := self.(verbose);
     _number_of_jac_helpers := self.(_number_of_jac_helpers);
     _number_of_f_helpers := v; sparse_jac := self.(sparse_jac);
     t := self.(t); _integrator := self.(_integrator) |}.

Definition assign_sparse_jac (v : option bool) (self : instance) : instance :=
  {| f_sym := self.(f_sym); n := self.(n); f := self.(f);
     _f_C_source := self.(_f_C_source); helpers := self.(helpers);
     _wants_jacobian := self.(_wants_jacobian); jac_sym := self.(jac_sym);
     jac := self.(jac); _jac_C_source := self.(_jac_C_source);
     _y := self.(_y); _tmpdir := self.(_tmpdir);
     _modulename := self.(_modulename); verbose := self.(verbose);
     _number_of_jac_helpers := self.(_number_of_jac_helpers);
     _number_of_f_helpers := self.(_number_of_f_helpers); sparse_jac := v;
     t := self.(t); _integrator := self.(_integrator) |}.

Definition assign_t (v : option R) (self : instance) : instance :=
  {| f_sym := self.(f_sym); n := self.(n); f := self.(f);
     _f_C_source := self.(_f_C_source); helpers := self.(helpers);
     _wants_jacobian := self.(_wants_jacobian); jac_sym := self.(jac_sym);
     jac := self.(jac); _jac_C_source := self.(_jac_C_source);
     _y := self.(_y); _tmpdir := self.(_tmpdir);
     _modulename := self.(_modulename); verbose := self.(verbose);
     _number_of_jac_helpers := self.(_number_of_jac_helpers);
     _number_of_f_helpers := self.(_number_of_f_helpers);
     sparse_jac := self.(sparse_jac); t := v;
     _integrator := self.(_integrator) |}.

Definition assign_integrator (v : option str) (self : instance) : instance :=
  {| f_sym := self.(f_sym); n := self.(n); f := self.(f);
     _f_C_source := self.(_f_C_source); helpers := self.(helpers);
     _wants_jacobian := self.(_wants_jacobian); jac_sym := self.(jac_sym);
     jac := self.(jac); _jac_C_source := self.(_jac_C_source);
     _y := self.(_y); _tmpdir := self.(_tmpdir);
     _modulename := self.(_modulename); verbose := self.(verbose);
     _number_of_jac_helpers := self.(_number_of_jac_helpers);
     _number_of_f_helpers := self.(_number_of_f_helpers);
     sparse_jac := self.(sparse_jac); t := self.(t); _integrator := v |}.

End Self.

(** The files written so far, by path, and the names in [sys.modules]. *)
Record world : Type := {
  files : list (str * file);
  modules : list str;
}.

(** ** Methods

    A method runs on the instance and the world and leaves both changed,
    whether it returns or raises. [OutOfFuel] is the outcome of a loop that
    did not end within the fuel it was given. *)
Inductive outcome (A : Type) : Type :=
| Return (a : A)
| Raised (e : exn)
| OutOfFuel.
Arguments Return {A} a.
Arguments Raised {A} e.
Arguments OutOfFuel {A}.

Definition M (A : Type) : Type :=
  Self.instance * world -> outcome A * (Self.instance * world).

Definition ret {A : Type} (a : A) : M A := fun s => (Return a, s).

Definition raise {A : Type} (e : exn) : M A := fun s => (Raised e, s).

Definition bind {A B : Type} (c : M A) (k : A -> M B) : M B :=
  fun s =>
    match c s with
    | (Return a, s') => k a s'
    | (Raised e, s') => (Raised e, s')
    | (OutOfFuel, s') => (OutOfFuel, s')
    end.

Notation "x <- c ;; k" := (bind c (fun x => k))
  (at level 61, c at next level, right associativity).
Notation "c ;;; k" := (bind c (fun _ => k))
  (at level 61, right associativity).
Notation "' pat <- c ;; k" :=
  (bind c (fun x => match x with pat => k end))
  (at level 61, pat pattern, c at next level, right associativity).

(** [try: c except: handler] with a bare [except]. *)
Definition try_except {A : Type} (c handler : M A) : M A :=
  fun s =>
    match c s with
    | (Raised _, s') => handler s'
    | r => r
    end.

Definition get_self : M Self.instance := fun s => (Return (fst s), s).

Definition modify_self (g : Self.instance -> Self.instance) : M unit :=
  fun s => (Return tt, (g (fst s), snd s)).

Definition get_world : M world := fun s => (Return (snd s), s).

Definition modify_world (g : world -> world) : M unit :=
  fun s => (Return tt, (fst s, g (snd s))).

(** [open(path, "w")] followed by the writes [content]. *)
Definition write_file (path : str) (content : file) (w : world) : world :=
  {| files := (path, content)
              :: filter (fun entry => negb (str_eqb (fst entry) path))
                   w.(files);
     modules := w.(modules) |}.

(** [path.isfile(path)] *)
Definition isfile (path : str) (w : world) : bool :=
  existsb (fun entry => str_eqb (fst entry) path) w.(files).


(** Python binds arguments by position whatever their type: a parameter
    holds an object of the type its function is written for, or one of
    another type that a caller passes in its place. *)
Inductive arg (A B : Type) : Type :=
| Expected (a : A)
| Passed (b : B).
Arguments Expected {A B} a.
Arguments Passed {A B} b.

(** The bound method [self._tmpfile], as an object. *)
Inductive bound_method : Type :=
| self_tmpfile.

(** A dictionary of user functions, and [d[key] = v]. *)
Definition dict : Type := list (string * string).

Definition dict_set (d : dict) (key v : string) : dict :=
  if existsb (fun entry => String.eqb (fst entry) key) d
  then map (fun entry => if String.eqb (fst entry) key then (key, v) else entry) d
  else d ++ [(key, v)].

(** [path.join(folder, filename)] for a relative file name. *)
Definition path_join (folder filename : str) : str :=
  folder ++ lit "/" ++ filename.

Module Helpers.

(** *** [rsplit_int] and [count_up] *)

Lemma removelast_shorter (s : str) (c : ascii) :
  last_char s = Some c -> length (removelast s) < length s.
Proof.
  unfold last_char. destruct s as [|a s _] using rev_ind; [discriminate|].
  intros _. rewrite removelast_last, length_app. simpl. lia.
Qed.

Equations? rsplit_int (s : str) : str * str by wf (length s) lt :=
  rsplit_int s with inspect (last_char s) => {
    | exist _ (Some c) _ with isdigit c => {
        | true := let '(x, y) := rsplit_int (removelast s) in (x, y ++ [c]);
        | false := (s, []) };
    | exist _ None _ := (s, []) }.
Proof. eapply removelast_shorter; eauto. Qed.

Definition count_up (name : str) : str :=
  let '(s, i) := rsplit_int name in
  s ++ match i with
       | [] => lit "_1"
       | _ :: _ => format_int (length i) (int_of_str i + 1)
       end.

(** *** [write_in_chunks]

    The generator [lines] is the list of the lines it has yet to yield.
    [chunk_size] is a Python integer: [range] of a number below one is
    empty. *)

Definition write (f : file) (s : str) : file := f ++ [s].

(** The line feed of the source's literals. *)
Definition nl : str := [ascii_of_nat 10].

(** [sep.join(items)] *)
Fixpoint join (sep : str) (items : list str) : str :=
  match items with
  | [] => []
  | [x] => x
  | x :: rest => x ++ sep ++ join sep rest
  end.

(** A generator of lines: the lines it has yet to yield, and how it ends
    then, with the exception [failure] or, for [None], with the end of the
    generator. *)
Record generator : Type := {
  pending : list str;
  failure : option exn;
}.

(** A generator that yields [lines] and ends. *)
Definition generator_of (lines : list str) : generator :=
  {| pending := lines; failure := None |}.

(** [itertools.chain(first_chunk, lines)] *)
Definition chain (first_chunk : list str) (lines : generator) : generator :=
  {| pending := first_chunk ++ lines.(pending); failure := lines.(failure) |}.

Inductive next_result : Type :=
| Yield (line : str) (rest : generator)
| StopIteration
| Failure (e : exn).

(** [next(lines)] *)
Definition next (lines : generator) : next_result :=
  match lines.(pending) with
  | line :: rest => Yield line {| pending := rest; failure := lines.(failure) |}
  | [] =>
      match lines.(failure) with
      | Some e => Failure e
      | None => StopIteration
      end
  end.

(** How a [for] loop over [next] ended: it ran through its range, or [next]
    raised [StopIteration], or it raised something else. *)
Inductive loop_end : Type :=
| Completed
| Stopped
| Failed (e : exn).

(** [for i in range(k): first_chunk.append(next(lines))] *)
Fixpoint take_lines (k : nat) (lines : generator) (first_chunk : list str)
  : list str * generator * loop_end :=
  match k with
  | O => (first_chunk, lines, Completed)
  | S k' =>
      match next lines with
      | Yield line rest => take_lines k' rest (first_chunk ++ [line])
      | StopIteration => (first_chunk, lines, Stopped)
      | Failure e => (first_chunk, lines, Failed e)
      end
  end.

(** [for i in range(k): deffile.write(next(lines))] *)
Fixpoint write_lines (k : nat) (lines : generator) (deffile : file)
  : file * generator * loop_end :=
  match k with
  | O => (deffile, lines, Completed)
  | S k' =>
      match next lines with
      | Yield line rest => write_lines k' rest (write deffile line)
      | StopIteration => (deffile, lines, Stopped)
      | Failure e => (deffile, lines, Failed e)
      end
  end.

(** The [while True] loop, with the two files as it leaves them; [fuel]
    bounds the number of iterations. After each chunk the source also calls
    SymPy's [clear_cache()], which writes nothing. *)
Fixpoint chunk_loop (fuel : nat) (lines : generator) (mainfile deffile : file)
  (funcname : str) (chunk_size : Z) (arguments : list (str * str))
  : outcome unit * (file * file) :=
  match fuel with
  | O => (OutOfFuel, (mainfile, deffile))
  | S fuel' =>
      let mainfile := write mainfile (funcname ++ lit "(") in
      let deffile := write deffile (lit "void " ++ funcname ++ lit "(") in
      let '(mainfile, deffile) :=
        match arguments with
        | _ :: _ =>
            (write mainfile (join (lit ", ") (map fst arguments)),
             write deffile
               (join (lit ", ")
                  (map (fun argument => snd argument ++ lit " " ++ fst argument)
                     arguments)))
        | [] => (mainfile, write deffile (lit "void"))
        end in
      let mainfile := write mainfile (lit ");" ++ nl) in
      let deffile := write deffile (lit "){" ++ nl) in
      let '(deffile, lines, ending) :=
        write_lines (Z.to_nat chunk_size) lines deffile in
      let deffile := write deffile (lit "}" ++ nl) in
      match ending with
      | Stopped => (Return tt, (mainfile, deffile))
      | Failed e => (Raised e, (mainfile, deffile))
      | Completed =>
          chunk_loop fuel' lines mainfile deffile (count_up funcname)
            chunk_size arguments
      end
  end.

Definition write_in_chunks (fuel : nat) (lines : generator)
  (mainfile deffile : file) (name : str) (chunk_size : Z)
  (arguments : list (str * str)) : outcome unit * (file * file) :=
  let funcname := lit "definitions_" ++ name in
  let '(first_chunk, lines, ending) :=
    take_lines (Z.to_nat (chunk_size + 1)) lines [] in
  match ending with
  | Stopped => (Return tt, (fold_left write first_chunk mainfile, deffile))
  | Failed e => (Raised e, (mainfile, deffile))
  | Completed =>
      chunk_loop fuel (chain first_chunk lines) mainfile deffile funcname
        chunk_size arguments
  end.

(** *** The code writers *)

Section CodeWriters.
Variable X : externals.

(** [jitcode._tmpfile], which the code writers are given as [tmpfile]. *)
Definition _tmpfile (filename : option str) : M str :=
  self <- get_self ;;
  tmpdir <- match self.(Self._tmpdir) with
            | None =>
                modify_self (Self.assign_tmpdir (Some X.(mkdtemp))) ;;;
                ret X.(mkdtemp)
            | Some tmpdir => ret tmpdir
            end ;;
  match filename with
  | None => ret tmpdir
  | Some filename => ret (path_join tmpdir filename)
  end.

(** [code.startswith(prefix)] *)
Definition startswith (code prefix : str) : bool :=
  str_eqb (firstn (length prefix) code) prefix.

(** What [check_code] writes to [stderr] is left out. *)
Definition check_code (code : str) : result str :=
  if startswith code (lit "// Not")
  then Raise (Exception "The above expression could not be converted to C Code.")
  else Ok code.

(** The generator of a generator expression or function whose items are
    [lines]: it ends with the first item that raises. *)
Fixpoint generator_from (lines : list (result str)) : generator :=
  match lines with
  | [] => generator_of []
  | Ok line :: rest =>
      let g := generator_from rest in
      {| pending := line :: g.(pending); failure := g.(failure) |}
  | Raise e :: _ => {| pending := []; failure := Some e |}
  end.

(** [for line in lines: mainfile.write(line)] *)
Definition write_all (lines : generator) (mainfile deffile : file)
  : outcome unit * (file * file) :=
  (match lines.(failure) with
   | None => Return tt
   | Some e => Raised e
   end,
   (fold_left write lines.(pending) mainfile, deffile)).

(** The two calls of [write_in_chunks] that end both code writers, or the
    plain loop for a [chunk_size] below one. Each generator gets the fuel of
    one pass more than it has lines. *)
Definition write_helpers_and_code (helperlines codelines : generator)
  (mainfile deffile : file) (helpers_name code_name : str) (chunk_size : Z)
  (arguments : list (str * str)) : outcome unit * (file * file) :=
  if (chunk_size <? 1)%Z
  then write_all
         {| pending := helperlines.(pending)
                       ++ match helperlines.(failure) with
                          | None => codelines.(pending)
                          | Some _ => []
                          end;
            failure := match helperlines.(failure) with
                       | None => codelines.(failure)
                       | Some e => Some e
                       end |}
         mainfile deffile
  else
    match write_in_chunks (S (length helperlines.(pending))) helperlines
            mainfile deffile helpers_name chunk_size (tl arguments) with
    | (Return _, (mainfile, deffile)) =>
        write_in_chunks (S (length codelines.(pending))) codelines
          mainfile deffile code_name chunk_size arguments
    | r => r
    end.

(** The [with open(...) as mainfile, open(...) as deffile] block: both files
    exist afterwards with what was written, whatever the outcome. *)
Definition with_main_and_definitions (name : str)
  (body : file -> file -> outcome unit * (file * file)) : M unit :=
  mainpath <- _tmpfile (Some (name ++ lit ".c")) ;;
  defpath <- _tmpfile (Some (name ++ lit "_definitions.c")) ;;
  fun s =>
    let '(r, (mainfile, deffile)) := body [] [] in
    (r, (fst s, write_file defpath deffile (write_file mainpath mainfile (snd s)))).

Definition subs_printable (substitutions : list (atom * expr)) (p : printable)
  : printable :=
  match p with
  | PExpr e => PExpr (subs substitutions e)
  | PCall c =>
      PCall {| fn := c.(fn); indices := c.(indices);
               value := subs substitutions c.(value) |}
  end.

(** [enumerate(items)] *)
Definition enumerate {A : Type} (items : list A) : list (nat * A) :=
  combine (seq 0 (length items)) items.

Definition render_declarations (expressions : list expr) (filename : str)
  : M unit :=
  modify_world
    (write_file filename
       (map (fun expression =>
               lit "double " ++ X.(ccode) (PExpr expression) None [] ++ lit ";"
               ++ nl)
          expressions)).

Definition render_and_write_code_old (expressions : list printable)
  (helpers : arg (list Helper) bound_method) (tmpfile : arg bound_method str)
  (name : arg str dict) (user_functions : dict) (chunk_size : Z)
  (arguments : list (str * str)) : M unit :=
  match helpers, name, tmpfile with
  | Passed _, _, _ => raise (TypeError "'method' object is not iterable")
  | _, Passed _, _ => raise (TypeError "cannot concatenate 'str' and 'dict' objects")
  | _, _, Passed _ => raise (TypeError "'str' object is not callable")
  | Expected helpers, Expected name, Expected self_tmpfile =>
      filename <- _tmpfile (Some (lit "declare_" ++ name ++ lit "_helpers.c")) ;;
      render_declarations (map (fun helper => Atom (Symbol (fst helper))) helpers)
        filename ;;;
      let helperlines :=
        generator_from
          (map (fun helper : Helper =>
                  match check_code
                          (X.(ccode) (PExpr (snd helper))
                             (Some (Symbol (fst helper))) user_functions) with
                  | Ok code => Ok (code ++ nl)
                  | Raise e => Raise e
                  end)
             helpers) in
      let codelines :=
        generator_from
          (map (fun expression =>
                  match check_code (X.(ccode) expression None user_functions) with
                  | Ok code => Ok (code ++ lit ";" ++ nl)
                  | Raise e => Raise e
                  end)
             expressions) in
      with_main_and_definitions name
        (fun mainfile deffile =>
           write_helpers_and_code helperlines codelines mainfile deffile
             (name ++ lit "helpers") (name ++ lit "code") chunk_size arguments)
  end.

Definition render_and_write_code (expressions : list printable)
  (helpers : arg (list Helper) bound_method) (tmpfile : arg bound_method str)
  (name : arg str dict) (user_functions : dict) (chunk_size : Z)
  (arguments : list (str * str)) : M unit :=
  match name, helpers, tmpfile with
  | Passed _, _, _ => raise (TypeError "cannot concatenate 'str' and 'dict' objects")
  | _, Passed _, _ => raise (TypeError "'method' object is not iterable")
  | _, _, Passed _ => raise (TypeError "'str' object is not callable")
  | Expected name, Expected helpers, Expected self_tmpfile =>
      let name' := string_of_list_ascii name in
      let set_helper := ("set_" ++ name' ++ "_helper")%string in
      let get_helper := ("get_" ++ name' ++ "_helper")%string in
      let substitutions :=
        map (fun '(i, helper) => (Symbol (fst helper), Atom (Apply get_helper i)))
          (enumerate helpers) in
      let user_functions :=
        dict_set (dict_set user_functions set_helper set_helper)
          get_helper get_helper in
      declarations <-
        _tmpfile (Some (lit "declare_" ++ name ++ lit "_helpers.c")) ;;
      modify_world
        (write_file declarations
           [lit "# define get_" ++ name ++ lit "_helper(i) ((" ++ name
              ++ lit "_helper[i]))" ++ nl;
            lit "# define set_" ++ name ++ lit "_helper(i,value) (" ++ name
              ++ lit "_helper[i] = value)" ++ nl]) ;;;
      let translate (expression : printable) : result str :=
        match check_code (X.(ccode) expression None user_functions) with
        | Ok code => Ok (code ++ lit ";" ++ nl)
        | Raise e => Raise e
        end in
      let helperlines :=
        generator_from
          (map (fun '(i, helper) =>
                  translate
                    (PCall {| fn := set_helper; indices := [i];
                              value := subs substitutions (snd helper) |}))
             (enumerate helpers)) in
      let codelines :=
        generator_from
          (map (fun expression =>
                  translate (subs_printable substitutions expression))
             expressions) in
      with_main_and_definitions name
        (fun mainfile deffile =>
           let '(mainfile, arguments) :=
             match helpers with
             | _ :: _ =>
                 (write mainfile
                    (lit "double " ++ name ++ lit "_helper["
                       ++ str_of_int (N.of_nat (length helpers)) ++ lit "];" ++ nl),
                  arguments ++ [(name ++ lit "_helper", lit "double*")])
             | [] => (mainfile, arguments)
             end in
           write_helpers_and_code helperlines codelines mainfile deffile
             (name ++ lit "_helper") (name ++ lit "code") chunk_size arguments)
  end.

End CodeWriters.

(** *** String manipulation *)

(** [string.endswith(suffix)] *)
Definition endswith (string suffix : str) : bool :=
  (length suffix <=? length string)
  && str_eqb (skipn (length string - length suffix) string) suffix.

(** The greatest index up to [start] at which [sep] is found in [string]. *)
Fixpoint rfind (string sep : str) (start : nat) : option nat :=
  if startswith (skipn start string) sep then Some start
  else match start with
       | O => None
       | S start' => rfind string sep start'
       end.

(** [string.rpartition(sep)]: the parts before and after the last place
    where [sep] is found, and [sep] between them; two empty strings and
    [string] when it is found nowhere. Python refuses an empty separator. *)
Definition rpartition (string sep : str) : result (str * str * str) :=
  match sep with
  | [] => Raise (ValueError "empty separator")
  | _ :: _ =>
      match rfind string sep (length string - length sep) with
      | Some i => Ok (firstn i string, sep, skipn (i + length sep) string)
      | None => Ok ([], [], string)
      end
  end.

Definition remove_suffix (string suffix : str) : result str :=
  match rpartition string suffix with
  | Raise e => Raise e
  | Ok (head, sep, tail) =>
      match sep, tail with
      | _ :: _, [] => Ok head
      | _, _ => Ok string
      end
  end.

Definition ensure_suffix (string suffix : str) : str :=
  if negb (endswith string suffix) then string ++ suffix else string.

(** *** Numerical tools

    A one-dimensional NumPy array of floating-point numbers is the list of
    its entries, read as real numbers. The arrays of one call have one
    length. *)

Definition array : Type := list R.

(** [non_zero_ratio(A)] for the entries [A] of a SymPy matrix. The division
    is the true division of [from __future__ import division]; [None] is
    the [ZeroDivisionError] of a matrix without entries. *)
Definition non_zero_ratio (A : list expr) : option R :=
  match A with
  | [] => None
  | _ :: _ => Some (INR (length (filter truthy A)) / INR (length A))%R
  end.

(** [np.dot(u, v)] *)
Fixpoint dot (u v : array) : R :=
  match u, v with
  | a :: u', b :: v' => (a * b + dot u' v')%R
  | _, _ => 0%R
  end.

(** [np.linalg.norm(v)] *)
Definition norm (v : array) : R := sqrt (dot v v).

(** The value of [v] after [v -= c * w]. *)
Fixpoint minus_scaled (v : array) (c : R) (w : array) : array :=
  match v, w with
  | a :: v', b :: w' => (a - c * b)%R :: minus_scaled v' c w'
  | _, _ => []
  end.

(** The value of [v] after [v /= c]. *)
Definition divided_by (v : array) (c : R) : array :=
  map (fun a => (a / c)%R) v.

(** The list [l] once the object at index [i] has taken the value [x]. *)
Fixpoint put {A : Type} (i : nat) (x : A) (l : list A) : list A :=
  match l, i with
  | [], _ => []
  | _ :: rest, O => x :: rest
  | a :: rest, S i' => a :: put i' x rest
  end.

(** The inner loop of [orthonormalise],
    [for j in range(i): vector -= np.dot(vector, vectors[j]) * vectors[j]]:
    the value of [vector] after it. *)
Definition orthogonalise (vectors : list array) (i : nat) (vector : array)
  : array :=
  fold_left
    (fun vector j =>
       minus_scaled vector (dot vector (nth j vectors [])) (nth j vectors []))
    (seq 0 i) vector.

(** One pass of the outer loop. [vector] is the array [vectors[i]] itself,
    so the list holds its new value afterwards. *)
Definition orthonormalise_pass (state : list array * list R) (i : nat)
  : list array * list R :=
  let '(vectors, norms) := state in
  let vector := orthogonalise vectors i (nth i vectors []) in
  let norm := norm vector in
  let vector := divided_by vector norm in
  (put i vector vectors, norms ++ [norm]).

(** The arrays as the call leaves them, and the array of norms that it
    returns. *)
Definition orthonormalise (vectors : list array) : list array * list R :=
  fold_left orthonormalise_pass (seq 0 (length vectors)) (vectors, []).

End Helpers.

Module Jitcode.

(** *** Helpers and their order *)

Definition depends_on_any (helper : Helper) (other_helpers : list Helper) : bool :=
  existsb (fun other_helper => has (snd helper) (Symbol (fst other_helper)))
    other_helpers.

(** The [for j, helper in enumerate(helpers)] loop of [_sort_helpers]: the
    first helper that depends on none of [helpers], and [helpers] without it
    ([helpers.pop(j)]); [None] when the loop ends without [break]. [before]
    holds the helpers already passed over. *)
Fixpoint pop_independent (helpers before rest : list Helper)
  : option (Helper * list Helper) :=
  match rest with
  | [] => None
  | helper :: rest' =>
      if negb (depends_on_any helper helpers)
      then Some (helper, before ++ rest')
      else pop_independent helpers (before ++ [helper]) rest'
  end.

Lemma pop_independent_length (helpers before rest : list Helper) h others :
  pop_independent helpers before rest = Some (h, others) ->
  S (length others) = length before + length rest.
Proof.
  revert before. induction rest as [|x rest IH]; intros before; simpl.
  - discriminate.
  - destruct (negb (depends_on_any x helpers)).
    + intros [= <- <-]. rewrite length_app. lia.
    + intros H. apply IH in H. rewrite length_app in H. simpl in H. lia.
Qed.

(** [helpers.insert(0, helpers.pop(j))] puts the helper found in front, and
    [helpers[1:] = _sort_helpers(helpers[1:])] sorts what follows it. *)
Equations? _sort_helpers (helpers : list Helper) : result (list Helper)
  by wf (length helpers) lt :=
  _sort_helpers helpers with inspect (1 <? length helpers) => {
    | exist _ false _ := Ok helpers;
    | exist _ true _ with inspect (pop_independent helpers [] helpers) => {
        | exist _ None _ := Raise (ValueError "Helpers have cyclic dependencies.");
        | exist _ (Some (first, others)) _ with _sort_helpers others => {
            | Ok sorted := Ok (first :: sorted);
            | Raise e := Raise e } } }.
Proof.
  apply pop_independent_length in e0. simpl in e0. lia.
Qed.


(** *** The Jacobian *)

Section WithExternals.
Variable X : externals.

(** The body of [for helper in helpers] for the state index [i]: the total
    derivative of [helper] with respect to [y(i)], through the helpers
    [dependent] found so far. *)
Definition helper_derivative (i : nat) (dependent : list Helper)
  (helper : Helper) : expr :=
  let derivative :=
    if has (snd helper) (Apply "y" i)
    then diff (snd helper) (Apply "y" i) else Num 0 in
  fold_left
    (fun derivative other_helper =>
       if has (snd helper) (Symbol (fst other_helper))
       then add derivative
              (mul (diff (snd helper) (Symbol (fst other_helper)))
                 (snd other_helper))
       else derivative)
    dependent derivative.

(** [dependent_helpers[i]] *)
Definition dependent_helpers (helpers : list Helper) (i : nat) : list Helper :=
  fold_left
    (fun dependent helper =>
       let derivative := helper_derivative i dependent helper in
       if truthy derivative
       then dependent ++ [(fst helper, derivative)]
       else dependent)
    helpers [].

(** [line(f_entry)] *)
Definition line (helpers : list Helper) (simplify : bool) (n : nat)
  (f_entry : expr) : list expr :=
  map
    (fun j =>
       let entry := diff f_entry (Apply "y" j) in
       let entry :=
         fold_left
           (fun entry helper =>
              add entry (mul (diff f_entry (Symbol (fst helper))) (snd helper)))
           (dependent_helpers helpers j) entry in
       if simplify then sympy_simplify X entry else entry)
    (seq 0 n).

(** [f] is what the generator function [f()] yields. *)
Definition _jac_from_f_with_helpers (f : list expr) (helpers : list Helper)
  (simplify : bool) (n : nat) : list (list expr) :=
  map (line helpers simplify n) f.

(** *** The input of the constructors *)

(** [f_sym] is a sequence of expressions or a generator function; either
    way [entries] are its expressions in order. *)
Inductive f_input : Type :=
| Sequence (entries : list expr)
| GeneratorFunction (entries : list expr).

(** The result is what the returned function yields, and [n]. A generator
    function is believed on its [n], unless that is [None] or [0]. *)
Definition _handle_input (f_sym : f_input) (n : option nat)
  : result (list expr * nat) :=
  match f_sym with
  | GeneratorFunction entries =>
      Ok (entries,
          match n with
          | Some (S k) => S k
          | _ => length entries
          end)
  | Sequence entries =>
      let len_f := length entries in
      match n with
      | Some n =>
          if negb (len_f =? n)
          then Raise (ValueError "len(f_sym) and n do not match.")
          else Ok (entries, len_f)
      | None => Ok (entries, len_f)
      end
  end.

(** [convert_to_required_symbols]: the dictionary that it returns, as the
    triple of what its [f_sym] yields, its [helpers] and its [n]. The
    dynamical variables are atoms; the one at index [i] gives way to [y(i)]. *)
Definition convert_to_required_symbols (dynvars : list atom) (f_sym : f_input)
  (helpers : list Helper) (n : option nat)
  : result (list expr * list Helper * nat) :=
  match _handle_input f_sym n with
  | Raise e => Raise e
  | Ok (f_sym, n) =>
      let substitutions :=
        map (fun '(i, dynvar) => (dynvar, y i)) (Helpers.enumerate dynvars) in
      Ok (map (subs_in_turn substitutions) f_sym,
          map (fun helper : Helper =>
                 (fst helper, subs_in_turn substitutions (snd helper)))
            helpers,
          n)
  end.

(** [_sympify_helpers]: the expressions of the embedding are SymPy
    expressions already, and [doit()] leaves them as they are. *)
Definition _sympify_helpers (helpers : list Helper) : list Helper :=
  map (fun helper => (fst helper, snd helper)) helpers.

(** [_is_C(function)] and [_is_lambda(function)] *)
Definition _is_C (function : option callable) : bool :=
  match function with Some CFunction => true | _ => false end.

Definition _is_lambda (function : option callable) : bool :=
  match function with Some LambdaFunction => true | _ => false end.

(** [_can_use_jacobian(integratorname)]: without an integrator of that name,
    [getargspec] is handed [None.__init__] and raises. *)
Definition _can_use_jacobian (integratorname : str) : M bool :=
  match X.(find_integrator) integratorname with
  | Some integrator => ret integrator.(takes_with_jacobian)
  | None => raise (TypeError "arg is not a Python function")
  end.

(** The generator expression that [generate_jac_C] hands to the code
    writer: one [set_dfdy(i, j, entry)] for every entry that is not zero, or
    for every entry when [sparse_jac] is off. *)
Definition jac_assignments (jac_sym_wc : list (list expr)) (sparse_jac : bool)
  : list call :=
  flat_map
    (fun '(i, line) =>
       flat_map
         (fun '(j, entry) =>
            if truthy entry || negb sparse_jac
            then [{| fn := "set_dfdy"; indices := [i; j]; value := entry |}]
            else [])
         (Helpers.enumerate line))
    (Helpers.enumerate jac_sym_wc).

(** The [while self._modulename in modules.keys()] loop of [compile_C]. *)
Fixpoint unused_modulename (fuel : nat) (modules : list str) (modulename : str)
  : option str :=
  match fuel with
  | O => None
  | S fuel' =>
      if existsb (str_eqb modulename) modules
      then unused_modulename fuel' modules (Helpers.count_up modulename)
      else Some modulename
  end.

(** **** SciPy's [ode], the base class

    The three methods of [scipy.integrate.ode] that the package calls
    through [super], under the names [ode__init__], [ode_set_integrator]
    and [ode_set_initial_value]. The last calls [self.set_integrator],
    which is the method of the subclass and is passed in. The integrator's own
    [reset], and the attributes [stiff], [f_params] and [jac_params], are
    left out. *)
Definition ode__init__ (f jac : option callable) : M unit :=
  modify_self
    (fun self => Self.assign_y [] (Self.assign_jac jac (Self.assign_f f self))).

Definition ode_set_integrator (name : str) : M unit :=
  match X.(find_integrator) name with
  | None => ret tt
  | Some _ =>
      modify_self (Self.assign_integrator (Some name)) ;;;
      self <- get_self ;;
      match self.(Self._y) with
      | [] =>
          modify_self
            (fun self => Self.assign_y [0%R] (Self.assign_t (Some 0%R) self))
      | _ :: _ => ret tt
      end
  end.

Definition ode_set_initial_value (self_set_integrator : str -> M unit)
  (y : list R) (t : R) : M unit :=
  self <- get_self ;;
  match self.(Self._y) with
  | [] => self_set_integrator []
  | _ :: _ => ret tt
  end ;;;
  self <- get_self ;;
  match self.(Self._integrator) with
  | None => raise (AttributeError "_integrator")
  | Some _ =>
      modify_self (fun self => Self.assign_t (Some t) (Self.assign_y y self))
  end.

(** **** The class [jitcode]

    [report] prints and the warnings warn; neither is part of the
    embedding. [save_compiled] and [__del__] are left out. *)
Definition __init__ (f_sym : f_input) (helpers : list Helper)
  (wants_jacobian : bool) (n : option nat) (verbose : bool)
  : result Self.instance :=
  match _handle_input f_sym n with
  | Raise e => Raise e
  | Ok (f_sym, n) =>
      match _sort_helpers (_sympify_helpers helpers) with
      | Raise e => Raise e
      | Ok helpers =>
          Ok {| Self.f_sym := f_sym;
                Self.n := n;
                Self.f := None;
                Self._f_C_source := false;
                Self.helpers := helpers;
                Self._wants_jacobian := wants_jacobian;
                Self.jac_sym := None;
                Self.jac := None;
                Self._jac_C_source := false;
                Self._y := [];
                Self._tmpdir := None;
                Self._modulename := lit "jitced";
                Self.verbose := verbose;
                Self._number_of_jac_helpers := None;
                Self._number_of_f_helpers := None;
                Self.sparse_jac := None;
                Self.t := None;
                Self._integrator := None |}
      end
  end.

Definition _tmpfile : option str -> M str := Helpers._tmpfile X.

Definition report (message : string) : M unit := ret tt.

Definition generate_jac_sym (simplify : bool) : M unit :=
  modify_self
    (fun self =>
       Self.assign_jac_sym
         (Some (_jac_from_f_with_helpers self.(Self.f_sym) self.(Self.helpers)
                  simplify self.(Self.n)))
         self).

Definition _generate_jac_sym : M unit :=
  self <- get_self ;;
  match self.(Self.jac_sym) with
  | None => generate_jac_sym true
  | Some _ => ret tt
  end.

Definition generate_f_C (simplify do_cse : bool) (chunk_size : Z) : M unit :=
  self <- get_self ;;
  let f_sym_wc :=
    if simplify then map X.(sympy_simplify) self.(Self.f_sym)
    else self.(Self.f_sym) in
  let arguments :=
    [(lit "dY", lit "PyArrayObject*"); (lit "Y", lit "PyArrayObject*")] in
  '(f_sym_wc, arguments) <-
    (if do_cse
     then
       let _cse :=
         X.(sympy_cse) "get_f_helper" (map (fun entry => [entry]) self.(Self.f_sym)) in
       let more_helpers := fst _cse in
       let f_sym_wc := concat (snd _cse) in
       match more_helpers with
       | _ :: _ =>
           Helpers.render_and_write_code X
             (map (fun '(i, helper) =>
                     PCall {| fn := "set_f_helper"; indices := [i];
                              value := snd helper |})
                (Helpers.enumerate more_helpers))
             (Passed self_tmpfile)
             (Passed (lit "f_helpers"))
             (Passed [("y", "y"); ("get_f_helper", "get_f_helper");
                      ("set_f_helper", "set_f_helper")]%string)
             [] chunk_size
             [(lit "Y", lit "PyArrayObject*"); (lit "f_helper", lit "double*")] ;;;
           modify_self
             (Self.assign_number_of_f_helpers (Some (length more_helpers))) ;;;
           ret (f_sym_wc, arguments ++ [(lit "f_helper", lit "double*")])
       | [] => ret (f_sym_wc, arguments)
       end
     else ret (f_sym_wc, arguments)) ;;
  Helpers.render_and_write_code X
    (map (fun '(i, entry) =>
            PCall {| fn := "set_dy"; indices := [i]; value := entry |})
       (Helpers.enumerate f_sym_wc))
    (Passed self_tmpfile)
    (Passed (lit "f"))
    (Passed [("set_dy", "set_dy"); ("y", "y");
             ("get_f_helper", "get_f_helper")]%string)
    [] chunk_size arguments ;;;
  modify_self (Self.assign_f_C_source true).

Definition _generate_f_C : M unit :=
  self <- get_self ;;
  if negb self.(Self._f_C_source)
  then generate_f_C true false 100 ;;; report "generated C code for f"
  else ret tt.

Definition generate_jac_C (do_cse : bool) (chunk_size : Z) (sparse : bool)
  : M unit :=
  _generate_jac_sym ;;;
  self <- get_self ;;
  jac_sym_wc <- match self.(Self.jac_sym) with
                | Some jac_sym => ret jac_sym
                | None => raise (TypeError "'NoneType' object is not iterable")
                end ;;
  modify_self (Self.assign_sparse_jac (Some sparse)) ;;;
  let arguments :=
    [(lit "dfdY", lit "PyArrayObject*"); (lit "Y", lit "PyArrayObject*")] in
  '(jac_sym_wc, arguments) <-
    (if do_cse
     then
       let _cse := X.(sympy_cse) "get_jac_helper" jac_sym_wc in
       let more_helpers := fst _cse in
       let jac_sym_wc := snd _cse in
       match more_helpers with
       | _ :: _ =>
           Helpers.render_and_write_code X
             (map (fun '(i, helper) =>
                     PCall {| fn := "set_jac_helper"; indices := [i];
                              value := snd helper |})
                (Helpers.enumerate more_helpers))
             (Passed self_tmpfile)
             (Passed (lit "jac_helpers"))
             (Passed [("y", "y"); ("get_jac_helper", "get_jac_helper");
                      ("set_jac_helper", "set_jac_helper")]%string)
             [] chunk_size
             [(lit "Y", lit "PyArrayObject*"); (lit "jac_helper", lit "double*")] ;;;
           modify_self
             (Self.assign_number_of_jac_helpers (Some (length more_helpers))) ;;;
           ret (jac_sym_wc, arguments ++ [(lit "jac_helper", lit "double*")])
       | [] => ret (jac_sym_wc, arguments)
       end
     else ret (jac_sym_wc, arguments)) ;;
  Helpers.render_and_write_code X
    (map PCall (jac_assignments jac_sym_wc sparse))
    (Passed self_tmpfile)
    (Passed (lit "jac"))
    (Passed [("set_dfdy", "set_dfdy"); ("y", "y");
             ("get_jac_helper", "get_jac_helper")]%string)
    [] chunk_size arguments ;;;
  modify_self (Self.assign_jac_C_source true).

Definition _generate_jac_C : M unit :=
  self <- get_self ;;
  if self.(Self._wants_jacobian) && negb self.(Self._jac_C_source)
  then generate_jac_C false 100 true ;;; report "generated C code for Jacobian"
  else ret tt.

Definition generate_helpers_C (chunk_size : Z) : M unit :=
  self <- get_self ;;
  Helpers.render_and_write_code_old X [] (Expected self.(Self.helpers))
    (Expected self_tmpfile) (Expected (lit "general")) [("y", "y")]%string
    chunk_size [].

Definition _generate_helpers_C : M unit :=
  self <- get_self ;;
  match self.(Self.helpers) with
  | _ :: _ => generate_helpers_C 100 ;;; report "generated C code for helpers"
  | [] => ret tt
  end.

(** [compile_C] in its three parts: it generates what code is missing,
    settles the name of the module, then renders, builds and loads it.
    [fuel] bounds the search for a module name that is not in use; a
    [modulename] of [None] or of no characters asks for that search. *)
Definition choose_modulename (fuel : nat) (modulename : option str) : M unit :=
  w <- get_world ;;
  match modulename with
  | Some ((_ :: _) as modulename) =>
      if existsb (str_eqb modulename) w.(modules)
      then raise (NameError "Module name has already been used in this instance of Python.")
      else modify_self (Self.assign_modulename modulename)
  | _ =>
      self <- get_self ;;
      match unused_modulename fuel w.(modules) self.(Self._modulename) with
      | Some modulename => modify_self (Self.assign_modulename modulename)
      | None => fun s => (OutOfFuel, s)
      end
  end.

Definition build_module : M unit :=
  self <- get_self ;;
  sourcefile <- _tmpfile (Some (self.(Self._modulename) ++ lit ".c")) ;;
  modulefile <- _tmpfile (Some (self.(Self._modulename) ++ lit ".so")) ;;
  w <- get_world ;;
  if isfile modulefile w
  then raise (OSError "Module file already exists.")
  else
    let source :=
      X.(render_template) self.(Self.n) self.(Self._jac_C_source)
        self.(Self._modulename)
        (match self.(Self.helpers) with [] => false | _ :: _ => true end)
        (match self.(Self._number_of_f_helpers) with Some k => k | None => 0 end)
        (match self.(Self._number_of_jac_helpers) with Some k => k | None => 0 end)
        (if self.(Self._jac_C_source) then self.(Self.sparse_jac) else None) in
    modify_world (write_file sourcefile [source]) ;;;
    if X.(build_and_load) self.(Self._modulename) source
    then
      modify_world
        (fun w =>
           let w := write_file modulefile [] w in
           {| files := w.(files);
              modules := self.(Self._modulename) :: w.(modules) |}) ;;;
      modify_self (Self.assign_f (Some CFunction)) ;;;
      if self.(Self._jac_C_source)
      then modify_self (Self.assign_jac (Some CFunction))
      else ret tt
    else raise (Exception "The module could not be built and loaded.").

Definition compile_C (fuel : nat) (modulename : option str) : M unit :=
  _generate_f_C ;;;
  _generate_jac_C ;;;
  _generate_helpers_C ;;;
  choose_modulename fuel modulename ;;;
  build_module.

Definition _compile_C (fuel : nat) : M unit :=
  self <- get_self ;;
  if negb (_is_C self.(Self.f))
     || (self.(Self._wants_jacobian) && negb (_is_C self.(Self.jac)))
  then compile_C fuel None ;;; report "compiled C code"
  else ret tt.





Definition generate_f_lambda (simplify : bool) : M unit :=
  modify_self (Self.assign_f (Some LambdaFunction)).

Definition _generate_f_lambda : M unit :=
  self <- get_self ;;
  if negb (_is_lambda self.(Self.f))
  then generate_f_lambda true ;;; report "generated lambdified f"
  else ret tt.

Definition generate_jac_lambda : M unit :=
  _generate_jac_sym ;;;
  modify_self (Self.assign_jac (Some LambdaFunction)).

Definition _generate_jac_lambda : M unit :=
  self <- get_self ;;
  if negb (_is_lambda self.(Self.jac))
  then generate_jac_lambda ;;; report "generated lambdified Jacobian"
  else ret tt.

Definition generate_lambdas : M unit :=
  _generate_f_lambda ;;;
  self <- get_self ;;
  if self.(Self._wants_jacobian) then _generate_jac_lambda else ret tt.

Definition generate_functions (fuel : nat) : M unit :=
  try_except (_compile_C fuel) generate_lambdas.

Definition _generate_functions (fuel : nat) : M unit :=
  self <- get_self ;;
  match self.(Self.f),
        self.(Self._wants_jacobian) && match self.(Self.jac) with
                                       | None => true
                                       | Some _ => false
                                       end with
  | Some _, false => ret tt
  | _, _ => generate_functions fuel
  end.

(** [set_integrator] comes back to itself when the base class finds no
    state set: [fuel] bounds that, and the name search of [compile_C]. *)
Fixpoint set_integrator (fuel : nat) (name : str) : M unit :=
  match fuel with
  | O => fun s => (OutOfFuel, s)
  | S fuel' =>
      if str_eqb name (lit "zvode")
      then raise (NotImplementedError "JiTCODE does not natively support complex numbers yet.")
      else
        can_use_jacobian <- _can_use_jacobian name ;;
        modify_self
          (fun self =>
             Self.assign_wants_jacobian
               (self.(Self._wants_jacobian) || can_use_jacobian) self) ;;;
        _generate_functions fuel ;;;
        self <- get_self ;;
        match self.(Self.t) with
        | None =>
            ode__init__ self.(Self.f) self.(Self.jac) ;;;
            ode_set_integrator name
        | Some save_t =>
            let save_y := self.(Self._y) in
            ode__init__ self.(Self.f) self.(Self.jac) ;;;
            ode_set_integrator name ;;;
            ode_set_initial_value (set_integrator fuel') save_y save_t
        end
  end.

Definition set_initial_value (fuel : nat) (y : list R) (t : R) : M unit :=
  self <- get_self ;;
  if negb (self.(Self.n) =? length y)
  then raise (ValueError
    "The dimension of the initial value does not match the dimension of your differential equations.")
  else ode_set_initial_value (set_integrator fuel) y t.

Definition set_f_params : M unit :=
  raise (NotImplementedError "JiTCODE does not support passing parameters to the derivative yet.").

Definition set_jac_params : M unit :=
  raise (NotImplementedError "JiTCODE does not support passing parameters to the Jacobian yet.").

(** **** The class [jitcode_lyap]

    Its constructor and [set_initial_value], under the names [lyap__init__]
    and [lyap_set_initial_value]. The instance is the one of the base
    class, with the two attributes that the subclass adds. *)
Record lyap_instance : Type := {
  base : Self.instance;
  n_basic : nat;
  _n_lyap : nat;
}.

(** [sum(items)] *)
Definition python_sum (items : list expr) : expr :=
  fold_left add items (Num 0).

(** What the generator function [f_lyap] yields. *)
Definition f_lyap (f_basic : list expr) (helpers : list Helper) (n _n_lyap : nat)
  : list expr :=
  f_basic
  ++ flat_map
       (fun i =>
          map
            (fun line =>
               X.(sympy_simplify)
                 (python_sum
                    (map (fun '(k, entry) => mul entry (y (k + (i + 1) * n)))
                       (Helpers.enumerate line))))
            (_jac_from_f_with_helpers f_basic helpers false n))
       (seq 0 _n_lyap).

Definition lyap__init__ (f_sym : f_input) (helpers : list Helper)
  (wants_jacobian : bool) (n : option nat) (n_lyap : Z)
  : result lyap_instance :=
  match _handle_input f_sym n with
  | Raise e => Raise e
  | Ok (f_basic, n) =>
      let _n_lyap :=
        if (n_lyap <? 0)%Z || (Z.of_nat n <? n_lyap)%Z
        then n else Z.to_nat n_lyap in
      match _sort_helpers (_sympify_helpers helpers) with
      | Raise e => Raise e
      | Ok helpers =>
          match __init__ (GeneratorFunction (f_lyap f_basic helpers n _n_lyap))
                  helpers wants_jacobian (Some (_n_lyap * (n + 1))) true with
          | Raise e => Raise e
          | Ok self => Ok {| base := self; n_basic := n; _n_lyap := _n_lyap |}
          end
      end
  end.

(** [hstack(new_y)] is the state followed by one random direction for each
    exponent. *)
Definition lyap_set_initial_value (n_basic _n_lyap : nat) (fuel : nat)
  (y : list R) (t : R) : M unit :=
  let new_y :=
    y ++ concat (map (fun i => X.(random_direction) i n_basic) (seq 0 _n_lyap)) in
  set_initial_value fuel new_y t.

End WithExternals.

End Jitcode.

(** ** Vocabulary of the statements about [write_in_chunks]

    What one pass of the loop writes for the sub-routine [funcname]: the call
    in the main file, and the definition around [body] in the definitions
    file. *)

Definition chunk_call (funcname : str) (arguments : list (str * str)) : list str :=
  [funcname ++ lit "("]
  ++ match arguments with
     | _ :: _ => [Helpers.join (lit ", ") (map fst arguments)]
     | [] => []
     end
  ++ [lit ");" ++ Helpers.nl].

Definition chunk_definition (funcname : str) (arguments : list (str * str))
  (body : list str) : list str :=
  [lit "void " ++ funcname ++ lit "("]
  ++ [match arguments with
      | _ :: _ =>
          Helpers.join (lit ", ")
            (map (fun argument => snd argument ++ lit " " ++ fst argument)
               arguments)
      | [] => lit "void"
      end]
  ++ [lit "){" ++ Helpers.nl]
  ++ body
  ++ [lit "}" ++ Helpers.nl].

(** ** Vocabulary of the statements about [_sort_helpers] *)

(** [a] refers to the symbol of [b]. *)
Definition depends (a b : Helper) : Prop :=
  has (snd a) (Symbol (fst b)) = true.

(** The dependency relation of a list of helpers. *)
Definition dep_in (l : list Helper) (a b : Helper) : Prop :=
  In a l /\ In b l /\ depends a b.

(** A cycle is a helper that reaches itself along dependencies, in one step
    (it refers to its own symbol) or in several. *)
Definition cyclic (l : list Helper) : Prop :=
  exists h, clos_trans _ (dep_in l) h h.

Definition acyclic (l : list Helper) : Prop := ~ cyclic l.

(** No helper refers to the symbol of a helper behind it. *)
Definition no_forward_reference (l : list Helper) : Prop :=
  forall i j hi hj, i < j ->
    nth_error l i = Some hi -> nth_error l j = Some hj ->
    has (snd hi) (Symbol (fst hj)) = false.

(** ** Vocabulary of the statements about [orthonormalise] *)

(** The sum of two arrays and the multiple of one. *)
Fixpoint plus (u v : Helpers.array) : Helpers.array :=
  match u, v with
  | a :: u', b :: v' => (a + b)%R :: plus u' v'
  | _, _ => []
  end.

Fixpoint scaled (c : R) (v : Helpers.array) : Helpers.array :=
  match v with
  | [] => []
  | a :: v' => (c * a)%R :: scaled c v'
  end.

(** The linear combination of [vectors] in which the vector at index [k]
    has the coefficient [c (start + k)]; the arrays have [d] entries. *)
Fixpoint combination (d start : nat) (c : nat -> R) (vectors : list Helpers.array)
  : Helpers.array :=
  match vectors with
  | [] => repeat 0%R d
  | v :: rest => plus (scaled (c start) v) (combination d (S start) c rest)
  end.

(** Only the combination with all coefficients zero gives the zero array. *)
Definition linearly_independent (d : nat) (vectors : list Helpers.array) : Prop :=
  forall c, combination d 0 c vectors = repeat 0%R d ->
            forall k, k < length vectors -> c k = 0%R.

(** ** Properties of the name counter *)

Section NameCounter.
Import Helpers.

Lemma rsplit_int_eq (s : str) :
  rsplit_int s =
  match last_char s with
  | Some c => if isdigit c
              then let '(x, y) := rsplit_int (removelast s) in (x, y ++ [c])
              else (s, [])
  | None => (s, [])
  end.
Proof.
  funelim (rsplit_int s).
  - rewrite e. reflexivity.
  - rewrite e, Heq. reflexivity.
  - rewrite e, Heq. reflexivity.
Qed.

Lemma last_char_snoc (s : str) (c : ascii) : last_char (s ++ [c]) = Some c.
Proof. unfold last_char. now rewrite rev_app_distr. Qed.

Lemma rsplit_int_snoc (s : str) (c : ascii) :
  rsplit_int (s ++ [c]) =
  if isdigit c then (fst (rsplit_int s), snd (rsplit_int s) ++ [c])
  else (s ++ [c], []).
Proof.
  rewrite rsplit_int_eq, last_char_snoc, removelast_last.
  destruct (isdigit c); [|reflexivity]. now destruct (rsplit_int s).
Qed.

Lemma rsplit_int_no_digit (s : str) :
  ends_in_digit s = false -> rsplit_int s = (s, []).
Proof.
  unfold ends_in_digit. intros H. rewrite rsplit_int_eq.
  destruct (last_char s); [now rewrite H | reflexivity].
Qed.

Lemma rsplit_int_digits (s d : str) :
  forallb isdigit d = true ->
  rsplit_int (s ++ d) = (fst (rsplit_int s), snd (rsplit_int s) ++ d).
Proof.
  induction d as [|c d IH] using rev_ind; intros Hd.
  - rewrite !app_nil_r. now destruct (rsplit_int s).
  - rewrite forallb_app in Hd. apply andb_true_iff in Hd as [Hd Hc].
    simpl in Hc. rewrite andb_true_r in Hc.
    rewrite app_assoc, rsplit_int_snoc, Hc, IH by assumption.
    simpl. now rewrite app_assoc.
Qed.

(** The split is the one into the stem and the longest suffix of digits. *)
Lemma rsplit_int_stem (stem d : str) :
  ends_in_digit stem = false -> forallb isdigit d = true ->
  rsplit_int (stem ++ d) = (stem, d).
Proof.
  intros Hs Hd. rewrite rsplit_int_digits by assumption.
  now rewrite rsplit_int_no_digit.
Qed.

Lemma str_of_int_eq (n : N) :
  str_of_int n =
  if (n <? 10)%N then [digit_char n]
  else str_of_int (n / 10) ++ [digit_char (n mod 10)].
Proof.
  funelim (str_of_int n); rewrite e; reflexivity.
Qed.

Lemma digit_cases (d : N) :
  (d < 10)%N ->
  In d [0; 1; 2; 3; 4; 5; 6; 7; 8; 9]%N.
Proof.
  intros H. simpl.
  destruct d as [|p]; [now left|].
  repeat (destruct p as [p|p|]; try lia; auto 12).
Qed.

Ltac by_digit d H :=
  let C := fresh in
  pose proof (digit_cases d H) as C; simpl in C;
  repeat (destruct C as [C|C]; [subst d; try reflexivity|]); try contradiction.

Lemma isdigit_digit_char (d : N) : (d < 10)%N -> isdigit (digit_char d) = true.
Proof. intros H. by_digit d H. Qed.

Lemma digit_value_digit_char (d : N) :
  (d < 10)%N -> digit_value (digit_char d) = d.
Proof. intros H. by_digit d H. Qed.

Lemma int_of_str_snoc (s : str) (c : ascii) :
  int_of_str (s ++ [c]) = (10 * int_of_str s + digit_value c)%N.
Proof. unfold int_of_str. now rewrite fold_left_app. Qed.

Lemma str_of_int_digits (n : N) : forallb isdigit (str_of_int n) = true.
Proof.
  funelim (str_of_int n).
  - simpl. rewrite isdigit_digit_char; [reflexivity | now apply N.ltb_lt].
  - rewrite forallb_app, H. simpl.
    rewrite isdigit_digit_char; [reflexivity | apply N.mod_lt; lia].
Qed.

(** [str_of_int n] is the numeral of [n]: reading it back gives [n]. *)
Lemma int_of_str_of_int (n : N) : int_of_str (str_of_int n) = n.
Proof.
  funelim (str_of_int n).
  - pose proof (proj1 (N.ltb_lt _ _) e) as Hlt. unfold int_of_str. simpl.
    rewrite digit_value_digit_char by assumption. lia.
  - rewrite int_of_str_snoc, H.
    rewrite digit_value_digit_char by (apply N.mod_lt; lia).
    symmetry. apply N.div_mod. lia.
Qed.

Lemma str_of_int_length_pos (n : N) : 0 < length (str_of_int n).
Proof.
  rewrite str_of_int_eq. destruct (n <? 10)%N; [simpl; lia|].
  rewrite length_app. simpl. lia.
Qed.

Lemma str_of_int_length_mono (n m : N) :
  (n <= m)%N -> length (str_of_int n) <= length (str_of_int m).
Proof.
  revert m. funelim (str_of_int n); intros m Hm.
  - simpl. apply str_of_int_length_pos.
  - pose proof (proj1 (N.ltb_ge _ _) e) as Hge.
    rewrite (str_of_int_eq m).
    assert (E : (m <? 10)%N = false) by (apply N.ltb_ge; lia).
    rewrite E, !length_app. simpl.
    specialize (H (m / 10)%N (N.Div0.div_le_mono _ _ 10%N Hm)). lia.
Qed.

Lemma int_of_str_zeros (k : nat) (s : str) :
  int_of_str (repeat "0"%char k ++ s) = int_of_str s.
Proof.
  induction k as [|k IH]; [reflexivity|].
  unfold int_of_str in *. simpl. exact IH.
Qed.

Lemma format_int_digits (prec : nat) (n : N) :
  forallb isdigit (format_int prec n) = true.
Proof.
  unfold format_int. rewrite forallb_app, str_of_int_digits, andb_true_r.
  induction (prec - _) as [|k IH]; [reflexivity | exact IH].
Qed.

Lemma int_of_format_int (prec : nat) (n : N) :
  int_of_str (format_int prec n) = n.
Proof.
  unfold format_int. now rewrite int_of_str_zeros, int_of_str_of_int.
Qed.

Lemma format_int_length (prec : nat) (n : N) :
  length (format_int prec n) = Nat.max prec (length (str_of_int n)).
Proof.
  unfold format_int. rewrite length_app, repeat_length. lia.
Qed.

Lemma format_int_cons (prec : nat) (n : N) :
  exists c r, format_int prec n = c :: r.
Proof.
  pose proof (format_int_length prec n) as L.
  pose proof (str_of_int_length_pos n).
  destruct (format_int prec n) as [|c r]; [simpl in L; lia | eauto].
Qed.

(** The two cases of [count_up]. *)
Lemma count_up_digits (stem d : str) :
  ends_in_digit stem = false -> forallb isdigit d = true -> d <> [] ->
  count_up (stem ++ d) = stem ++ format_int (length d) (int_of_str d + 1).
Proof.
  intros Hs Hd Hne. unfold count_up.
  rewrite rsplit_int_stem by assumption.
  destruct d; [contradiction | reflexivity].
Qed.

Lemma count_up_no_digit (s : str) :
  ends_in_digit s = false -> count_up s = s ++ lit "_1".
Proof.
  intros Hs. unfold count_up. now rewrite rsplit_int_no_digit.
Qed.

Lemma ends_in_digit_snoc (s : str) (c : ascii) :
  ends_in_digit (s ++ [c]) = isdigit c.
Proof. unfold ends_in_digit. now rewrite last_char_snoc. Qed.

(** Counting up a name that already carries a counter. *)
Lemma count_up_numbered (s : str) (k : N) :
  count_up (s ++ lit "_" ++ str_of_int k) = s ++ lit "_" ++ str_of_int (k + 1).
Proof.
  rewrite !app_assoc.
  rewrite count_up_digits.
  - f_equal. unfold format_int.
    pose proof (str_of_int_length_mono k (k + 1)) as L.
    rewrite int_of_str_of_int.
    replace (_ - _) with 0 by (specialize (L ltac:(lia)); lia).
    reflexivity.
  - apply ends_in_digit_snoc.
  - apply str_of_int_digits.
  - pose proof (str_of_int_length_pos k). now destruct (str_of_int k).
Qed.

Lemma count_up_iter (s : str) (k : nat) :
  ends_in_digit s = false ->
  Nat.iter (S k) count_up s = s ++ lit "_" ++ str_of_int (N.of_nat (S k)).
Proof.
  intros Hs. induction k as [|k IH].
  - simpl. now rewrite count_up_no_digit.
  - change (Nat.iter (S (S k)) count_up s) with (count_up (Nat.iter (S k) count_up s)).
    rewrite IH, count_up_numbered. do 3 f_equal. lia.
Qed.

(** Every name splits into a stem that ends in no digit and a run of
    digits, and [rsplit_int] finds that split. *)
Lemma rsplit_int_spec (s : str) :
  s = fst (rsplit_int s) ++ snd (rsplit_int s)
  /\ ends_in_digit (fst (rsplit_int s)) = false
  /\ forallb isdigit (snd (rsplit_int s)) = true.
Proof.
  induction s as [|c s IH] using rev_ind.
  - repeat split.
  - rewrite rsplit_int_snoc. destruct (isdigit c) eqn:E; simpl.
    + destruct IH as (E1 & E2 & E3). repeat split.
      * rewrite app_assoc. now rewrite <- E1.
      * exact E2.
      * rewrite forallb_app, E3. simpl. now rewrite E.
    + rewrite app_nil_r, ends_in_digit_snoc. auto.
Qed.

(** Counting up keeps the stem and adds one to the number behind it. *)
Lemma count_up_value (stem d : str) :
  ends_in_digit stem = false -> forallb isdigit d = true -> d <> [] ->
  exists r, count_up (stem ++ d) = stem ++ r
            /\ forallb isdigit r = true /\ r <> []
            /\ int_of_str r = (int_of_str d + 1)%N.
Proof.
  intros Hs Hd Hne. exists (format_int (length d) (int_of_str d + 1)).
  rewrite count_up_digits by assumption.
  repeat split.
  - apply format_int_digits.
  - destruct (format_int_cons (length d) (int_of_str d + 1)) as (c & r & E).
    now rewrite E.
  - apply int_of_format_int.
Qed.

Lemma app_neq_self (s x : str) : x <> [] -> s <> s ++ x.
Proof.
  intros Hx E. apply (f_equal (@length _)) in E. rewrite length_app in E.
  destruct x; [contradiction | simpl in E; lia].
Qed.

Lemma NoDup_3 {A : Type} (a b c : A) :
  a <> b -> a <> c -> b <> c -> NoDup [a; b; c].
Proof.
  intros Hab Hac Hbc. repeat constructor; simpl; intuition congruence.
Qed.

(** Three successive names are pairwise different. *)
Lemma count_up_distinct3 (s : str) :
  NoDup [s; count_up s; count_up (count_up s)].
Proof.
  pose proof (rsplit_int_spec s) as H.
  destruct (rsplit_int s) as [stem d]. simpl in H.
  destruct H as (E & Hs & Hd). subst s.
  destruct d as [|c d].
  - rewrite app_nil_r.
    rewrite (count_up_no_digit stem Hs).
    change (stem ++ lit "_1") with (stem ++ lit "_" ++ str_of_int 1).
    rewrite count_up_numbered.
    change (str_of_int (1 + 1)) with (lit "2"). change (str_of_int 1) with (lit "1").
    apply NoDup_3.
    + apply app_neq_self. discriminate.
    + apply app_neq_self. discriminate.
    + intros H. apply app_inv_head in H. discriminate.
  - destruct (count_up_value stem (c :: d) Hs Hd ltac:(discriminate))
      as (r1 & E1 & D1 & N1 & V1).
    destruct (count_up_value stem r1 Hs D1 N1) as (r2 & E2 & D2 & N2 & V2).
    rewrite E1, E2.
    apply NoDup_3; intros H; apply app_inv_head in H.
    + rewrite <- H in V1. lia.
    + rewrite <- H in V2. lia.
    + rewrite <- H in V2. lia.
Qed.

Lemma str_eqb_eq (a b : str) : str_eqb a b = true <-> a = b.
Proof.
  revert b. induction a as [|x a IH]; intros [|y b]; simpl;
    try (split; [discriminate | discriminate]); [tauto|].
  rewrite andb_true_iff, IH, Ascii.eqb_eq. split.
  - now intros [-> ->].
  - now intros [= -> ->].
Qed.

(** Counting up [i] times a name that carries a number adds [i] to the
    number. *)
Lemma count_up_iter_value (stem d : str) (i : nat) :
  ends_in_digit stem = false -> forallb isdigit d = true -> d <> [] ->
  exists r, Nat.iter i count_up (stem ++ d) = stem ++ r
            /\ forallb isdigit r = true /\ r <> []
            /\ int_of_str r = (int_of_str d + N.of_nat i)%N.
Proof.
  intros Hs Hd Hne. induction i as [|i (r & E & Dr & Nr & Vr)].
  - exists d. repeat split; auto. simpl. lia.
  - destruct (count_up_value stem r Hs Dr Nr) as (r' & E' & Dr' & Nr' & Vr').
    exists r'. simpl. rewrite E, E'. repeat split; auto. lia.
Qed.

(** The names that counting up goes through are all different. *)
Lemma count_up_iter_inj (s : str) (i j : nat) :
  Nat.iter i count_up s = Nat.iter j count_up s -> i = j.
Proof.
  pose proof (rsplit_int_spec s) as H.
  destruct (rsplit_int s) as [stem d]. simpl in H.
  destruct H as (E & Hs & Hd). subst s.
  destruct d as [|c d].
  - rewrite app_nil_r.
    assert (G : forall k, Nat.iter k count_up stem
                          = match k with
                            | O => stem
                            | S _ => stem ++ lit "_" ++ str_of_int (N.of_nat k)
                            end).
    { intros [|k]; [reflexivity | now apply count_up_iter]. }
    rewrite !G. destruct i as [|i], j as [|j]; intros H; auto.
    + apply app_neq_self in H; [contradiction | discriminate].
    + symmetry in H. apply app_neq_self in H; [contradiction | discriminate].
    + apply app_inv_head in H. apply app_inv_head in H.
      apply (f_equal int_of_str) in H. rewrite !int_of_str_of_int in H. lia.
  - destruct (count_up_iter_value stem (c :: d) i Hs Hd ltac:(discriminate))
      as (ri & Ei & _ & _ & Vi).
    destruct (count_up_iter_value stem (c :: d) j Hs Hd ltac:(discriminate))
      as (rj & Ej & _ & _ & Vj).
    rewrite Ei, Ej. intros H. apply app_inv_head in H. subst rj. lia.
Qed.

(** The search for a module name that is not in use ends: among more names
    than there are modules, one is free. *)
Lemma unused_modulename_found (fuel : nat) (modules : list str) (name : str) :
  length modules < fuel ->
  exists free, Jitcode.unused_modulename fuel modules name = Some free.
Proof.
  intros Hfuel.
  destruct (Jitcode.unused_modulename fuel modules name) as [free|] eqn:E;
    [eauto|]. exfalso.
  assert (G : forall k s, Jitcode.unused_modulename k modules s = None ->
              forall i, i < k -> In (Nat.iter i count_up s) modules).
  { induction k as [|k IH]; intros s H i Hi; [lia|]. simpl in H.
    destruct (existsb (str_eqb s) modules) eqn:Es; [|discriminate].
    destruct i as [|i].
    - apply existsb_exists in Es as (x & Hx & Ex).
      apply str_eqb_eq in Ex. now subst x.
    - rewrite Nat.iter_succ_r. apply IH; [exact H | lia]. }
  assert (N : NoDup (map (fun i => Nat.iter i count_up name) (seq 0 fuel))).
  { apply Injective_map_NoDup; [|apply seq_NoDup].
    intros i j. apply count_up_iter_inj. }
  apply NoDup_incl_length with (l' := modules) in N.
  - rewrite length_map, length_seq in N. lia.
  - intros x Hx. apply in_map_iff in Hx as (i & <- & Hi).
    apply in_seq in Hi. apply (G fuel name E). lia.
Qed.



End NameCounter.

(** ** Properties of the chunked writer *)

Section Chunks.
Import Helpers.

Lemma take_lines_enough (k : nat) (lines acc : list str) (e : option exn) :
  k <= length lines ->
  take_lines k {| pending := lines; failure := e |} acc =
  (acc ++ firstn k lines, {| pending := skipn k lines; failure := e |},
   Completed).
Proof.
  revert lines acc. induction k as [|k IH]; intros lines acc H; simpl.
  - now rewrite app_nil_r.
  - destruct lines as [|l lines]; [simpl in H; lia|].
    unfold next. simpl. rewrite IH by (simpl in H; lia).
    now rewrite <- app_assoc.
Qed.

Lemma take_lines_short (k : nat) (lines acc : list str) :
  length lines < k ->
  take_lines k (generator_of lines) acc = (acc ++ lines, generator_of [], Stopped).
Proof.
  revert lines acc. induction k as [|k IH]; intros lines acc H; [lia|].
  destruct lines as [|l lines]; simpl.
  - now rewrite app_nil_r.
  - unfold next. simpl. fold (generator_of lines).
    rewrite IH by (simpl in H; lia). now rewrite <- app_assoc.
Qed.

Lemma write_lines_enough (k : nat) (lines : list str) (e : option exn)
  (f : file) :
  k <= length lines ->
  write_lines k {| pending := lines; failure := e |} f =
  (f ++ firstn k lines, {| pending := skipn k lines; failure := e |},
   Completed).
Proof.
  revert lines f. induction k as [|k IH]; intros lines f H; simpl.
  - now rewrite app_nil_r.
  - destruct lines as [|l lines]; [simpl in H; lia|].
    unfold next. simpl. rewrite IH by (simpl in H; lia).
    unfold write. now rewrite <- app_assoc.
Qed.

Lemma write_lines_short (k : nat) (lines : list str) (f : file) :
  length lines < k ->
  write_lines k (generator_of lines) f = (f ++ lines, generator_of [], Stopped).
Proof.
  revert lines f. induction k as [|k IH]; intros lines f H; [lia|].
  destruct lines as [|l lines]; simpl.
  - now rewrite app_nil_r.
  - unfold next. simpl. fold (generator_of lines).
    rewrite IH by (simpl in H; lia). unfold write. now rewrite <- app_assoc.
Qed.

Lemma fold_left_write (l : list str) (f : file) : fold_left write l f = f ++ l.
Proof.
  revert f. induction l as [|x l IH]; intros f; simpl.
  - now rewrite app_nil_r.
  - rewrite IH. unfold write. now rewrite <- app_assoc.
Qed.

(** One pass of the loop over a generator that still holds a full chunk: a
    call, a full definition, and the next pass under the next name. *)
Lemma chunk_loop_full (fuel : nat) (lines : list str) (e : option exn)
  (mainfile deffile : file) (funcname : str) (chunk_size : Z)
  (arguments : list (str * str)) :
  Z.to_nat chunk_size <= length lines ->
  chunk_loop (S fuel) {| pending := lines; failure := e |} mainfile deffile
    funcname chunk_size arguments =
  chunk_loop fuel
    {| pending := skipn (Z.to_nat chunk_size) lines; failure := e |}
    (mainfile ++ chunk_call funcname arguments)
    (deffile ++ chunk_definition funcname arguments
                  (firstn (Z.to_nat chunk_size) lines))
    (count_up funcname) chunk_size arguments.
Proof.
  intros H. unfold chunk_call, chunk_definition. simpl.
  destruct arguments as [|a arguments]; rewrite write_lines_enough by assumption;
    unfold write; f_equal; rewrite <- ?app_assoc; reflexivity.
Qed.

(** The last pass: the generator ends inside the chunk. *)
Lemma chunk_loop_last (fuel : nat) (lines : list str) (mainfile deffile : file)
  (funcname : str) (chunk_size : Z) (arguments : list (str * str)) :
  length lines < Z.to_nat chunk_size ->
  chunk_loop (S fuel) (generator_of lines) mainfile deffile funcname chunk_size
    arguments =
  (Return tt,
   (mainfile ++ chunk_call funcname arguments,
    deffile ++ chunk_definition funcname arguments lines)).
Proof.
  intros H. unfold chunk_call, chunk_definition. simpl.
  destruct arguments as [|a arguments]; rewrite write_lines_short by assumption;
    unfold write; rewrite <- ?app_assoc; reflexivity.
Qed.

(** **** The loop ends

    A chunk size of one or more takes a line from the generator in each
    pass that goes on, so that the fuel of one pass more than there are
    lines is enough. *)

Lemma write_lines_completed (k : nat) (lines lines' : generator) (f f' : file) :
  write_lines k lines f = (f', lines', Completed) ->
  length lines'.(pending) + k = length lines.(pending).
Proof.
  revert lines f. induction k as [|k IH]; intros lines f; simpl.
  - intros [= _ <-]. lia.
  - unfold next. destruct lines as [[|line rest] e]; simpl.
    + destruct e; discriminate.
    + intros H. apply IH in H. simpl in H. lia.
Qed.

Lemma take_lines_completed (k : nat) (lines lines' : generator)
  (acc acc' : list str) :
  take_lines k lines acc = (acc', lines', Completed) ->
  length acc' + length lines'.(pending) = length acc + length lines.(pending).
Proof.
  revert lines acc. induction k as [|k IH]; intros lines acc; simpl.
  - intros [= <- <-]. lia.
  - unfold next. destruct lines as [[|line rest] e]; simpl.
    + destruct e; discriminate.
    + intros H. apply IH in H. rewrite length_app in H. simpl in H. lia.
Qed.

Lemma chunk_loop_ends (fuel : nat) :
  forall (lines : generator) (mainfile deffile : file) (funcname : str)
         (chunk_size : Z) (arguments : list (str * str)),
  (1 <= chunk_size)%Z -> length lines.(pending) < fuel ->
  fst (chunk_loop fuel lines mainfile deffile funcname chunk_size arguments)
  <> OutOfFuel.
Proof.
  induction fuel as [|fuel IH]; intros lines mainfile deffile funcname
    chunk_size arguments Hsize Hfuel; [lia|].
  cbn [chunk_loop].
  destruct arguments as [|a arguments];
    match goal with
    | |- context [write_lines ?k ?l ?f] =>
        destruct (write_lines k l f) as [[deffile' lines'] ending] eqn:E
    end;
    destruct ending; cbn [fst]; try discriminate;
    apply write_lines_completed in E; apply IH; try assumption; lia.
Qed.

Lemma write_in_chunks_ends (lines : generator) (mainfile deffile : file)
  (name : str) (chunk_size : Z) (arguments : list (str * str)) :
  (1 <= chunk_size)%Z ->
  fst (write_in_chunks (S (length lines.(pending))) lines mainfile deffile name
         chunk_size arguments)
  <> OutOfFuel.
Proof.
  intros Hsize. unfold write_in_chunks.
  destruct (take_lines (Z.to_nat (chunk_size + 1)) lines [])
    as [[first_chunk lines'] ending] eqn:E.
  destruct ending; cbn [fst]; try discriminate.
  apply take_lines_completed in E. simpl in E.
  apply chunk_loop_ends; [exact Hsize|].
  unfold chain. cbn [pending]. rewrite length_app. lia.
Qed.

Lemma write_helpers_and_code_ends (helperlines codelines : generator)
  (mainfile deffile : file) (helpers_name code_name : str) (chunk_size : Z)
  (arguments : list (str * str)) :
  fst (write_helpers_and_code helperlines codelines mainfile deffile
         helpers_name code_name chunk_size arguments)
  <> OutOfFuel.
Proof.
  unfold write_helpers_and_code.
  destruct (chunk_size <? 1)%Z eqn:E.
  - unfold write_all. cbn [fst failure].
    destruct (failure helperlines); [discriminate|].
    destruct (failure codelines); discriminate.
  - apply Z.ltb_ge in E.
    pose proof (write_in_chunks_ends helperlines mainfile deffile helpers_name
                  chunk_size (tl arguments) E) as H1.
    destruct (write_in_chunks _ helperlines _ _ _ _ _) as [[[]| |] [m d]];
      cbn [fst] in *; try discriminate; try contradiction.
    now apply write_in_chunks_ends.
Qed.

(** C5. With 250 lines and [chunk_size = 100] the writer puts three calls
    into the main file and three definitions into the definitions file, of
    100, 100 and 50 lines, under three different names; with 50 lines it
    writes them into the main file and leaves the definitions file alone. *)
Theorem write_in_chunks_250_and_50 (fuel : nat) (mainfile deffile : file)
  (name : str) (arguments : list (str * str)) :
  (forall lines, length lines = 250 -> 3 <= fuel ->
     let f0 := lit "definitions_" ++ name in
     let f1 := count_up f0 in
     let f2 := count_up f1 in
     let c0 := firstn 100 lines in
     let c1 := firstn 100 (skipn 100 lines) in
     let c2 := skipn 200 lines in
     write_in_chunks fuel (generator_of lines) mainfile deffile name 100
       arguments =
       (Return tt,
        (mainfile ++ chunk_call f0 arguments ++ chunk_call f1 arguments
           ++ chunk_call f2 arguments,
         deffile ++ chunk_definition f0 arguments c0
           ++ chunk_definition f1 arguments c1
           ++ chunk_definition f2 arguments c2))
     /\ lines = c0 ++ c1 ++ c2
     /\ length c0 = 100 /\ length c1 = 100 /\ length c2 = 50
     /\ NoDup [f0; f1; f2])
  /\ (forall lines, length lines = 50 ->
       write_in_chunks fuel (generator_of lines) mainfile deffile name 100
         arguments =
         (Return tt, (mainfile ++ lines, deffile))).
Proof.
  split.
  - intros lines Hlen Hfuel f0 f1 f2 c0 c1 c2.
    assert (L1 : length (skipn 100 lines) = 150) by (rewrite length_skipn; lia).
    assert (L2 : length (skipn 100 (skipn 100 lines)) = 50)
      by (rewrite length_skipn; lia).
    assert (E2 : skipn 100 (skipn 100 lines) = c2)
      by (unfold c2; now rewrite skipn_skipn).
    repeat split.
    + unfold write_in_chunks, generator_of.
      change (Z.to_nat (100 + 1)) with 101.
      rewrite take_lines_enough by lia. cbv beta iota.
      unfold chain. cbn [pending failure].
      rewrite app_nil_l, firstn_skipn.
      destruct fuel as [|[|[|fuel]]]; try lia.
      change 100%Z with (Z.of_nat 100).
      rewrite chunk_loop_full by (rewrite Nat2Z.id; lia).
      rewrite chunk_loop_full by (rewrite Nat2Z.id; lia).
      fold (generator_of (skipn (Z.to_nat (Z.of_nat 100))
                            (skipn (Z.to_nat (Z.of_nat 100)) lines))).
      rewrite chunk_loop_last by (rewrite !Nat2Z.id; lia).
      rewrite !Nat2Z.id, E2, <- !app_assoc. reflexivity.
    + unfold c0, c1. rewrite <- E2. now rewrite !firstn_skipn.
    + unfold c0. rewrite length_firstn. lia.
    + unfold c1. rewrite length_firstn. lia.
    + rewrite <- E2. exact L2.
    + apply count_up_distinct3.
  - intros lines Hlen. unfold write_in_chunks.
    change (Z.to_nat (100 + 1)) with 101.
    rewrite take_lines_short by lia. cbv beta iota.
    now rewrite fold_left_write.
Qed.

Lemma write_in_chunks_250_and_50_witness :
  (exists mainfile deffile,
     write_in_chunks 3 (generator_of (repeat (lit "x;") 250)) [] [] (lit "f")
       100 []
       = (Return tt, (mainfile, deffile))
     /\ length deffile = 3 * 4 + 250)
  /\ write_in_chunks 0 (generator_of (repeat (lit "x;") 50)) [] [] (lit "f")
       100 []
     = (Return tt, (repeat (lit "x;") 50, [])).
Proof.
  split.
  - destruct (proj1 (write_in_chunks_250_and_50 3 [] [] (lit "f") [])
                (repeat (lit "x;") 250) eq_refl (le_n 3)) as (E & _).
    eexists _, _. split; [exact E | reflexivity].
  - exact (proj2 (write_in_chunks_250_and_50 0 [] [] (lit "f") [])
             (repeat (lit "x;") 50) eq_refl).
Defined.

End Chunks.

(** ** Properties of the helper sorter *)

Section SortHelpers.
Import Jitcode.

Lemma helper_eq_dec (a b : Helper) : {a = b} + {a <> b}.
Proof.
  repeat decide equality.
Defined.

Lemma _sort_helpers_eq (helpers : list Helper) :
  _sort_helpers helpers =
  if 1 <? length helpers
  then match pop_independent helpers [] helpers with
       | None => Raise (ValueError "Helpers have cyclic dependencies.")
       | Some (first, others) =>
           match _sort_helpers others with
           | Ok sorted => Ok (first :: sorted)
           | Raise e => Raise e
           end
       end
  else Ok helpers.
Proof.
  funelim (_sort_helpers helpers);
    repeat match goal with
      | E : (_ <? _) = _ |- _ => rewrite E
      | E : pop_independent _ _ _ = _ |- _ => rewrite E
      | E : _sort_helpers _ = Ok _ |- _ => rewrite E
      | E : _sort_helpers _ = Raise _ |- _ => rewrite E
      end; reflexivity.
Qed.

Lemma depends_on_any_false (h : Helper) (l : list Helper) :
  depends_on_any h l = false <-> forall x, In x l -> ~ depends h x.
Proof.
  unfold depends_on_any, depends. split.
  - intros H x Hx Hd.
    assert (E : existsb (fun o => has (snd h) (Symbol (fst o))) l = true)
      by (apply existsb_exists; eauto).
    congruence.
  - intros H.
    destruct (existsb (fun o => has (snd h) (Symbol (fst o))) l) eqn:E;
      [|reflexivity].
    apply existsb_exists in E as (x & Hx & Hd). now destruct (H x Hx).
Qed.

Lemma depends_on_any_true (h : Helper) (l : list Helper) :
  depends_on_any h l = true <-> exists x, In x l /\ depends h x.
Proof. unfold depends_on_any, depends. apply existsb_exists. Qed.

Lemma pop_independent_some (helpers before rest : list Helper) h others :
  pop_independent helpers before rest = Some (h, others) ->
  Permutation (before ++ rest) (h :: others)
  /\ depends_on_any h helpers = false.
Proof.
  revert before. induction rest as [|x rest IH]; intros before; simpl.
  - discriminate.
  - destruct (depends_on_any x helpers) eqn:E; simpl.
    + intros H. apply IH in H as [P D]. split; [|exact D].
      now rewrite <- app_assoc in P.
    + intros [= <- <-]. split; [|exact E].
      symmetry. apply Permutation_middle.
Qed.

Lemma pop_independent_none (helpers before rest : list Helper) :
  pop_independent helpers before rest = None ->
  forall x, In x rest -> depends_on_any x helpers = true.
Proof.
  revert before. induction rest as [|x rest IH]; intros before; simpl.
  - intros _ y [].
  - destruct (depends_on_any x helpers) eqn:E; simpl; [|discriminate].
    intros H y [<-|Hy]; [exact E | eapply IH; eauto].
Qed.

Lemma dep_in_incl (l l' : list Helper) :
  (forall x, In x l' -> In x l) ->
  forall a b, clos_trans _ (dep_in l') a b -> clos_trans _ (dep_in l) a b.
Proof.
  intros Hincl a b H. induction H as [a b (Ha & Hb & D)|a b c _ IH1 _ IH2].
  - apply t_step. repeat split; auto.
  - eapply t_trans; eassumption.
Qed.

Lemma acyclic_incl (l l' : list Helper) :
  (forall x, In x l' -> In x l) -> acyclic l -> acyclic l'.
Proof.
  intros Hincl Hl [h Hh]. apply Hl. exists h. eapply dep_in_incl; eassumption.
Qed.

Lemma dep_in_rt_incl (l l' : list Helper) :
  (forall x, In x l' -> In x l) ->
  forall a b, clos_refl_trans _ (dep_in l') a b ->
              clos_refl_trans _ (dep_in l) a b.
Proof.
  intros Hincl a b H. induction H as [a b (Ha & Hb & D)|a|a b c _ IH1 _ IH2].
  - apply rt_step. repeat split; auto.
  - apply rt_refl.
  - eapply rt_trans; eassumption.
Qed.

Lemma rt_then_step {A : Type} (R : relation A) (a b c : A) :
  clos_refl_trans _ R a b -> R b c -> clos_trans _ R a c.
Proof.
  intros H Hbc. eapply clos_rt_t; [exact H | now apply t_step].
Qed.

(** In a list without cycle, every helper reaches one that depends on none
    of the list. *)
Lemma independent_reachable (n : nat) :
  forall l, length l <= n -> acyclic l ->
  forall h, In h l ->
  exists m, In m l /\ clos_refl_trans _ (dep_in l) h m
            /\ depends_on_any m l = false.
Proof.
  induction n as [|n IH]; intros l Hn Hl h Hh.
  - destruct l; [destruct Hh | simpl in Hn; lia].
  - destruct (depends_on_any h l) eqn:E.
    + apply depends_on_any_true in E as (z & Hz & D).
      assert (Hzh : z <> h).
      { intros ->. apply Hl. exists h. apply t_step. repeat split; auto. }
      set (l' := remove helper_eq_dec h l).
      assert (Hincl : forall x, In x l' -> In x l)
        by (intros x Hx; now apply in_remove in Hx).
      assert (Hlen : length l' <= n).
      { pose proof (remove_length_lt helper_eq_dec l h Hh). fold l' in H. lia. }
      destruct (IH l' Hlen (acyclic_incl l l' Hincl Hl) z
                  (in_in_remove helper_eq_dec l Hzh Hz))
        as (m & Hm & Hzm & Dm).
      exists m. split; [auto|]. split.
      * apply rt_trans with z; [apply rt_step; repeat split; auto|].
        eapply dep_in_rt_incl; eassumption.
      * apply depends_on_any_false. intros x Hx Dx.
        destruct (helper_eq_dec x h) as [->|Hxh].
        -- apply Hl. exists h.
           apply t_trans with z; [apply t_step; repeat split; auto|].
           eapply rt_then_step; [eapply dep_in_rt_incl; eassumption|].
           repeat split; auto.
        -- apply (proj1 (depends_on_any_false m l') Dm x); [|exact Dx].
           now apply in_in_remove.
    + exists h. split; [exact Hh|]. split; [apply rt_refl | exact E].
Qed.

(** The recursive reading of [no_forward_reference]. *)
Inductive ordered : list Helper -> Prop :=
| ordered_nil : ordered []
| ordered_cons (h : Helper) (l : list Helper) :
    (forall x, In x l -> has (snd h) (Symbol (fst x)) = false) ->
    ordered l -> ordered (h :: l).

Lemma ordered_no_forward_reference (l : list Helper) :
  ordered l -> no_forward_reference l.
Proof.
  induction 1 as [|h l Hh _ IH]; intros i j hi hj Hij Hi Hj.
  - destruct i; discriminate.
  - destruct j as [|j]; [lia|]. simpl in Hj.
    destruct i as [|i]; simpl in Hi.
    + injection Hi as <-. apply Hh. eapply nth_error_In; eassumption.
    + apply (IH i j); auto. lia.
Qed.

Lemma _sort_helpers_acyclic (n : nat) :
  forall l, length l <= n -> acyclic l ->
  exists sorted, _sort_helpers l = Ok sorted
                 /\ Permutation l sorted /\ ordered sorted.
Proof.
  induction n as [|n IH]; intros l Hn Hl; rewrite _sort_helpers_eq.
  - destruct l; [|simpl in Hn; lia]. exists []. repeat constructor.
  - destruct (1 <? length l) eqn:E1.
    + destruct (pop_independent l [] l) as [[first others]|] eqn:E2.
      * apply pop_independent_some in E2 as [P D]. simpl in P.
        assert (Hincl : forall x, In x others -> In x l).
        { intros x Hx. eapply Permutation_in; [symmetry; exact P|]. now right. }
        assert (Hlen : length others <= n).
        { apply Permutation_length in P. simpl in P. lia. }
        destruct (IH others Hlen (acyclic_incl l others Hincl Hl))
          as (sorted & -> & P' & O).
        exists (first :: sorted). repeat split.
        -- rewrite P. now constructor.
        -- constructor; [|exact O]. intros x Hx.
           destruct (has (snd first) (Symbol (fst x))) eqn:Ex; [|reflexivity].
           exfalso. apply (proj1 (depends_on_any_false first l) D x); [|exact Ex].
           apply Hincl. eapply Permutation_in; [symmetry; exact P'|exact Hx].
      * exfalso. destruct l as [|h l]; [discriminate|].
        destruct (independent_reachable (length (h :: l)) (h :: l) (le_n _) Hl h
                    (or_introl eq_refl)) as (m & Hm & _ & Dm).
        pose proof (pop_independent_none _ _ _ E2 m Hm). congruence.
    + exists l. repeat split; [reflexivity|].
      apply Nat.ltb_ge in E1.
      destruct l as [|h [|h' l]]; [constructor| |simpl in E1; lia].
      constructor; [intros x []|constructor].
Qed.

(** C3. Sorting a list of helpers without cycle succeeds, and gives a
    permutation of the list in which no helper refers to the symbol of a
    helper at a greater index. *)
Theorem _sort_helpers_sorts (helpers : list Helper) :
  acyclic helpers ->
  exists sorted, _sort_helpers helpers = Ok sorted
                 /\ Permutation helpers sorted
                 /\ no_forward_reference sorted.
Proof.
  intros H.
  destruct (_sort_helpers_acyclic (length helpers) helpers (le_n _) H)
    as (sorted & E & P & O).
  exists sorted. auto using ordered_no_forward_reference.
Qed.

(** A ranking that decreases along dependencies rules cycles out. *)
Lemma acyclic_of_rank (l : list Helper) (rank : Helper -> nat) :
  (forall a b, In a l -> In b l -> depends a b -> rank b < rank a) ->
  acyclic l.
Proof.
  intros Hrank [h Hh].
  assert (G : forall a b, clos_trans _ (dep_in l) a b -> rank b < rank a).
  { intros a b H. induction H as [a b (Ha & Hb & D)|a b c _ IH1 _ IH2].
    - now apply Hrank.
    - lia. }
  specialize (G h h Hh). lia.
Qed.

Lemma _sort_helpers_sorts_witness :
  exists sorted,
    _sort_helpers [("a"%string, Add (Atom (Symbol "b")) (Num 1));
                   ("b"%string, y 0)] = Ok sorted
    /\ Permutation [("a"%string, Add (Atom (Symbol "b")) (Num 1));
                    ("b"%string, y 0)] sorted
    /\ no_forward_reference sorted.
Proof.
  apply _sort_helpers_sorts.
  apply acyclic_of_rank
    with (rank := fun h => if String.eqb (fst h) "a" then 1 else 0).
  intros a b [<-|[<-|[]]] [<-|[<-|[]]] D; vm_compute in D |- *;
    try discriminate; lia.
Defined.

(** *** Cycles *)

Lemma two_in_list {A : Type} (a b : A) (l : list A) :
  a <> b -> In a l -> In b l -> 2 <= length l.
Proof.
  intros Hab Ha Hb. destruct l as [|x [|x' l]]; simpl in *; [tauto| |lia].
  destruct Ha as [<-|[]], Hb as [<-|[]]. now destruct Hab.
Qed.

(** Helpers that depend on one another are never moved to the front, so the
    sorter gives up once only such helpers are left, provided two of them
    are different. *)
Lemma _sort_helpers_closed_set (P : Helper -> Prop) (n : nat) :
  forall l, length l <= n ->
  (forall x, In x l -> P x -> exists x', In x' l /\ P x' /\ depends x x') ->
  (exists a b, a <> b /\ In a l /\ In b l /\ P a /\ P b) ->
  _sort_helpers l = Raise (ValueError "Helpers have cyclic dependencies.").
Proof.
  induction n as [|n IH]; intros l Hn Hclosed (a & b & Hab & Ha & Hb & Pa & Pb);
    pose proof (two_in_list a b l Hab Ha Hb) as H2; [lia|].
  rewrite _sort_helpers_eq.
  replace (1 <? length l) with true by (symmetry; apply Nat.ltb_lt; lia).
  destruct (pop_independent l [] l) as [[first others]|] eqn:E; [|reflexivity].
  apply pop_independent_some in E as [Perm D]. simpl in Perm.
  assert (NP : ~ P first).
  { intros Pf. destruct (Hclosed first) as (x' & Hx' & _ & Dx'); auto.
    - eapply Permutation_in; [symmetry; exact Perm | now left].
    - exact (proj1 (depends_on_any_false first l) D x' Hx' Dx'). }
  assert (Hothers : forall x, In x l -> P x -> In x others).
  { intros x Hx Px. apply (Permutation_in _ Perm) in Hx as [<-|Hx]; tauto. }
  rewrite (IH others); [reflexivity | | |].
  - apply Permutation_length in Perm. simpl in Perm. lia.
  - intros x Hx Px.
    assert (Hxl : In x l)
      by (eapply Permutation_in; [symmetry; exact Perm | now right]).
    destruct (Hclosed x Hxl Px) as (x' & Hx' & Px' & Dx'). eauto.
  - exists a, b. auto 10.
Qed.

Lemma clos_trans_first {A : Type} (R : relation A) (a b : A) :
  clos_trans _ R a b -> exists c, R a c /\ (c = b \/ clos_trans _ R c b).
Proof.
  induction 1 as [a b H|a b c _ (x & Hax & Hx) H2 _].
  - eauto.
  - exists x. split; [exact Hax|]. right.
    destruct Hx as [->|Hx]; [exact H2 | eapply t_trans; eassumption].
Qed.

(** X10. A cycle through two different helpers makes the sorter fail with
    its [ValueError], wherever in the list the helpers of the cycle are and
    whatever else the list holds. *)
Lemma _sort_helpers_rejects_cycle (l : list Helper) (a b : Helper) :
  a <> b ->
  clos_trans _ (dep_in l) a b -> clos_trans _ (dep_in l) b a ->
  _sort_helpers l = Raise (ValueError "Helpers have cyclic dependencies.").
Proof.
  intros Hab Hab' Hba'.
  assert (Haa : clos_trans _ (dep_in l) a a) by (eapply t_trans; eassumption).
  apply (_sort_helpers_closed_set
           (fun x => clos_trans _ (dep_in l) x a /\ clos_trans _ (dep_in l) a x)
           (length l) l (le_n _)).
  - intros x Hx [Hxa Hax].
    destruct (clos_trans_first _ _ _ Hxa) as (c & Hxc & Hc).
    exists c. split; [apply Hxc|]. split; [|apply Hxc].
    split.
    + destruct Hc as [->|Hc]; assumption.
    + eapply t_trans; [exact Hax | now apply t_step].
  - exists a, b. repeat split; auto.
    + destruct (clos_trans_first _ _ _ Hab') as (c & (H & _) & _). exact H.
    + destruct (clos_trans_first _ _ _ Hba') as (c & (H & _) & _). exact H.
Qed.

(** C4. The one-element list of the helper [h = h + 1] has a cycle (the
    helper refers to its own symbol), and the sorter returns it unchanged
    where a [ValueError] is expected: a list of fewer than two helpers is
    never examined. The same happens whenever the only helper left is one
    that refers to itself. *)
Theorem _sort_helpers_accepts_self_reference :
  let h : Helper := ("h"%string, Add (Atom (Symbol "h")) (Num 1)) in
  let b : Helper := ("b"%string, Num 2) in
  (cyclic [h] /\ _sort_helpers [h] = Ok [h])
  /\ (cyclic [h; b] /\ _sort_helpers [h; b] = Ok [b; h]).
Proof.
  intros h b. repeat split.
  - exists h. apply t_step. repeat split; simpl; auto.
  - exists h. apply t_step. repeat split; simpl; auto.
Qed.

End SortHelpers.


(** ** Properties of the Jacobian synthesiser *)

Section Jacobian.
Import Jitcode.
Variable X : externals.

Lemma jac_row_count (f : list expr) (helpers : list Helper) (simplify : bool)
  (n : nat) :
  length (_jac_from_f_with_helpers X f helpers simplify n) = length f
  /\ Forall (fun row => length row = n)
       (_jac_from_f_with_helpers X f helpers simplify n).
Proof.
  unfold _jac_from_f_with_helpers. split.
  - apply length_map.
  - apply Forall_map, Forall_forall. intros e _. unfold line.
    now rewrite length_map, length_seq.
Qed.

(** C2. For [n = 2] and no helpers the row of [y(0)*y(1)] is
    [[y(1), y(0)]]: as it stands when [simplify] is off, and in value for
    every simplification that keeps the value of an expression. With the
    helper [h = y(0) + y(1)] and the entry [h*h], the derivative with
    respect to [y(0)] has the value [2*h], which comes from the chain rule
    through [h] alone. *)
Theorem jacobian_examples (simplify : bool) :
  (forall env e, eval env (X.(sympy_simplify) e) = eval env e) ->
  (exists e0 e1,
     _jac_from_f_with_helpers X [mul (y 0) (y 1)] [] simplify 2 = [[e0; e1]]
     /\ forall env, eval env e0 = env (Apply "y" 1)
                    /\ eval env e1 = env (Apply "y" 0))
  /\ _jac_from_f_with_helpers X [mul (y 0) (y 1)] [] false 2 = [[y 1; y 0]]
  /\ (let h := Atom (Symbol "h") in
      exists e0 e1,
        _jac_from_f_with_helpers X [mul h h] [("h"%string, add (y 0) (y 1))]
          simplify 2 = [[e0; e1]]
        /\ diff (mul h h) (Apply "y" 0) = Num 0
        /\ forall env, eval env e0 = (2 * env (Symbol "h"))%R).
Proof.
  intros Hsound. repeat split.
  - destruct simplify; do 2 eexists; (split; [reflexivity|]); intros env;
      cbv beta iota zeta; rewrite ?Hsound; split; reflexivity.
  - destruct simplify; do 2 eexists; (split; [reflexivity|]);
      (split; [reflexivity|]); intros env; cbv beta iota zeta;
      rewrite ?Hsound; simpl; lra.
Qed.

End Jacobian.

(** Externals that do nothing: a simplifier that returns its argument, a
    common-subexpression extraction that finds none, a printer of empty
    text, one integrator under every name, and a build that works. *)
Definition plain_externals : externals :=
  {| sympy_simplify := fun e => e;
     sympy_cse := fun _ matrix => ([], matrix);
     ccode := fun _ _ _ => [];
     find_integrator := fun _ => Some {| takes_with_jacobian := true |};
     mkdtemp := lit "/tmp/tmp";
     render_template := fun _ _ _ _ _ _ _ => [];
     build_and_load := fun _ _ => true;
     random_direction := fun _ n => repeat 1%R n |}.

Lemma jacobian_examples_witness :
  Jitcode._jac_from_f_with_helpers plain_externals [mul (y 0) (y 1)] [] true 2
  = [[y 1; y 0]]
  /\ exists e0 e1,
       Jitcode._jac_from_f_with_helpers plain_externals
         [mul (Atom (Symbol "h")) (Atom (Symbol "h"))]
         [("h"%string, add (y 0) (y 1))] true 2 = [[e0; e1]]
       /\ forall env, eval env e0 = (2 * env (Symbol "h"))%R.
Proof.
  pose proof (jacobian_examples plain_externals true (fun _ _ => eq_refl))
    as (_ & _ & e0 & e1 & E & _ & V).
  split; [reflexivity|]. exists e0, e1. split; [exact E | exact V].
Defined.

(** ** Properties of the tangent-space extension *)

Section Lyapunov.
Import Jitcode.
Variable X : externals.

Lemma flat_map_rows_length {A B C : Type} (g : A -> B -> C) (rows : list B)
  (l : list A) :
  length (flat_map (fun i => map (g i) rows) l) = length l * length rows.
Proof.
  induction l as [|a l IH]; simpl; [reflexivity|].
  now rewrite length_app, length_map, IH.
Qed.

Lemma f_lyap_length (f_basic : list expr) (helpers : list Helper)
  (n _n_lyap : nat) :
  length (f_lyap X f_basic helpers n _n_lyap)
  = length f_basic + _n_lyap * length f_basic.
Proof.
  unfold f_lyap. rewrite length_app. f_equal.
  rewrite (flat_map_rows_length
             (fun i line =>
                X.(sympy_simplify)
                  (python_sum
                     (map (fun '(k, entry) => mul entry (y (k + (i + 1) * n)))
                        (Helpers.enumerate line))))).
  now rewrite length_seq, (proj1 (jac_row_count X f_basic helpers false n)).
Qed.

(** What the constructor declares and what [f_lyap] yields, for a sequence
    of [n] expressions: [n_lyap] is clamped to [n], the declared dimension
    is [n_lyap*(n+1)] (the number of expressions itself when that is zero),
    and [f_lyap] yields [n + n_lyap*n] expressions. *)
Lemma lyap__init__dimensions (entries : list expr) (helpers : list Helper)
  (wants_jacobian : bool) (n_lyap : Z) (self : lyap_instance) :
  lyap__init__ X (Sequence entries) helpers wants_jacobian None n_lyap = Ok self ->
  let n := length entries in
  self.(n_basic) = n
  /\ self.(_n_lyap)
     = (if (n_lyap <? 0)%Z || (Z.of_nat n <? n_lyap)%Z then n else Z.to_nat n_lyap)
  /\ length self.(base).(Self.f_sym) = n + self.(_n_lyap) * n
  /\ self.(base).(Self.n)
     = match self.(_n_lyap) * (n + 1) with
       | O => n + self.(_n_lyap) * n
       | S k => S k
       end.
Proof.
  unfold lyap__init__, __init__. simpl.
  destruct (_sort_helpers (_sympify_helpers helpers)) as [sorted|e];
    [|discriminate].
  destruct (_sort_helpers (_sympify_helpers sorted)) as [sorted'|e];
    [|discriminate].
  intros [= <-]. simpl. rewrite f_lyap_length. repeat split.
Qed.

(** The two agree exactly when every exponent is asked for. *)
Lemma lyap_dimension_agrees_iff (n n_lyap : nat) :
  n_lyap * (n + 1) = n + n_lyap * n <-> n_lyap = n.
Proof. nia. Qed.

(** C1. For the harmonic oscillator ([n = 2]) with one exponent, the
    constructor declares the dimension [1*(2+1) = 3] while [f_lyap] yields
    [2 + 1*2 = 4] expressions: the count of what is produced is not the
    declared dimension. *)
Theorem lyap_declared_dimension_differs :
  exists self,
    lyap__init__ X (Sequence [y 1; mul (Num (-1)) (y 0)]) [] false None 1
    = Ok self
    /\ self.(n_basic) = 2 /\ self.(_n_lyap) = 1
    /\ self.(base).(Self.n) = 3
    /\ length self.(base).(Self.f_sym) = 4.
Proof.
  eexists. split; [reflexivity|]. repeat split.
Qed.

End Lyapunov.

(** ** Properties of the code generation of the facade *)

Section CodeGeneration.
Import Jitcode.
Variable X : externals.

(** What Python raises for ["set_" + name] when [name] is a dictionary. *)
Definition str_plus_dict : exn :=
  TypeError "cannot concatenate 'str' and 'dict' objects".

(** A code writer that is handed a dictionary for its [name] raises at its
    first statement, before it opens a file. *)
Lemma render_and_write_code_dict_name (expressions : list printable)
  (helpers : arg (list Helper) bound_method) (tmpfile : arg bound_method str)
  (d user_functions : dict) (chunk_size : Z) (arguments : list (str * str))
  (s : Self.instance * world) :
  Helpers.render_and_write_code X expressions helpers tmpfile (Passed d)
    user_functions chunk_size arguments s
  = (Raised str_plus_dict, s).
Proof.
  destruct helpers as [?|[]], tmpfile as [[]|?]; reflexivity.
Qed.

(** [generate_f_C] passes its arguments one place too early: the dictionary
    of user functions arrives as [name]. It raises whatever it is given and
    changes nothing. *)
Lemma generate_f_C_raises (simplify do_cse : bool) (chunk_size : Z)
  (s : Self.instance * world) :
  generate_f_C X simplify do_cse chunk_size s = (Raised str_plus_dict, s).
Proof.
  unfold generate_f_C, bind, get_self. cbn [fst snd].
  destruct do_cse.
  - destruct (fst (sympy_cse X "get_f_helper" _)) as [|h more].
    + unfold ret at 1. now rewrite render_and_write_code_dict_name.
    + now rewrite render_and_write_code_dict_name.
  - unfold ret at 1. now rewrite render_and_write_code_dict_name.
Qed.

Lemma _generate_f_C_raises (s : Self.instance * world) :
  Self._f_C_source (fst s) = false ->
  _generate_f_C X s = (Raised str_plus_dict, s).
Proof.
  intros H. unfold _generate_f_C, bind, get_self. cbn [fst snd].
  rewrite H. cbn [negb]. now rewrite generate_f_C_raises.
Qed.

Lemma compile_C_raises (fuel : nat) (modulename : option str)
  (s : Self.instance * world) :
  Self._f_C_source (fst s) = false ->
  compile_C X fuel modulename s = (Raised str_plus_dict, s).
Proof.
  intros H. unfold compile_C. unfold bind at 1.
  now rewrite _generate_f_C_raises.
Qed.

(** The instance as [generate_jac_C] leaves it: the symbolic Jacobian is
    there and [sparse_jac] is set. *)
Definition after_generate_jac_C (sparse : bool) (self : Self.instance)
  : Self.instance :=
  Self.assign_sparse_jac (Some sparse)
    (match self.(Self.jac_sym) with
     | Some _ => self
     | None =>
         Self.assign_jac_sym
           (Some (_jac_from_f_with_helpers X self.(Self.f_sym)
                    self.(Self.helpers) true self.(Self.n)))
           self
     end).

(** C6. [generate_jac_C] raises a [TypeError] for every instance, with or
    without the sparsity policy: it hands the dictionary of user functions to
    the code writer as [name]. No file is written, so no [set_dfdy]
    statement is emitted (neither 3 nor 9 for a diagonal Jacobian of
    dimension 3), and [_jac_C_source] stays as it was. *)
Theorem generate_jac_C_raises (do_cse : bool) (chunk_size : Z) (sparse : bool)
  (self : Self.instance) (w : world) :
  generate_jac_C X do_cse chunk_size sparse (self, w)
  = (Raised str_plus_dict, (after_generate_jac_C sparse self, w))
  /\ Self._jac_C_source (after_generate_jac_C sparse self)
     = Self._jac_C_source self.
Proof.
  split.
  - unfold generate_jac_C, after_generate_jac_C, _generate_jac_sym,
      generate_jac_sym, bind, get_self, modify_self, ret. cbn [fst snd].
    destruct (Self.jac_sym self) as [jac_sym|] eqn:E;
      cbn [fst snd Self.jac_sym Self.assign_jac_sym];
      rewrite ?E; destruct do_cse;
      try (destruct (fst (sympy_cse X "get_jac_helper" _)) as [|h more]);
      now rewrite render_and_write_code_dict_name.
  - unfold after_generate_jac_C. now destruct (Self.jac_sym self).
Qed.

(** What the code writer would have been handed: for a Jacobian of
    dimension 3 whose entries are zero exactly off the diagonal, three
    assignments under the sparsity policy and nine without it. *)
Lemma jac_assignments_diagonal (jac_sym_wc : list (list expr)) :
  length jac_sym_wc = 3 ->
  Forall (fun row => length row = 3) jac_sym_wc ->
  (forall i j, i < 3 -> j < 3 ->
     truthy (nth j (nth i jac_sym_wc []) (Num 0)) = (i =? j)) ->
  map indices (jac_assignments jac_sym_wc true) = [[0; 0]; [1; 1]; [2; 2]]
  /\ length (jac_assignments jac_sym_wc false) = 9.
Proof.
  intros Hlen Hrows Hdiag.
  destruct jac_sym_wc as [|r0 [|r1 [|r2 [|]]]]; try discriminate.
  inversion Hrows as [|? ? H0 Hrows1]; subst.
  inversion Hrows1 as [|? ? H1 Hrows2]; subst.
  inversion Hrows2 as [|? ? H2 _]; subst.
  destruct r0 as [|a0 [|a1 [|a2 [|]]]]; try discriminate.
  destruct r1 as [|b0 [|b1 [|b2 [|]]]]; try discriminate.
  destruct r2 as [|c0 [|c1 [|c2 [|]]]]; try discriminate.
  pose proof (Hdiag 0 0) as D00. pose proof (Hdiag 0 1) as D01.
  pose proof (Hdiag 0 2) as D02. pose proof (Hdiag 1 0) as D10.
  pose proof (Hdiag 1 1) as D11. pose proof (Hdiag 1 2) as D12.
  pose proof (Hdiag 2 0) as D20. pose proof (Hdiag 2 1) as D21.
  pose proof (Hdiag 2 2) as D22.
  simpl in D00, D01, D02, D10, D11, D12, D20, D21, D22.
  unfold jac_assignments, Helpers.enumerate. simpl.
  rewrite D00, D01, D02, D10, D11, D12, D20, D21, D22 by lia.
  simpl. split; reflexivity.
Qed.

(** C7. On an instance as the constructor leaves it, [compile_C] with a
    module name raises a [TypeError] from the generation of the code for
    [f], the first time and the second, and leaves everything as it was:
    the name is never entered into [sys.modules], and the check of the name
    is never reached. *)
Theorem compile_C_twice (fuel : nat) (modulename : str) (f_sym : f_input)
  (helpers : list Helper) (wants_jacobian : bool) (n : option nat)
  (verbose : bool) (self : Self.instance) (w : world) :
  __init__ f_sym helpers wants_jacobian n verbose = Ok self ->
  let first := compile_C X fuel (Some modulename) (self, w) in
  let second := compile_C X fuel (Some modulename) (snd first) in
  first = (Raised str_plus_dict, (self, w))
  /\ second = (Raised str_plus_dict, (self, w)).
Proof.
  intros Hinit.
  assert (H : Self._f_C_source self = false).
  { unfold __init__ in Hinit.
    destruct (_handle_input f_sym n) as [[f_sym' n']|e]; [|discriminate].
    destruct (_sort_helpers (_sympify_helpers helpers)) as [sorted|e];
      [|discriminate].
    now injection Hinit as <-. }
  cbv zeta. rewrite !compile_C_raises by exact H. split; reflexivity.
Qed.

(** The check of the name itself: once the code has been generated, a
    module name that is in [sys.modules] is refused. *)
Lemma compile_C_used_name (fuel : nat) (modulename : str) (self : Self.instance)
  (w : world) :
  Self._f_C_source self = true ->
  Self._wants_jacobian self = false ->
  Self.helpers self = [] ->
  modulename <> [] ->
  existsb (str_eqb modulename) w.(modules) = true ->
  compile_C X fuel (Some modulename) (self, w)
  = (Raised (NameError "Module name has already been used in this instance of Python."),
     (self, w)).
Proof.
  intros Hf Hj Hh Hne Hin.
  unfold compile_C, choose_modulename, _generate_f_C, _generate_jac_C,
    _generate_helpers_C, bind, get_self, get_world, ret. cbn [fst snd].
  rewrite Hf. cbn [negb fst snd]. rewrite Hj. cbn [andb fst snd].
  rewrite Hh. cbn [fst snd].
  destruct modulename as [|c modulename]; [contradiction|].
  now rewrite Hin.
Qed.

End CodeGeneration.

Lemma compile_C_twice_witness :
  exists self,
    Jitcode.__init__ (Jitcode.Sequence [y 1; mul (Num (-1)) (y 0)]) [] false
      None true = Ok self
    /\ Jitcode.compile_C plain_externals 1 (Some (lit "oscillator"))
         (self, {| files := []; modules := [] |})
       = (Raised str_plus_dict, (self, {| files := []; modules := [] |})).
Proof.
  eexists. split; [reflexivity|].
  exact (proj1 (compile_C_twice plain_externals 1 (lit "oscillator")
                  (Jitcode.Sequence [y 1; mul (Num (-1)) (y 0)]) [] false None
                  true _ {| files := []; modules := [] |} eq_refl)).
Defined.

(** ** Properties of the integrator facade *)

Section Integrator.
Import Jitcode.
Variable X : externals.

(** A method that returns, writes no file, and leaves the state vector and
    the time of the instance as they were. *)
Definition keeps_state {A : Type} (c : M A) : Prop :=
  forall self w,
    exists a self',
      c (self, w) = (Return a, (self', w))
      /\ Self._y self' = Self._y self /\ Self.t self' = Self.t self.

Lemma keeps_ret {A : Type} (a : A) : keeps_state (ret a).
Proof. intros self w. exists a, self. repeat split. Qed.

Lemma keeps_get_self : keeps_state get_self.
Proof. intros self w. exists self, self. repeat split. Qed.

Lemma keeps_modify_self (g : Self.instance -> Self.instance) :
  (forall self, Self._y (g self) = Self._y self /\ Self.t (g self) = Self.t self) ->
  keeps_state (modify_self g).
Proof.
  intros H self w. exists tt, (g self). split; [reflexivity | apply H].
Qed.

Lemma keeps_bind {A B : Type} (c : M A) (k : A -> M B) :
  keeps_state c -> (forall a, keeps_state (k a)) -> keeps_state (bind c k).
Proof.
  intros Hc Hk self w. destruct (Hc self w) as (a & self1 & E1 & Hy1 & Ht1).
  destruct (Hk a self1 w) as (b & self2 & E2 & Hy2 & Ht2).
  exists b, self2. unfold bind. rewrite E1, E2. repeat split; congruence.
Qed.

Ltac keeps_state :=
  repeat first
    [ apply keeps_ret
    | apply keeps_get_self
    | apply keeps_modify_self; intros; split; reflexivity
    | apply keeps_bind; [|intros]
    | match goal with
      | |- keeps_state (if ?b then _ else _) => destruct b
      | |- keeps_state (match ?x with _ => _ end) => destruct x
      end ].

(** The lambdified functions are always to be had. *)
Lemma generate_lambdas_keeps_state : keeps_state (generate_lambdas X).
Proof.
  unfold generate_lambdas, _generate_f_lambda, _generate_jac_lambda,
    generate_f_lambda, generate_jac_lambda, _generate_jac_sym,
    generate_jac_sym, report.
  keeps_state.
Qed.


(** [c] run on [s] ends, by returning or by raising, in a state with [Q]. *)
Definition ends {A : Type} (c : M A) (s : Self.instance * world)
  (Q : Self.instance * world -> Prop) : Prop :=
  fst (c s) <> OutOfFuel /\ Q (snd (c s)).

(** [c] run on [s] returns, in a state with [Q]. *)
Definition returns {A : Type} (c : M A) (s : Self.instance * world)
  (Q : Self.instance * world -> Prop) : Prop :=
  exists a s', c s = (Return a, s') /\ Q s'.

Lemma ends_bind {A B : Type} (c : M A) (k : A -> M B) s
  (Q R : Self.instance * world -> Prop) :
  ends c s Q -> (forall s', Q s' -> R s') ->
  (forall a s', Q s' -> ends (k a) s' R) ->
  ends (bind c k) s R.
Proof.
  unfold ends, bind. intros [Hc HQ] HQR Hk.
  destruct (c s) as [[a| e |] s']; cbn [fst snd] in *.
  - now apply Hk.
  - split; [discriminate | auto].
  - contradiction.
Qed.

Lemma returns_try_except {A : Type} (c handler : M A) s
  (Q R : Self.instance * world -> Prop) :
  ends c s Q -> (forall s', Q s' -> R s') ->
  (forall s', Q s' -> returns handler s' R) ->
  returns (try_except c handler) s R.
Proof.
  unfold ends, returns, try_except. intros [Hc HQ] HQR Hh.
  destruct (c s) as [[a| e |] s']; cbn [fst snd] in *.
  - eauto.
  - now apply Hh.
  - contradiction.
Qed.

(** *** What the generation of functions leaves alone

    [P] is a property of the state vector, the time and the loaded modules;
    a method preserves it when it ends and [P] holds afterwards as before. *)
Section Frame.
Variable P : list R -> option R -> list str -> Prop.

Definition settled (s : Self.instance * world) : Prop :=
  P (Self._y (fst s)) (Self.t (fst s)) (modules (snd s)).

Definition preserves {A : Type} (c : M A) : Prop :=
  forall s, settled s -> ends c s settled.

Lemma preserves_ret {A : Type} (a : A) : preserves (ret a).
Proof. intros s H. split; [discriminate | exact H]. Qed.

Lemma preserves_raise {A : Type} (e : exn) : preserves (@raise A e).
Proof. intros s H. split; [discriminate | exact H]. Qed.

Lemma preserves_get_self : preserves get_self.
Proof. intros s H. split; [discriminate | exact H]. Qed.

Lemma preserves_get_world : preserves get_world.
Proof. intros s H. split; [discriminate | exact H]. Qed.

Lemma preserves_modify_self (g : Self.instance -> Self.instance) :
  (forall self, Self._y (g self) = Self._y self
                /\ Self.t (g self) = Self.t self) ->
  preserves (modify_self g).
Proof.
  intros Hg [self w] H. split; [discriminate|].
  unfold settled in *. cbn [fst snd modify_self] in *.
  destruct (Hg self) as [-> ->]. exact H.
Qed.

Lemma preserves_modify_world (g : world -> world) :
  (forall w, modules (g w) = modules w) -> preserves (modify_world g).
Proof.
  intros Hg [self w] H. split; [discriminate|].
  unfold settled in *. cbn [fst snd modify_world] in *.
  now rewrite Hg.
Qed.

Lemma preserves_bind {A B : Type} (c : M A) (k : A -> M B) :
  preserves c -> (forall a, preserves (k a)) -> preserves (bind c k).
Proof.
  intros Hc Hk s H. apply ends_bind with (Q := settled); auto.
Qed.

Ltac preserves_with known :=
  repeat first
    [ known
    | apply preserves_ret
    | apply preserves_raise
    | apply preserves_get_self
    | apply preserves_get_world
    | apply preserves_modify_self; intros; split; reflexivity
    | apply preserves_modify_world; intros; reflexivity
    | apply preserves_bind; [|intros]
    | match goal with
      | |- preserves (if ?b then _ else _) => destruct b
      | |- preserves (match ?x with _ => _ end) => destruct x
      end ].

Ltac preserves := preserves_with fail.

Lemma _tmpfile_preserves (filename : option str) :
  preserves (Helpers._tmpfile X filename).
Proof. unfold Helpers._tmpfile. preserves. Qed.

Lemma with_main_and_definitions_preserves (name : str)
  (body : file -> file -> outcome unit * (file * file)) :
  (forall mainfile deffile, fst (body mainfile deffile) <> OutOfFuel) ->
  preserves (Helpers.with_main_and_definitions X name body).
Proof.
  intros Hbody. unfold Helpers.with_main_and_definitions.
  apply preserves_bind; [apply _tmpfile_preserves | intros mainpath].
  apply preserves_bind; [apply _tmpfile_preserves | intros defpath].
  intros [self w] H. unfold ends.
  specialize (Hbody [] []).
  destruct (body [] []) as [r [mainfile deffile]]. cbn [fst snd] in *.
  split; [exact Hbody | exact H].
Qed.

Lemma render_and_write_code_old_preserves (expressions : list printable)
  (helpers : arg (list Helper) bound_method) (tmpfile : arg bound_method str)
  (name : arg str dict) (user_functions : dict) (chunk_size : Z)
  (arguments : list (str * str)) :
  preserves
    (Helpers.render_and_write_code_old X expressions helpers tmpfile name
       user_functions chunk_size arguments).
Proof.
  unfold Helpers.render_and_write_code_old, Helpers.render_declarations.
  destruct helpers as [helpers|[]], name as [name|d], tmpfile as [[]|?];
    try apply preserves_raise.
  apply preserves_bind; [apply _tmpfile_preserves | intros filename].
  apply preserves_bind; [preserves | intros _].
  apply with_main_and_definitions_preserves. intros mainfile deffile.
  apply write_helpers_and_code_ends.
Qed.

Lemma render_and_write_code_preserves (expressions : list printable)
  (helpers : arg (list Helper) bound_method) (tmpfile : arg bound_method str)
  (name : arg str dict) (user_functions : dict) (chunk_size : Z)
  (arguments : list (str * str)) :
  preserves
    (Helpers.render_and_write_code X expressions helpers tmpfile name
       user_functions chunk_size arguments).
Proof.
  unfold Helpers.render_and_write_code.
  destruct name as [name|d], helpers as [helpers|[]], tmpfile as [[]|?];
    try apply preserves_raise.
  apply preserves_bind; [apply _tmpfile_preserves | intros filename].
  apply preserves_bind; [preserves | intros _].
  apply with_main_and_definitions_preserves. intros mainfile deffile.
  destruct helpers; apply write_helpers_and_code_ends.
Qed.

Lemma _generate_f_C_preserves : preserves (_generate_f_C X).
Proof.
  unfold _generate_f_C, generate_f_C, report.
  preserves_with ltac:(apply render_and_write_code_preserves).
Qed.

Lemma _generate_jac_C_preserves : preserves (_generate_jac_C X).
Proof.
  unfold _generate_jac_C, generate_jac_C, _generate_jac_sym, generate_jac_sym,
    report.
  preserves_with ltac:(apply render_and_write_code_preserves).
Qed.

Lemma _generate_helpers_C_preserves : preserves (_generate_helpers_C X).
Proof.
  unfold _generate_helpers_C, generate_helpers_C, report.
  preserves_with ltac:(apply render_and_write_code_old_preserves).
Qed.

Lemma generate_lambdas_preserves : preserves (generate_lambdas X).
Proof.
  unfold generate_lambdas, _generate_f_lambda, _generate_jac_lambda,
    generate_f_lambda, generate_jac_lambda, _generate_jac_sym,
    generate_jac_sym, report.
  preserves.
Qed.

(** The name of the module is settled within the fuel of one name more
    than there are modules. *)
Lemma choose_modulename_ends (fuel : nat) (modulename : option str) s :
  length (modules (snd s)) < fuel -> settled s ->
  ends (choose_modulename fuel modulename) s settled.
Proof.
  intros Hfuel H. unfold choose_modulename, ends, bind, get_world, get_self.
  cbn [fst snd].
  destruct (unused_modulename_found fuel (modules (snd s))
              (Self._modulename (fst s)) Hfuel) as (free & E).
  destruct modulename as [[|c modulename]|]; rewrite ?E;
    try destruct (existsb _ _); cbn [fst snd];
    (split; [discriminate | exact H]).
Qed.

(** Rendering, building and loading change the modules and nothing else
    of what [P] is about. *)
Lemma build_module_preserves :
  (forall y t m m', P y t m -> P y t m') -> preserves (build_module X).
Proof.
  intros Hm. unfold build_module, _tmpfile.
  preserves_with ltac:(apply _tmpfile_preserves).
  intros [self w] H. split; [discriminate|].
  unfold settled in *. cbn [fst snd modify_world] in *. eapply Hm, H.
Qed.

End Frame.

(** The state vector and the time are [y0] and [t0], and the modules [m0];
    or the first two only. *)
Definition held (y0 : list R) (t0 : option R) (m0 : list str)
  : Self.instance * world -> Prop :=
  settled (fun y t m => y = y0 /\ t = t0 /\ m = m0).

Definition kept (y0 : list R) (t0 : option R) : Self.instance * world -> Prop :=
  settled (fun y t _ => y = y0 /\ t = t0).

Lemma held_kept y0 t0 m0 s : held y0 t0 m0 s -> kept y0 t0 s.
Proof. unfold held, kept, settled. tauto. Qed.

(** [compile_C] ends within the fuel of one name more than there are
    modules, and leaves the state vector and the time as they were. *)
Lemma compile_C_ends (fuel : nat) (modulename : option str) s :
  length (modules (snd s)) < fuel ->
  ends (compile_C X fuel modulename) s
    (kept (Self._y (fst s)) (Self.t (fst s))).
Proof.
  intros Hfuel. set (y0 := Self._y (fst s)). set (t0 := Self.t (fst s)).
  set (m0 := modules (snd s)).
  assert (H : held y0 t0 m0 s) by (unfold held, settled; auto).
  unfold compile_C.
  apply ends_bind with (Q := held y0 t0 m0);
    [now apply _generate_f_C_preserves | apply (held_kept y0 t0 m0) | intros _ s1 H1].
  apply ends_bind with (Q := held y0 t0 m0);
    [now apply _generate_jac_C_preserves | apply (held_kept y0 t0 m0) | intros _ s2 H2].
  apply ends_bind with (Q := held y0 t0 m0);
    [now apply _generate_helpers_C_preserves | apply (held_kept y0 t0 m0) | intros _ s3 H3].
  apply ends_bind with (Q := held y0 t0 m0);
    [| apply (held_kept y0 t0 m0) | intros _ s4 H4].
  - apply choose_modulename_ends; [|exact H3].
    destruct H3 as (_ & _ & ->). exact Hfuel.
  - apply build_module_preserves; [tauto | now apply (held_kept y0 t0 m0)].
Qed.

Lemma generate_lambdas_returns s :
  returns (generate_lambdas X) s (kept (Self._y (fst s)) (Self.t (fst s))).
Proof.
  destruct s as [self w].
  destruct (generate_lambdas_keeps_state self w) as ([] & self' & E & Hy & Ht).
  exists tt, (self', w). split; [exact E|]. unfold kept, settled. auto.
Qed.

Lemma _generate_functions_returns (fuel : nat) s :
  length (modules (snd s)) < fuel ->
  returns (_generate_functions X fuel) s
    (kept (Self._y (fst s)) (Self.t (fst s))).
Proof.
  intros Hfuel.
  set (y0 := Self._y (fst s)). set (t0 := Self.t (fst s)).
  assert (H : kept y0 t0 s) by (unfold kept, settled; auto).
  assert (G : returns (generate_functions X fuel) s (kept y0 t0)).
  { unfold generate_functions.
    apply returns_try_except with (Q := kept y0 t0); [|auto|].
    - unfold _compile_C.
      apply ends_bind with (Q := fun s' => s' = s);
        [split; [discriminate | reflexivity] | now intros s' -> |].
      intros self s' ->.
      match goal with |- context [if ?b then _ else _] => destruct b end.
      + apply ends_bind with (Q := kept y0 t0);
          [now apply compile_C_ends | auto | intros _ s' H'].
        split; [discriminate | exact H'].
      + split; [discriminate | exact H].
    - intros s' (Hy & Ht). pose proof (generate_lambdas_returns s') as R.
      unfold kept, settled in *. cbn beta in *. now rewrite Hy, Ht in R. }
  unfold _generate_functions, bind, get_self.
  unfold returns in *. cbn [fst snd].
  destruct (Self.f (fst s)); [|exact G].
  match goal with |- context [if ?b then _ else _] => destruct b end;
    [exact G|].
  exists tt, s. split; [reflexivity | exact H].
Qed.

(** C8. On an instance whose time is set, [set_integrator] with a name
    other than [zvode] under which SciPy has an integrator returns (the fuel
    of one name more than there are modules is enough), and the time and
    the state vector are afterwards what they were: they are saved before
    the base class is initialised again and set again after it. *)
Theorem set_integrator_keeps_state (fuel : nat) (name : str)
  (integrator : integrator_class) (self : Self.instance) (w : world) (t0 : R) :
  str_eqb name (lit "zvode") = false ->
  X.(find_integrator) name = Some integrator ->
  Self.t self = Some t0 ->
  length (modules w) < fuel ->
  exists self' w',
    set_integrator X fuel name (self, w) = (Return tt, (self', w'))
    /\ Self._y self' = Self._y self
    /\ Self.t self' = Some t0.
Proof.
  intros Hname Hfind Ht Hfuel.
  destruct fuel as [|fuel]; [lia|].
  cbn [set_integrator]. rewrite Hname.
  unfold _can_use_jacobian. rewrite Hfind.
  unfold bind at 1. unfold ret at 1.
  unfold bind at 1. unfold modify_self at 1. cbn [fst snd].
  unfold bind at 1.
  destruct (_generate_functions_returns (S fuel)
              (Self.assign_wants_jacobian
                 (Self._wants_jacobian self || takes_with_jacobian integrator)
                 self, w) Hfuel)
    as ([] & [self1 w1] & E1 & Hy1 & Ht1).
  rewrite E1. cbn [fst snd Self._y Self.t Self.assign_wants_jacobian] in Hy1, Ht1.
  unfold bind at 1. unfold get_self at 1. cbn [fst snd].
  rewrite Ht1, Ht.
  unfold ode__init__, ode_set_integrator, ode_set_initial_value.
  rewrite Hfind.
  unfold bind, modify_self, get_self, ret. cbn.
  do 2 eexists. split; [reflexivity|]. split; [exact Hy1 | reflexivity].
Qed.

End Integrator.

Lemma set_integrator_keeps_state_witness :
  exists self self' w',
    Jitcode.__init__ (Jitcode.Sequence [y 1; mul (Num (-1)) (y 0)]) [] false
      None true = Ok self
    /\ Jitcode.set_integrator plain_externals 1 (lit "dopri5")
         (Self.assign_t (Some 2%R) (Self.assign_y [1%R; 0%R] self),
          {| files := []; modules := [] |})
       = (Return tt, (self', w'))
    /\ Self._y self' = [1%R; 0%R] /\ Self.t self' = Some 2%R.
Proof.
  eexists.
  destruct (set_integrator_keeps_state plain_externals 1 (lit "dopri5")
              {| takes_with_jacobian := true |}
              (Self.assign_t (Some 2%R)
                 (Self.assign_y [1%R; 0%R]
                    {| Self.f_sym := [y 1; mul (Num (-1)) (y 0)];
                       Self.n := 2;
                       Self.f := None;
                       Self._f_C_source := false;
                       Self.helpers := [];
                       Self._wants_jacobian := false;
                       Self.jac_sym := None;
                       Self.jac := None;
                       Self._jac_C_source := false;
                       Self._y := [];
                       Self._tmpdir := None;
                       Self._modulename := lit "jitced";
                       Self.verbose := true;
                       Self._number_of_jac_helpers := None;
                       Self._number_of_f_helpers := None;
                       Self.sparse_jac := None;
                       Self.t := None;
                       Self._integrator := None |}))
              {| files := []; modules := [] |} 2%R
              eq_refl eq_refl eq_refl (le_n 1))
    as (self' & w' & E & Hy & Ht).
  exists self', w'. split; [reflexivity|]. split; [exact E|]. split; assumption.
Defined.

(** ** Properties of the Gram-Schmidt routine *)

Section Orthonormalise.
Import Helpers.
Local Open Scope R_scope.

Lemma minus_scaled_length (v w : array) (c : R) :
  length v = length w -> length (minus_scaled v c w) = length v.
Proof.
  revert w. induction v as [|a v IH]; intros [|b w] H; simpl in *;
    try discriminate; auto.
Qed.

Lemma divided_by_length (v : array) (c : R) : length (divided_by v c) = length v.
Proof. apply length_map. Qed.

Lemma dot_comm (u v : array) : dot u v = dot v u.
Proof.
  revert v. induction u as [|a u IH]; intros [|b v]; simpl; auto.
  rewrite IH. ring.
Qed.

Lemma dot_minus_scaled (v w u : array) (c : R) :
  length v = length w ->
  dot (minus_scaled v c w) u = dot v u - c * dot w u.
Proof.
  revert w u. induction v as [|a v IH]; intros [|b w] [|x u] H; simpl in *;
    try discriminate; try ring.
  rewrite IH by congruence. ring.
Qed.

Lemma dot_divided_by (v u : array) (c : R) :
  dot (divided_by v c) u = dot v u / c.
Proof.
  revert u. induction v as [|a v IH]; intros [|x u]; simpl;
    try (unfold Rdiv; ring).
  unfold divided_by in IH. rewrite IH. unfold Rdiv. ring.
Qed.

Lemma dot_self_nonneg (v : array) : 0 <= dot v v.
Proof.
  induction v as [|a v IH]; simpl; [lra|]. nra.
Qed.

Lemma dot_self_zero (v : array) :
  dot v v = 0 -> v = repeat 0 (length v).
Proof.
  induction v as [|a v IH]; simpl; [reflexivity|].
  intros H. pose proof (dot_self_nonneg v).
  assert (a = 0) by nra. assert (dot v v = 0) by nra.
  subst a. now rewrite <- IH.
Qed.

Lemma norm_divided_by (v : array) :
  0 < dot v v -> dot (divided_by v (norm v)) (divided_by v (norm v)) = 1.
Proof.
  intros H. rewrite dot_divided_by, dot_comm, dot_divided_by.
  unfold norm. pose proof (sqrt_lt_R0 _ H) as Hs.
  pose proof (sqrt_sqrt (dot v v) (Rlt_le _ _ H)) as Hq.
  field_simplify; [|lra]. rewrite <- Hq at 1. field. lra.
Qed.

(** **** Lists that change at one index *)

Lemma put_length {A : Type} (i : nat) (x : A) (l : list A) :
  length (put i x l) = length l.
Proof.
  revert i. induction l as [|a l IH]; intros [|i]; simpl; auto.
Qed.

Lemma nth_put_same {A : Type} (i : nat) (x d : A) (l : list A) :
  (i < length l)%nat -> nth i (put i x l) d = x.
Proof.
  revert i. induction l as [|a l IH]; intros [|i] H; simpl in *; try lia; auto.
  apply IH. lia.
Qed.

Lemma nth_put_other {A : Type} (i j : nat) (x d : A) (l : list A) :
  i <> j -> nth j (put i x l) d = nth j l d.
Proof.
  revert i j. induction l as [|a l IH]; intros [|i] [|j] H; simpl; auto; try lia.
Qed.

(** **** The inner loop *)

Lemma orthogonalise_S (vectors : list array) (i : nat) (v : array) :
  orthogonalise vectors (S i) v =
  let r := orthogonalise vectors i v in
  minus_scaled r (dot r (nth i vectors [])) (nth i vectors []).
Proof.
  unfold orthogonalise. rewrite seq_S, fold_left_app. reflexivity.
Qed.

(** It reads the vectors before index [i] only. *)
Lemma orthogonalise_prefix (vectors vectors' : list array) (i : nat) (v : array) :
  (forall j, (j < i)%nat -> nth j vectors [] = nth j vectors' []) ->
  orthogonalise vectors i v = orthogonalise vectors' i v.
Proof.
  induction i as [|i IH]; intros H; [reflexivity|].
  rewrite !orthogonalise_S. cbv zeta.
  rewrite IH by (intros j Hj; apply H; lia).
  now rewrite H by lia.
Qed.

(** Against vectors that are orthonormal, it leaves a vector that is
    orthogonal to each of them. *)
Lemma orthogonalise_orthogonal (d : nat) (vectors : list array) (m : nat)
  (v : array) :
  length v = d ->
  (forall j, (j < m)%nat -> length (nth j vectors []) = d) ->
  (forall j k, (j < m)%nat -> (k < m)%nat ->
     dot (nth j vectors []) (nth k vectors []) = if (j =? k)%nat then 1 else 0) ->
  forall i, (i <= m)%nat ->
    length (orthogonalise vectors i v) = d
    /\ forall j, (j < i)%nat -> dot (orthogonalise vectors i v) (nth j vectors []) = 0.
Proof.
  intros Hv Hlen Horth. induction i as [|i IH]; intros Hi.
  - split; [exact Hv | intros j Hj; lia].
  - destruct (IH ltac:(lia)) as [L O]. rewrite orthogonalise_S. cbv zeta.
    split.
    + rewrite minus_scaled_length; [exact L|]. rewrite L, Hlen; [reflexivity|lia].
    + intros j Hj. rewrite dot_minus_scaled by (rewrite L, Hlen; [reflexivity|lia]).
      rewrite Horth by lia.
      destruct (Nat.eqb_spec i j) as [->|Hne].
      * ring.
      * rewrite O by lia. ring.
Qed.

(** **** Linear combinations *)

Lemma plus_length (u v : array) :
  length u = length v -> length (plus u v) = length u.
Proof.
  revert v. induction u as [|a u IH]; intros [|b v] H; simpl in *;
    try discriminate; auto.
Qed.

Lemma scaled_length (c : R) (v : array) : length (scaled c v) = length v.
Proof. induction v as [|a v IH]; simpl; auto. Qed.

Lemma combination_length (d start : nat) (c : nat -> R) (vectors : list array) :
  Forall (fun v => length v = d) vectors ->
  length (combination d start c vectors) = d.
Proof.
  intros H. revert start. induction H as [|v rest Hv _ IH]; intros start; simpl.
  - apply repeat_length.
  - rewrite plus_length; rewrite scaled_length; [exact Hv|]. now rewrite IH.
Qed.

Lemma combination_ext (d start : nat) (c c' : nat -> R) (vectors : list array) :
  (forall m, (start <= m < start + length vectors)%nat -> c m = c' m) ->
  combination d start c vectors = combination d start c' vectors.
Proof.
  revert start. induction vectors as [|v rest IH]; intros start H; simpl;
    [reflexivity|].
  rewrite (H start) by (simpl; lia). f_equal.
  apply IH. intros m Hm. apply H. simpl. lia.
Qed.

Lemma plus_scaled_0 (v x : array) :
  length v = length x -> plus (scaled 0 v) x = x.
Proof.
  revert x. induction v as [|a v IH]; intros [|b x] H; simpl in *;
    try discriminate; auto.
  rewrite IH by congruence. f_equal. ring.
Qed.

Lemma plus_scaled_1_zero (v : array) :
  plus (scaled 1 v) (repeat 0 (length v)) = v.
Proof.
  induction v as [|a v IH]; simpl; [reflexivity|].
  rewrite IH. f_equal. ring.
Qed.

Lemma combination_zero (d start : nat) (c : nat -> R) (vectors : list array) :
  Forall (fun v => length v = d) vectors ->
  (forall m, (start <= m)%nat -> c m = 0) ->
  combination d start c vectors = repeat 0 d.
Proof.
  intros H. revert start. induction H as [|v rest Hv _ IH]; intros start Hc;
    simpl; [reflexivity|].
  rewrite Hc by lia. rewrite IH by (intros m Hm; apply Hc; lia).
  apply plus_scaled_0. now rewrite repeat_length.
Qed.

(** The vector at index [i] is the combination with the coefficient one at
    [i] and zero elsewhere. *)
Lemma combination_unit (d : nat) (vectors : list array) :
  Forall (fun v => length v = d) vectors ->
  forall start i, (i < length vectors)%nat ->
  combination d start (fun m => if (m =? start + i)%nat then 1 else 0) vectors
  = nth i vectors [].
Proof.
  induction 1 as [|v rest Hv Hrest IH]; intros start i Hi; simpl in *; [lia|].
  destruct i as [|i].
  - rewrite Nat.add_0_r, Nat.eqb_refl.
    rewrite combination_zero; [|exact Hrest|].
    + rewrite <- Hv. apply plus_scaled_1_zero.
    + intros m Hm. destruct (Nat.eqb_spec m start); [lia | reflexivity].
  - destruct (Nat.eqb_spec start (start + S i)); [lia|].
    rewrite plus_scaled_0.
    + rewrite <- (IH (S start) i) by lia.
      apply combination_ext. intros m _.
      now replace (start + S i)%nat with (S start + i)%nat by lia.
    + now rewrite combination_length.
Qed.

Lemma minus_scaled_plus (v x y : array) (a b c : R) :
  length v = length x -> length v = length y ->
  minus_scaled (plus (scaled a v) x) c (plus (scaled b v) y)
  = plus (scaled (a - c * b) v) (minus_scaled x c y).
Proof.
  revert x y. induction v as [|e v IH]; intros [|e1 x] [|e2 y] Hx Hy;
    simpl in *; try discriminate; auto.
  rewrite IH by congruence. f_equal. ring.
Qed.

Lemma minus_scaled_zero (d : nat) (c : R) :
  minus_scaled (repeat 0 d) c (repeat 0 d) = repeat 0 d.
Proof.
  induction d as [|d IH]; simpl; [reflexivity|]. rewrite IH. f_equal. ring.
Qed.

Lemma combination_minus_scaled (d start : nat) (a b : nat -> R) (c : R)
  (vectors : list array) :
  Forall (fun v => length v = d) vectors ->
  minus_scaled (combination d start a vectors) c (combination d start b vectors)
  = combination d start (fun m => a m - c * b m) vectors.
Proof.
  intros H. revert start. induction H as [|v rest Hv Hrest IH]; intros start;
    simpl.
  - apply minus_scaled_zero.
  - rewrite minus_scaled_plus by (now rewrite combination_length).
    now rewrite IH.
Qed.

Lemma divided_by_cons (e : R) (v : array) (n : R) :
  divided_by (e :: v) n = e / n :: divided_by v n.
Proof. reflexivity. Qed.

Lemma divided_by_plus (v x : array) (a n : R) :
  length v = length x ->
  divided_by (plus (scaled a v) x) n = plus (scaled (a / n) v) (divided_by x n).
Proof.
  revert x. induction v as [|e v IH]; intros [|e1 x] Hx; simpl in Hx;
    try discriminate; auto.
  cbn [plus scaled]. rewrite !divided_by_cons. cbn [plus].
  rewrite IH by congruence. f_equal. unfold Rdiv. ring.
Qed.

Lemma divided_by_zero (d : nat) (n : R) :
  divided_by (repeat 0 d) n = repeat 0 d.
Proof.
  induction d as [|d IH]; [reflexivity|].
  cbn [repeat]. rewrite divided_by_cons, IH. f_equal. unfold Rdiv. ring.
Qed.

Lemma combination_divided_by (d start : nat) (a : nat -> R) (n : R)
  (vectors : list array) :
  Forall (fun v => length v = d) vectors ->
  divided_by (combination d start a vectors) n
  = combination d start (fun m => a m / n) vectors.
Proof.
  intros H. revert start. induction H as [|v rest Hv Hrest IH]; intros start;
    simpl.
  - apply divided_by_zero.
  - rewrite divided_by_plus by (now rewrite combination_length).
    now rewrite IH.
Qed.

(** The inner loop turns the vector at index [i] into a combination of the
    given vectors in which it keeps the coefficient one, when the vectors
    before it are combinations of the given vectors up to their own index. *)
Lemma orthogonalise_combination (d : nat) (given vectors : list array) (i : nat) :
  Forall (fun v => length v = d) given ->
  (i < length given)%nat ->
  (forall j, (j < i)%nat ->
     exists b, (forall k, (j < k)%nat -> b k = 0)
               /\ nth j vectors [] = combination d 0 b given) ->
  forall m, (m <= i)%nat ->
  exists a, a i = 1 /\ (forall k, (i < k)%nat -> a k = 0)
            /\ orthogonalise vectors m (nth i given []) = combination d 0 a given.
Proof.
  intros Hgiven Hi Hprev. induction m as [|m IH]; intros Hm.
  - exists (fun k => if (k =? 0 + i)%nat then 1 else 0). repeat split.
    + now rewrite Nat.eqb_refl.
    + intros k Hk. destruct (Nat.eqb_spec k (0 + i)); [lia | reflexivity].
    + symmetry. now apply combination_unit.
  - destruct (IH ltac:(lia)) as (a & Ha1 & Ha0 & Ea).
    destruct (Hprev m ltac:(lia)) as (b & Hb0 & Eb).
    rewrite orthogonalise_S. cbv zeta. rewrite Ea, Eb.
    set (c := dot _ _).
    exists (fun k => a k - c * b k). repeat split.
    + rewrite Ha1, Hb0 by lia. ring.
    + intros k Hk. rewrite Ha0, Hb0 by lia. ring.
    + now apply combination_minus_scaled.
Qed.

(** **** The outer loop *)

Section Passes.
Variable d : nat.
Variable given : list array.
Hypothesis given_length : Forall (fun v => length v = d) given.
Hypothesis given_independent : linearly_independent d given.

(** What holds after the passes for the indices below [i]: the vectors
    before [i] are orthonormal combinations of the given ones, the others
    are still as given, and the norms recorded are those of the vectors as
    the inner loop left them. *)
Definition after_passes (i : nat) (state : list array * list R) : Prop :=
  let vectors := fst state in
  let norms := snd state in
  length vectors = length given
  /\ (forall j, (j < length given)%nat -> length (nth j vectors []) = d)
  /\ (forall k, (i <= k)%nat -> nth k vectors [] = nth k given [])
  /\ (forall j k, (j < i)%nat -> (k < i)%nat ->
        dot (nth j vectors []) (nth k vectors [])
        = if (j =? k)%nat then 1 else 0)
  /\ (forall j, (j < i)%nat ->
        exists b, (forall k, (j < k)%nat -> b k = 0)
                  /\ nth j vectors [] = combination d 0 b given)
  /\ length norms = i
  /\ (forall j, (j < i)%nat ->
        let r := orthogonalise vectors j (nth j given []) in
        nth j norms 0 = norm r
        /\ 0 < norm r
        /\ nth j vectors [] = divided_by r (norm r)
        /\ forall m, (m < j)%nat -> dot r (nth m vectors []) = 0).

Lemma after_passes_0 : after_passes 0 (given, []).
Proof.
  unfold after_passes. cbn [fst snd]. repeat split; try (intros; lia).
  intros j Hj. pose proof (proj1 (Forall_forall _ _) given_length) as H.
  apply H. now apply nth_In.
Qed.

Lemma after_passes_S (i : nat) (state : list array * list R) :
  (i < length given)%nat ->
  after_passes i state -> after_passes (S i) (orthonormalise_pass state i).
Proof.
  intros Hi. destruct state as [vectors norms]. unfold after_passes.
  cbn [fst snd].
  intros (Hlen & Hd & Hrest & Horth & Hspan & Hn & Hnorms).
  unfold orthonormalise_pass.
  rewrite (Hrest i (le_n i)).
  set (r := orthogonalise vectors i (nth i given [])).
  assert (Hvi : length (nth i given []) = d).
  { rewrite <- (Hrest i (le_n i)). now apply Hd. }
  destruct (orthogonalise_orthogonal d vectors i (nth i given []) Hvi
              (fun j Hj => Hd j ltac:(lia)) Horth i (le_n i)) as [Lr Or].
  fold r in Lr, Or.
  destruct (orthogonalise_combination d given vectors i given_length Hi Hspan
              i (le_n i)) as (a & Ha1 & Ha0 & Ea).
  fold r in Ea.
  assert (Hpos : 0 < dot r r).
  { destruct (dot_self_nonneg r) as [H|H]; [exact H|]. exfalso.
    symmetry in H. apply dot_self_zero in H. rewrite Lr in H.
    rewrite H in Ea. symmetry in Ea.
    pose proof (given_independent a Ea i Hi). lra. }
  assert (Hnorm : 0 < norm r) by (apply sqrt_lt_R0; exact Hpos).
  set (q := divided_by r (norm r)).
  assert (Hqq : dot q q = 1) by (apply norm_divided_by; exact Hpos).
  assert (Hq0 : forall j, (j < i)%nat -> dot q (nth j vectors []) = 0).
  { intros j Hj. unfold q. rewrite dot_divided_by, Or by exact Hj.
    unfold Rdiv. ring. }
  assert (Hi' : (i < length vectors)%nat) by lia.
  cbn [fst snd]. repeat split.
  - now rewrite put_length.
  - intros j Hj. destruct (Nat.eq_dec i j) as [<-|Hne].
    + rewrite nth_put_same by exact Hi'. unfold q.
      now rewrite divided_by_length.
    + rewrite nth_put_other by exact Hne. now apply Hd.
  - intros k Hk. rewrite nth_put_other by lia. apply Hrest. lia.
  - intros j k Hj Hk.
    destruct (Nat.eq_dec i j) as [<-|Hnej], (Nat.eq_dec i k) as [<-|Hnek].
    + rewrite !nth_put_same by exact Hi'. now rewrite Nat.eqb_refl.
    + rewrite nth_put_same by exact Hi'. rewrite nth_put_other by exact Hnek.
      destruct (Nat.eqb_spec i k); [lia|]. apply Hq0. lia.
    + rewrite nth_put_same by exact Hi'. rewrite nth_put_other by exact Hnej.
      destruct (Nat.eqb_spec j i); [lia|]. rewrite dot_comm. apply Hq0. lia.
    + rewrite !nth_put_other by assumption. apply Horth; lia.
  - intros j Hj. destruct (Nat.eq_dec i j) as [<-|Hne].
    + rewrite nth_put_same by exact Hi'.
      exists (fun k => a k / norm r). split.
      * intros k Hk. rewrite Ha0 by exact Hk. unfold Rdiv. ring.
      * unfold q. rewrite Ea. now apply combination_divided_by.
    + rewrite nth_put_other by exact Hne. apply Hspan. lia.
  - rewrite length_app, Hn. simpl. lia.
  - destruct (Nat.eq_dec i j) as [<-|Hne].
    + rewrite (orthogonalise_prefix (put i q vectors) vectors)
        by (intros m Hm; apply nth_put_other; lia).
      fold r. rewrite app_nth2 by lia.
      rewrite Hn, Nat.sub_diag. reflexivity.
    + rewrite (orthogonalise_prefix (put i q vectors) vectors)
        by (intros m Hm; apply nth_put_other; lia).
      rewrite app_nth1 by lia. apply Hnorms. lia.
  - destruct (Nat.eq_dec i j) as [<-|Hne].
    + rewrite (orthogonalise_prefix (put i q vectors) vectors)
        by (intros m Hm; apply nth_put_other; lia).
      exact Hnorm.
    + rewrite (orthogonalise_prefix (put i q vectors) vectors)
        by (intros m Hm; apply nth_put_other; lia).
      apply Hnorms. lia.
  - destruct (Nat.eq_dec i j) as [<-|Hne].
    + rewrite (orthogonalise_prefix (put i q vectors) vectors)
        by (intros m Hm; apply nth_put_other; lia).
      now rewrite nth_put_same by exact Hi'.
    + rewrite (orthogonalise_prefix (put i q vectors) vectors)
        by (intros m Hm; apply nth_put_other; lia).
      rewrite nth_put_other by exact Hne. apply Hnorms. lia.
  - intros m Hm.
    rewrite (orthogonalise_prefix (put i q vectors) vectors)
      by (intros m' Hm'; apply nth_put_other; lia).
    rewrite nth_put_other by lia.
    destruct (Nat.eq_dec i j) as [<-|Hne].
    + apply Or. exact Hm.
    + apply Hnorms; lia.
Qed.

Lemma after_all_passes (i : nat) :
  (i <= length given)%nat ->
  after_passes i (fold_left orthonormalise_pass (seq 0 i) (given, [])).
Proof.
  induction i as [|i IH]; intros Hi.
  - apply after_passes_0.
  - rewrite seq_S, fold_left_app. apply after_passes_S; [lia|].
    apply IH. lia.
Qed.

End Passes.

(** C9. Over the real numbers, [orthonormalise] turns linearly independent
    vectors of one length into vectors that are pairwise orthogonal and of
    norm one, and the norm that it returns for the vector at index [i] is the
    norm (not zero) that the vector had when the inner loop had made it
    orthogonal to the vectors before it, just before it was divided by that
    norm. *)
Theorem orthonormalise_orthonormal (d : nat) (vectors : list array) :
  Forall (fun v => length v = d) vectors ->
  linearly_independent d vectors ->
  let vectors' := fst (orthonormalise vectors) in
  let norms := snd (orthonormalise vectors) in
  length vectors' = length vectors
  /\ (forall i j, (i < length vectors)%nat -> (j < length vectors)%nat ->
        i <> j -> dot (nth i vectors' []) (nth j vectors' []) = 0)
  /\ (forall i, (i < length vectors)%nat -> norm (nth i vectors' []) = 1)
  /\ length norms = length vectors
  /\ (forall i, (i < length vectors)%nat ->
        let r := orthogonalise vectors' i (nth i vectors []) in
        nth i norms 0 = norm r
        /\ 0 < norm r
        /\ nth i vectors' [] = divided_by r (norm r)
        /\ forall j, (j < i)%nat -> dot r (nth j vectors' []) = 0).
Proof.
  intros Hlen Hind vectors' norms.
  destruct (after_all_passes d vectors Hlen Hind (length vectors) (le_n _))
    as (H1 & _ & _ & H4 & _ & H6 & H7).
  fold (orthonormalise vectors) in H1, H4, H6, H7.
  fold vectors' in H1, H4, H7. fold norms in H6, H7.
  repeat split.
  - exact H1.
  - intros i j Hi Hj Hne. rewrite H4 by assumption.
    destruct (Nat.eqb_spec i j); [contradiction | reflexivity].
  - intros i Hi. unfold norm. rewrite H4 by assumption.
    rewrite Nat.eqb_refl. apply sqrt_1.
  - exact H6.
  - apply H7. assumption.
  - apply H7. assumption.
  - apply H7. assumption.
  - apply H7. assumption.
Qed.

End Orthonormalise.

(** Two vectors in space that do not lie on one line. *)
Definition two_in_space : list Helpers.array :=
  [[1; 0; 0]; [1; 1; 0]]%R.

Lemma two_in_space_independent : linearly_independent 3 two_in_space.
Proof.
  intros c H k Hk. simpl in H. injection H as H0 H1 _.
  destruct k as [|[|k]]; [lra | lra | simpl in Hk; lia].
Qed.

Lemma orthonormalise_orthonormal_witness :
  Helpers.dot (nth 0 (fst (Helpers.orthonormalise two_in_space)) [])
    (nth 1 (fst (Helpers.orthonormalise two_in_space)) []) = 0%R
  /\ Helpers.norm (nth 0 (fst (Helpers.orthonormalise two_in_space)) []) = 1%R
  /\ Helpers.norm (nth 1 (fst (Helpers.orthonormalise two_in_space)) []) = 1%R.
Proof.
  destruct (orthonormalise_orthonormal 3 two_in_space
              ltac:(repeat constructor) two_in_space_independent)
    as (_ & Horth & Hnorm & _).
  split; [apply Horth; simpl; lia|].
  split; apply Hnorm; simpl; lia.
Defined.

(** ** Properties of the string manipulation *)

Section Suffixes.
Import Helpers.

Lemma startswith_iff (code prefix : str) :
  startswith code prefix = true <-> firstn (length prefix) code = prefix.
Proof. unfold startswith. apply str_eqb_eq. Qed.

Lemma startswith_length (code prefix : str) :
  startswith code prefix = true -> length prefix <= length code.
Proof.
  intros H. apply startswith_iff in H. apply (f_equal (@length _)) in H.
  rewrite length_firstn in H. lia.
Qed.

Lemma endswith_iff (s suffix : str) :
  endswith s suffix = true <-> exists head, s = head ++ suffix.
Proof.
  unfold endswith. rewrite andb_true_iff, Nat.leb_le, str_eqb_eq. split.
  - intros [_ H]. exists (firstn (length s - length suffix) s).
    rewrite <- (firstn_skipn (length s - length suffix) s) at 1. now rewrite H.
  - intros [head ->]. rewrite length_app. split; [lia|].
    replace (length head + length suffix - length suffix) with (length head)
      by lia.
    now rewrite skipn_app, skipn_all, Nat.sub_diag.
Qed.

Lemma rfind_some (s sep : str) (start i : nat) :
  rfind s sep start = Some i ->
  i <= start /\ startswith (skipn i s) sep = true
  /\ forall k, i < k <= start -> startswith (skipn k s) sep = false.
Proof.
  induction start as [|start IH]; cbn [rfind].
  - destruct (startswith (skipn 0 s) sep) eqn:E; [|discriminate].
    intros [= <-]. repeat split; [lia | exact E | intros k Hk; lia].
  - destruct (startswith (skipn (S start) s) sep) eqn:E.
    + intros [= <-]. repeat split; [lia | exact E | intros k Hk; lia].
    + intros H. destruct (IH H) as (Hi & Hs & Hlast). repeat split; auto.
      intros k Hk. destruct (Nat.eq_dec k (S start)) as [->|Hne]; [exact E|].
      apply Hlast. lia.
Qed.

Lemma rfind_none (s sep : str) (start : nat) :
  rfind s sep start = None ->
  forall k, k <= start -> startswith (skipn k s) sep = false.
Proof.
  induction start as [|start IH]; cbn [rfind].
  - destruct (startswith (skipn 0 s) sep) eqn:E; [discriminate|].
    intros _ k Hk. now replace k with 0 by lia.
  - destruct (startswith (skipn (S start) s) sep) eqn:E; [discriminate|].
    intros H k Hk. destruct (Nat.eq_dec k (S start)) as [->|Hne]; [exact E|].
    apply IH; [exact H | lia].
Qed.

(** A string that ends in [suffix] has it at the last place where it can
    be. *)
Lemma endswith_startswith (s suffix : str) :
  endswith s suffix = true ->
  startswith (skipn (length s - length suffix) s) suffix = true.
Proof.
  intros H. apply endswith_iff in H as [head ->]. rewrite length_app.
  replace (length head + length suffix - length suffix) with (length head)
    by lia.
  rewrite skipn_app, skipn_all, Nat.sub_diag. simpl.
  apply startswith_iff. apply firstn_all.
Qed.

Lemma remove_suffix_endswith (s : str) (c : ascii) (suffix : str) :
  remove_suffix s (c :: suffix) =
  Ok (if endswith s (c :: suffix)
      then firstn (length s - length (c :: suffix)) s else s).
Proof.
  set (suf := c :: suffix). unfold remove_suffix, rpartition. fold suf.
  change (match suf with
          | [] => Raise (ValueError "empty separator")
          | _ :: _ =>
              match rfind s suf (length s - length suf) with
              | Some i => Ok (firstn i s, suf, skipn (i + length suf) s)
              | None => Ok ([], [], s)
              end
          end)
    with (match rfind s suf (length s - length suf) with
          | Some i => Ok (firstn i s, suf, skipn (i + length suf) s)
          | None => Ok ([], [], s)
          end).
  destruct (rfind s suf (length s - length suf)) as [i|] eqn:E.
  - apply rfind_some in E as (Hi & Hs & Hlast).
    destruct (endswith s suf) eqn:Ee.
    + pose proof (endswith_startswith _ _ Ee) as Hend.
      assert (i = length s - length suf) as ->.
      { destruct (Nat.eq_dec i (length s - length suf)) as [|Hne]; [assumption|].
        rewrite Hlast in Hend by lia. discriminate. }
      apply endswith_iff in Ee as [head Eh].
      assert (L : length suf <= length s) by (rewrite Eh, length_app; lia).
      replace (length s - length suf + length suf) with (length s) by lia.
      now rewrite skipn_all.
    + destruct (skipn (i + length suf) s) as [|x tail] eqn:Et; [|reflexivity].
      exfalso.
      pose proof (startswith_length _ _ Hs) as L. rewrite length_skipn in L.
      apply (f_equal (@length _)) in Et. rewrite length_skipn in Et.
      change (length (@nil ascii)) with 0 in Et.
      apply startswith_iff in Hs.
      assert (Ei : skipn i s = suf).
      { rewrite <- Hs. symmetry. apply firstn_all2. rewrite length_skipn. lia. }
      assert (Ee' : endswith s suf = true).
      { apply endswith_iff. exists (firstn i s). rewrite <- Ei.
        symmetry. apply firstn_skipn. }
      congruence.
  - destruct (endswith s suf) eqn:Ee; [|reflexivity].
    pose proof (endswith_startswith _ _ Ee) as Hend.
    rewrite (rfind_none _ _ _ E) in Hend by lia. discriminate.
Qed.

(** X1. [remove_suffix] takes [suffix] off a string that ends in it and
    returns every other string as it is; the last place where [suffix] is
    found decides, so that only one copy is taken off. An empty suffix is
    refused with the [ValueError] of [rpartition]. *)
Theorem remove_suffix_spec (s suffix : str) :
  remove_suffix s suffix =
  match suffix with
  | [] => Raise (ValueError "empty separator")
  | _ :: _ =>
      Ok (if endswith s suffix
          then firstn (length s - length suffix) s else s)
  end.
Proof.
  destruct suffix as [|c suffix]; [reflexivity|].
  apply remove_suffix_endswith.
Qed.

(** X2. [ensure_suffix] returns a string that ends in [suffix] and that it
    would return as it is; [remove_suffix] takes off again a suffix that is
    put behind a string, and after [ensure_suffix] it gives what it gives
    for the string itself. *)
Theorem ensure_suffix_remove_suffix (s suffix : str) :
  suffix <> [] ->
  endswith (ensure_suffix s suffix) suffix = true
  /\ ensure_suffix (ensure_suffix s suffix) suffix = ensure_suffix s suffix
  /\ remove_suffix (s ++ suffix) suffix = Ok s
  /\ remove_suffix (ensure_suffix s suffix) suffix = remove_suffix s suffix.
Proof.
  intros Hne. destruct suffix as [|c suffix]; [contradiction|].
  assert (Happ : endswith (s ++ c :: suffix) (c :: suffix) = true)
    by (apply endswith_iff; eauto).
  assert (Hrem : remove_suffix (s ++ c :: suffix) (c :: suffix) = Ok s).
  { rewrite remove_suffix_endswith, Happ. f_equal.
    rewrite length_app, Nat.add_sub. rewrite firstn_app, Nat.sub_diag.
    simpl. now rewrite firstn_all, app_nil_r. }
  assert (Hends : endswith (ensure_suffix s (c :: suffix)) (c :: suffix) = true).
  { unfold ensure_suffix. destruct (endswith s (c :: suffix)) eqn:E; simpl;
      [exact E | exact Happ]. }
  repeat split.
  - exact Hends.
  - unfold ensure_suffix at 1. now rewrite Hends.
  - exact Hrem.
  - unfold ensure_suffix. destruct (endswith s (c :: suffix)) eqn:E; simpl;
      [reflexivity|].
    rewrite Hrem. now rewrite remove_suffix_endswith, E.
Qed.

End Suffixes.

Lemma ensure_suffix_remove_suffix_witness :
  Helpers.ensure_suffix (lit "jitced") (lit ".so") = lit "jitced.so"
  /\ Helpers.remove_suffix (lit "jitced" ++ lit ".so") (lit ".so")
     = Ok (lit "jitced").
Proof.
  split; [reflexivity|].
  exact (proj1 (proj2 (proj2 (ensure_suffix_remove_suffix (lit "jitced")
                                (lit ".so") ltac:(discriminate))))).
Defined.

(** ** Further properties of the name counter *)

Section NameCounterAgain.
Import Helpers.


End NameCounterAgain.

(** ** Further properties of the chunked writer *)

(** What the loop writes for the sub-routines with the bodies [bodies]: the
    first one under the name [funcname], the others under the names counted
    up from it. *)
Fixpoint chunk_calls (funcname : str) (arguments : list (str * str))
  (count : nat) : list str :=
  match count with
  | O => []
  | S count' =>
      chunk_call funcname arguments
      ++ chunk_calls (Helpers.count_up funcname) arguments count'
  end.

Fixpoint chunk_definitions (funcname : str) (arguments : list (str * str))
  (bodies : list (list str)) : list str :=
  match bodies with
  | [] => []
  | body :: rest =>
      chunk_definition funcname arguments body
      ++ chunk_definitions (Helpers.count_up funcname) arguments rest
  end.

Section ChunksAgain.
Import Helpers.

Lemma div_step (l c : nat) : 0 < c -> c <= l -> l / c = S ((l - c) / c).
Proof.
  intros Hc Hl. replace l with (1 * c + (l - c)) at 1 by lia.
  rewrite Nat.div_add_l by lia. lia.
Qed.

Lemma mod_step (l c : nat) : c <= l -> l mod c = (l - c) mod c.
Proof.
  intros Hl. replace l with ((l - c) + 1 * c) at 1 by lia.
  apply Nat.Div0.mod_add.
Qed.

Lemma chunk_loop_chunks (chunk_size : Z) (arguments : list (str * str))
  (n : nat) :
  0 < Z.to_nat chunk_size ->
  forall lines fuel mainfile deffile funcname,
    length lines <= n ->
    length lines / Z.to_nat chunk_size < fuel ->
    exists bodies,
      chunk_loop fuel (generator_of lines) mainfile deffile funcname chunk_size
        arguments
      = (Return tt,
         (mainfile ++ chunk_calls funcname arguments (length bodies),
          deffile ++ chunk_definitions funcname arguments bodies))
      /\ concat bodies = lines
      /\ length bodies = length lines / Z.to_nat chunk_size + 1
      /\ Forall (fun body => length body = Z.to_nat chunk_size)
           (removelast bodies)
      /\ length (last bodies []) = length lines mod Z.to_nat chunk_size.
Proof.
  intros Hc. set (c := Z.to_nat chunk_size) in *.
  induction n as [|n IH]; intros lines fuel mainfile deffile funcname Hn Hfuel;
    (destruct fuel as [|fuel]; [lia|]).
  - destruct lines; [|simpl in Hn; lia].
    exists [[]]. rewrite chunk_loop_last by (simpl; fold c; lia).
    simpl. rewrite !app_nil_r, Nat.Div0.div_0_l, Nat.Div0.mod_0_l.
    repeat split. constructor.
  - destruct (Nat.lt_ge_cases (length lines) c) as [Hshort|Hlong].
    + exists [lines]. rewrite chunk_loop_last by exact Hshort.
      simpl. rewrite !app_nil_r, Nat.div_small, Nat.mod_small by exact Hshort.
      repeat split. constructor.
    + unfold generator_of. rewrite chunk_loop_full by exact Hlong. fold c.
      pose proof (div_step (length lines) c Hc Hlong) as Hdiv.
      destruct (IH (skipn c lines) fuel
                  (mainfile ++ chunk_call funcname arguments)
                  (deffile ++ chunk_definition funcname arguments
                                (firstn c lines))
                  (count_up funcname))
        as (bodies & E & Hcat & Hlen & Hfull & Hlast).
      * rewrite length_skipn. lia.
      * rewrite length_skipn. lia.
      * exists (firstn c lines :: bodies).
        unfold generator_of in E. rewrite E. rewrite length_skipn in Hlen, Hlast.
        cbn [chunk_calls chunk_definitions length concat].
        rewrite <- !app_assoc, Hcat, firstn_skipn.
        repeat split.
        -- lia.
        -- destruct bodies as [|b bodies]; [simpl in Hlen; lia|].
           cbn [removelast]. constructor; [|exact Hfull].
           rewrite length_firstn. lia.
        -- destruct bodies as [|b bodies]; [simpl in Hlen; lia|].
           cbn [last]. rewrite mod_step by exact Hlong. exact Hlast.
Qed.

(** X4. With a chunk size of one or more, [write_in_chunks] writes up to
    [chunk_size] lines into the main file and leaves the definitions file
    alone. More lines go into sub-routines, [chunk_size] lines in each but
    the last, which takes what is left: nothing, when the number of lines is
    a multiple of [chunk_size], and the empty sub-routine is written and
    called all the same. The lines keep their order, and none is lost. *)
Theorem write_in_chunks_chunks (fuel : nat) (lines : list str)
  (mainfile deffile : file) (name : str) (chunk_size : Z)
  (arguments : list (str * str)) :
  (1 <= chunk_size)%Z ->
  length lines / Z.to_nat chunk_size < fuel ->
  (length lines <= Z.to_nat chunk_size ->
   write_in_chunks fuel (generator_of lines) mainfile deffile name chunk_size
     arguments
   = (Return tt, (mainfile ++ lines, deffile)))
  /\ (Z.to_nat chunk_size < length lines ->
      exists bodies,
        write_in_chunks fuel (generator_of lines) mainfile deffile name
          chunk_size arguments
        = (Return tt,
           (mainfile
              ++ chunk_calls (lit "definitions_" ++ name) arguments
                   (length bodies),
            deffile
              ++ chunk_definitions (lit "definitions_" ++ name) arguments
                   bodies))
        /\ concat bodies = lines
        /\ length bodies = length lines / Z.to_nat chunk_size + 1
        /\ Forall (fun body => length body = Z.to_nat chunk_size)
             (removelast bodies)
        /\ length (last bodies []) = length lines mod Z.to_nat chunk_size).
Proof.
  intros Hsize Hfuel.
  assert (Hc : 0 < Z.to_nat chunk_size) by lia.
  assert (E1 : Z.to_nat (chunk_size + 1) = S (Z.to_nat chunk_size)) by lia.
  unfold write_in_chunks. rewrite E1. split.
  - intros Hshort. rewrite take_lines_short by lia. cbv beta iota.
    now rewrite fold_left_write.
  - intros Hlong. unfold generator_of at 1.
    rewrite take_lines_enough by lia. cbv beta iota.
    unfold chain. cbn [pending failure]. rewrite app_nil_l, firstn_skipn.
    fold (generator_of lines).
    exact (chunk_loop_chunks chunk_size arguments (length lines) Hc lines fuel
             mainfile deffile _ (le_n _) Hfuel).
Qed.

Lemma chunk_loop_no_progress (chunk_size : Z) (arguments : list (str * str))
  (fuel : nat) :
  Z.to_nat chunk_size = 0 ->
  forall lines mainfile deffile funcname,
    fst (chunk_loop fuel lines mainfile deffile funcname chunk_size arguments)
    = OutOfFuel.
Proof.
  intros Hc. induction fuel as [|fuel IH]; intros lines mainfile deffile funcname;
    [reflexivity|].
  cbn [chunk_loop]. rewrite Hc. cbn [write_lines].
  destruct arguments; apply IH.
Qed.

(** X5. With a chunk size below one, [write_in_chunks] does not come back
    once it has entered its loop, which it does when the chunk size is
    negative or the generator has a line: a pass over an empty range takes
    no line, so that the end of the generator is never met. (Both code
    writers keep such chunk sizes away from it.) *)
Theorem write_in_chunks_never_ends (fuel : nat) (lines : generator)
  (mainfile deffile : file) (name : str) (chunk_size : Z)
  (arguments : list (str * str)) :
  (chunk_size < 1)%Z ->
  (chunk_size < 0)%Z \/ lines.(pending) <> [] ->
  fst (write_in_chunks fuel lines mainfile deffile name chunk_size arguments)
  = OutOfFuel.
Proof.
  intros Hsize Hloop.
  assert (Hc : Z.to_nat chunk_size = 0) by lia.
  unfold write_in_chunks.
  destruct (Z.to_nat (chunk_size + 1)) as [|[|k]] eqn:E1; [| |lia].
  - cbn [take_lines]. now apply chunk_loop_no_progress.
  - destruct Hloop as [Hneg|Hline]; [lia|].
    cbn [take_lines]. unfold next.
    destruct (pending lines) as [|line rest]; [contradiction|].
    now apply chunk_loop_no_progress.
Qed.

End ChunksAgain.

Lemma write_in_chunks_chunks_witness :
  exists bodies calls definitions,
    Helpers.write_in_chunks 3 (Helpers.generator_of (repeat (lit "x;") 200))
      [] [] (lit "f") 100 []
    = (Return tt, (calls, definitions))
    /\ concat bodies = repeat (lit "x;") 200
    /\ length bodies = 3
    /\ length (last bodies []) = 0.
Proof.
  destruct (proj2 (write_in_chunks_chunks 3 (repeat (lit "x;") 200) [] []
                     (lit "f") 100 [] ltac:(lia)
                     ltac:(vm_compute; lia))
              ltac:(vm_compute; lia))
    as (bodies & E & Hcat & Hlen & _ & Hlast).
  exists bodies. do 2 eexists.
  split; [exact E|]. split; [exact Hcat|]. split; [exact Hlen | exact Hlast].
Defined.

Lemma write_in_chunks_never_ends_witness :
  fst (Helpers.write_in_chunks 1000 (Helpers.generator_of [lit "x;"]) [] []
         (lit "f") 0 [])
  = OutOfFuel.
Proof.
  apply write_in_chunks_never_ends; [lia | right; discriminate].
Defined.

(** ** How the code writers end *)

Section WritersEnd.
Import Helpers.

Lemma take_lines_failure (k : nat) :
  forall (lines lines' : generator) (acc acc' : list str) (ending : loop_end),
    take_lines k lines acc = (acc', lines', ending) ->
    failure lines' = failure lines
    /\ match ending with
       | Completed => True
       | Stopped => failure lines = None
       | Failed e => failure lines = Some e
       end.
Proof.
  induction k as [|k IH]; intros lines lines' acc acc' ending; simpl.
  - intros [= _ <- <-]. auto.
  - unfold next. destruct lines as [[|line rest] e]; simpl.
    + destruct e; intros [= _ <- <-]; auto.
    + intros H. now apply IH in H.
Qed.

Lemma write_lines_failure (k : nat) :
  forall (lines lines' : generator) (f f' : file) (ending : loop_end),
    write_lines k lines f = (f', lines', ending) ->
    failure lines' = failure lines
    /\ match ending with
       | Completed => True
       | Stopped => failure lines = None
       | Failed e => failure lines = Some e
       end.
Proof.
  induction k as [|k IH]; intros lines lines' f f' ending; simpl.
  - intros [= _ <- <-]. auto.
  - unfold next. destruct lines as [[|line rest] e]; simpl.
    + destruct e; intros [= _ <- <-]; auto.
    + intros H. now apply IH in H.
Qed.

(** How a generator ends, as an outcome. *)
Definition ending_of (lines : generator) : outcome unit :=
  match failure lines with
  | None => Return tt
  | Some e => Raised e
  end.

Lemma chunk_loop_outcome (fuel : nat) :
  forall (lines : generator) (mainfile deffile : file) (funcname : str)
         (chunk_size : Z) (arguments : list (str * str)),
  (1 <= chunk_size)%Z -> length lines.(pending) < fuel ->
  fst (chunk_loop fuel lines mainfile deffile funcname chunk_size arguments)
  = ending_of lines.
Proof.
  induction fuel as [|fuel IH]; intros lines mainfile deffile funcname
    chunk_size arguments Hsize Hfuel; [lia|].
  cbn [chunk_loop]. unfold ending_of.
  destruct arguments as [|a arguments];
    match goal with
    | |- context [write_lines ?k ?l ?f] =>
        destruct (write_lines k l f) as [[deffile' lines'] ending] eqn:E
    end;
    pose proof (write_lines_failure _ _ _ _ _ _ E) as [Hf He];
    destruct ending; cbn [fst]; rewrite ?He; try reflexivity;
    apply write_lines_completed in E; rewrite IH by (try assumption; lia);
    unfold ending_of; now rewrite Hf.
Qed.

Lemma write_in_chunks_outcome (lines : generator) (mainfile deffile : file)
  (name : str) (chunk_size : Z) (arguments : list (str * str)) :
  (1 <= chunk_size)%Z ->
  fst (write_in_chunks (S (length lines.(pending))) lines mainfile deffile name
         chunk_size arguments)
  = ending_of lines.
Proof.
  intros Hsize. unfold write_in_chunks.
  destruct (take_lines (Z.to_nat (chunk_size + 1)) lines [])
    as [[first_chunk lines'] ending] eqn:E.
  pose proof (take_lines_failure _ _ _ _ _ _ E) as [Hf He].
  unfold ending_of.
  destruct ending; cbn [fst]; rewrite ?He; try reflexivity.
  apply take_lines_completed in E. simpl in E.
  rewrite chunk_loop_outcome;
    [| exact Hsize | unfold chain; cbn [pending]; rewrite length_app; lia].
  unfold ending_of, chain. cbn [failure]. now rewrite Hf.
Qed.

(** Both code writers end as the lines of the helpers end, and after them
    the lines of the code, whatever the chunk size. *)
Lemma write_helpers_and_code_outcome (helperlines codelines : generator)
  (mainfile deffile : file) (helpers_name code_name : str) (chunk_size : Z)
  (arguments : list (str * str)) :
  fst (write_helpers_and_code helperlines codelines mainfile deffile
         helpers_name code_name chunk_size arguments)
  = match failure helperlines with
    | Some e => Raised e
    | None => ending_of codelines
    end.
Proof.
  unfold write_helpers_and_code.
  destruct (chunk_size <? 1)%Z eqn:E.
  - unfold write_all, ending_of. cbn [fst failure].
    now destruct (failure helperlines).
  - apply Z.ltb_ge in E.
    pose proof (write_in_chunks_outcome helperlines mainfile deffile
                  helpers_name chunk_size (tl arguments) E) as H1.
    unfold ending_of in H1.
    destruct (write_in_chunks _ helperlines _ _ _ _ _) as [[[]| e |] [m d]];
      cbn [fst] in H1; destruct (failure helperlines); try discriminate.
    + now apply write_in_chunks_outcome.
    + exact H1.
Qed.

Section Checked.
Variable X : externals.

(** What [check_code] raises. *)
Definition not_converted : exn :=
  Exception "The above expression could not be converted to C Code.".

Lemma checked_lines_failure {A : Type} (code : A -> str) (ending : str)
  (items : list A) :
  failure
    (generator_from
       (map (fun item =>
               match check_code (code item) with
               | Ok code => Ok (code ++ ending)
               | Raise e => Raise e
               end)
          items))
  = if existsb (fun item => startswith (code item) (lit "// Not")) items
    then Some not_converted else None.
Proof.
  induction items as [|item items IH]; [reflexivity|].
  cbn [map existsb]. unfold check_code at 1.
  destruct (startswith (code item) (lit "// Not")); [reflexivity|].
  cbn [orb generator_from failure]. exact IH.
Qed.

Lemma isfile_write_file (path : str) (content : file) (w : world) :
  isfile path (write_file path content w) = true.
Proof.
  unfold isfile, write_file. cbn [files existsb fst].
  now rewrite (proj2 (str_eqb_eq path path) eq_refl).
Qed.

Lemma isfile_write_file_other (path other : str) (content : file) (w : world) :
  isfile path w = true -> isfile path (write_file other content w) = true.
Proof.
  unfold isfile, write_file. cbn [files existsb fst]. intros H.
  destruct (str_eqb other path) eqn:E; [reflexivity|]. cbn [orb].
  apply existsb_exists in H as (entry & Hin & Hp).
  apply existsb_exists. exists entry. split; [|exact Hp].
  apply filter_In. split; [exact Hin|].
  apply str_eqb_eq in Hp. rewrite Hp.
  destruct (str_eqb path other) eqn:E'; [|reflexivity].
  apply str_eqb_eq in E'. subst other.
  now rewrite (proj2 (str_eqb_eq path path) eq_refl) in E.
Qed.

(** X6. [generate_helpers_C] raises the exception of [check_code] exactly
    when the C code of one of the helpers begins with the printer's mark of
    what it could not convert, and returns otherwise, for every chunk size.
    Either way the temporary directory is settled and holds the three files
    of the helpers afterwards, and nothing else of the instance has
    changed. *)
Theorem generate_helpers_C_outcome (chunk_size : Z) (self : Self.instance)
  (w : world) :
  let code (helper : Helper) :=
    X.(ccode) (PExpr (snd helper)) (Some (Symbol (fst helper)))
      [("y", "y")]%string in
  let tmpdir :=
    match Self._tmpdir self with
    | Some tmpdir => tmpdir
    | None => X.(mkdtemp)
    end in
  let result := Jitcode.generate_helpers_C X chunk_size (self, w) in
  fst result
  = (if existsb (fun helper => startswith (code helper) (lit "// Not"))
          (Self.helpers self)
     then Raised not_converted else Return tt)
  /\ fst (snd result) = Self.assign_tmpdir (Some tmpdir) self
  /\ Forall (fun filename =>
               isfile (path_join tmpdir filename) (snd (snd result)) = true)
       [lit "declare_general_helpers.c"; lit "general.c";
        lit "general_definitions.c"]
  /\ modules (snd (snd result)) = modules w.
Proof.
  cbv zeta.
  unfold Jitcode.generate_helpers_C, render_and_write_code_old,
    render_declarations, with_main_and_definitions, _tmpfile.
  unfold bind, get_self, modify_self, modify_world, ret. cbn [fst snd].
  pose proof (write_helpers_and_code_outcome
    (generator_from
       (map (fun helper : Helper =>
               match check_code
                       (X.(ccode) (PExpr (snd helper))
                          (Some (Symbol (fst helper))) [("y", "y")]%string) with
               | Ok code => Ok (code ++ nl)
               | Raise e => Raise e
               end)
          (Self.helpers self)))
    (generator_from []) [] []
    (lit "general" ++ lit "helpers") (lit "general" ++ lit "code")
    chunk_size []) as Hout.
  rewrite (checked_lines_failure
             (fun helper : Helper =>
                X.(ccode) (PExpr (snd helper)) (Some (Symbol (fst helper)))
                  [("y", "y")]%string) nl) in Hout.
  cbn [map] in *.
  destruct (write_helpers_and_code _ _ _ _ _ _ _ _) as [r [mainfile deffile]].
  cbn [fst] in Hout.
  destruct (Self._tmpdir self) as [tmpdir|] eqn:Et;
    repeat (progress (rewrite ?Et;
                      cbn [fst snd Self._tmpdir Self.assign_tmpdir])).
  - split.
    + rewrite Hout.
      now destruct (existsb _ (Self.helpers self)).
    + split; [destruct self; cbn in *; now subst|].
      split; [|reflexivity].
      repeat constructor.
      * do 2 apply isfile_write_file_other. apply isfile_write_file.
      * apply isfile_write_file_other. apply isfile_write_file.
      * apply isfile_write_file.
  - split.
    + rewrite Hout.
      now destruct (existsb _ (Self.helpers self)).
    + split; [reflexivity|].
      split; [|reflexivity].
      repeat constructor.
      * do 2 apply isfile_write_file_other. apply isfile_write_file.
      * apply isfile_write_file_other. apply isfile_write_file.
      * apply isfile_write_file.
Qed.

End Checked.

End WritersEnd.

(** ** Further properties of the numerical tools *)

Section NumericalTools.
Import Helpers.
Local Open Scope R_scope.

Lemma filter_length_all {A : Type} (f : A -> bool) (l : list A) :
  length (filter f l) = length l <-> forallb f l = true.
Proof.
  induction l as [|a l IH]; simpl; [tauto|].
  pose proof (filter_length_le f l) as Hle.
  destruct (f a); simpl.
  - rewrite <- IH. split; [intros [= H]; exact H | intros ->; reflexivity].
  - split; [intros H; lia | discriminate].
Qed.

Lemma filter_length_none {A : Type} (f : A -> bool) (l : list A) :
  length (filter f l) = 0%nat <-> forallb (fun a => negb (f a)) l = true.
Proof.
  induction l as [|a l IH]; simpl; [tauto|].
  destruct (f a); simpl; [split; discriminate | exact IH].
Qed.

(** X7. The ratio that [non_zero_ratio] returns lies between zero and one;
    it is one exactly when no entry is zero, and zero exactly when every
    entry is. A matrix without entries has no ratio: the division by its
    size fails. *)
Theorem non_zero_ratio_bounds (A : list expr) :
  match non_zero_ratio A with
  | None => A = []
  | Some ratio =>
      A <> []
      /\ 0 <= ratio <= 1
      /\ (ratio = 1 <-> forallb truthy A = true)
      /\ (ratio = 0 <-> forallb (fun x => negb (truthy x)) A = true)
  end.
Proof.
  destruct A as [|a A]; [reflexivity|].
  unfold non_zero_ratio.
  set (l := a :: A). set (c := length (filter truthy l)).
  assert (Hn : 0 < INR (length l)) by (apply lt_0_INR; unfold l; simpl; lia).
  assert (Hc : 0 <= INR c <= INR (length l)).
  { split; [apply pos_INR | apply le_INR, filter_length_le]. }
  set (ratio := INR c / INR (length l)).
  assert (Hr : ratio * INR (length l) = INR c) by (unfold ratio; field; lra).
  split; [discriminate|]. split; [nra|]. split.
  - rewrite <- filter_length_all. fold c. split.
    + intros H. apply INR_eq. nra.
    + intros H. rewrite H in Hr. nra.
  - rewrite <- filter_length_none. fold c. split.
    + intros H. apply INR_eq. change (INR 0) with 0. nra.
    + intros H. rewrite H in Hr. change (INR 0) with 0 in Hr.
      apply Rmult_integral in Hr as [Hr|Hr]; [exact Hr | lra].
Qed.

(** *** Vectors that are orthonormal already *)

Lemma minus_scaled_0 (v w : array) :
  length v = length w -> minus_scaled v 0 w = v.
Proof.
  revert w. induction v as [|a v IH]; intros [|b w] H; simpl in *;
    try discriminate; auto.
  rewrite IH by congruence. f_equal. ring.
Qed.

Lemma divided_by_1 (v : array) : divided_by v 1 = v.
Proof.
  induction v as [|a v IH]; [reflexivity|].
  rewrite divided_by_cons, IH. f_equal. field.
Qed.

Lemma put_nth {A : Type} (i : nat) (d : A) (l : list A) :
  put i (nth i l d) l = l.
Proof.
  revert i. induction l as [|a l IH]; intros [|i]; simpl; auto.
  now rewrite IH.
Qed.

Section Orthonormal.
Variable d : nat.
Variable vectors : list array.
Hypothesis vectors_length : Forall (fun v => length v = d) vectors.
Hypothesis vectors_orthonormal :
  forall j k, (j < length vectors)%nat -> (k < length vectors)%nat ->
    dot (nth j vectors []) (nth k vectors []) = if (j =? k)%nat then 1 else 0.

Lemma nth_vector_length (i : nat) :
  (i < length vectors)%nat -> length (nth i vectors []) = d.
Proof.
  intros Hi. apply (proj1 (Forall_forall _ _) vectors_length). now apply nth_In.
Qed.

Lemma orthogonalise_orthonormal_input (i : nat) :
  (i < length vectors)%nat ->
  forall m, (m <= i)%nat ->
    orthogonalise vectors m (nth i vectors []) = nth i vectors [].
Proof.
  intros Hi. induction m as [|m IH]; intros Hm; [reflexivity|].
  rewrite orthogonalise_S. cbv zeta. rewrite IH by lia.
  rewrite vectors_orthonormal by lia.
  destruct (Nat.eqb_spec i m); [lia|].
  apply minus_scaled_0. rewrite !nth_vector_length by lia. reflexivity.
Qed.

Lemma orthonormalise_passes_orthonormal_input (i : nat) :
  (i <= length vectors)%nat ->
  fold_left orthonormalise_pass (seq 0 i) (vectors, []) = (vectors, repeat 1 i).
Proof.
  induction i as [|i IH]; intros Hi; [reflexivity|].
  rewrite seq_S, fold_left_app, IH by lia. cbn [fold_left Nat.add].
  unfold orthonormalise_pass.
  rewrite orthogonalise_orthonormal_input by lia.
  unfold norm. rewrite vectors_orthonormal, Nat.eqb_refl, sqrt_1 by lia.
  rewrite divided_by_1, put_nth. f_equal.
  rewrite <- repeat_cons. reflexivity.
Qed.

End Orthonormal.

(** X8. Vectors that are pairwise orthogonal and of norm one are left as
    they are by [orthonormalise], and each of the norms returned is one. *)
Theorem orthonormalise_orthonormal_input (d : nat) (vectors : list array) :
  Forall (fun v => length v = d) vectors ->
  (forall j k, (j < length vectors)%nat -> (k < length vectors)%nat ->
     dot (nth j vectors []) (nth k vectors [])
     = if (j =? k)%nat then 1 else 0) ->
  orthonormalise vectors = (vectors, repeat 1 (length vectors)).
Proof.
  intros Hlen Horth. unfold orthonormalise.
  now apply (orthonormalise_passes_orthonormal_input d).
Qed.

(** *** The norms *)

Lemma dot_minus_scaled_self (r w : array) :
  length r = length w -> dot w w = 1 ->
  dot (minus_scaled r (dot r w) w) (minus_scaled r (dot r w) w)
  = dot r r - dot r w * dot r w.
Proof.
  intros Hlen Hw.
  rewrite dot_minus_scaled by exact Hlen.
  rewrite (dot_comm r (minus_scaled _ _ _)), (dot_comm w (minus_scaled _ _ _)).
  rewrite !dot_minus_scaled by exact Hlen.
  rewrite Hw, (dot_comm w r). ring.
Qed.

(** The inner loop does not make a vector longer. *)
Lemma orthogonalise_shrinks (d : nat) (vectors : list array) (m : nat)
  (v : array) :
  length v = d ->
  (forall j, (j < m)%nat -> length (nth j vectors []) = d) ->
  (forall j k, (j < m)%nat -> (k < m)%nat ->
     dot (nth j vectors []) (nth k vectors []) = if (j =? k)%nat then 1 else 0) ->
  forall i, (i <= m)%nat ->
    dot (orthogonalise vectors i v) (orthogonalise vectors i v) <= dot v v.
Proof.
  intros Hv Hlen Horth. induction i as [|i IH]; intros Hi; [apply Rle_refl|].
  assert (Hi' : (i <= m)%nat) by lia.
  destruct (orthogonalise_orthogonal d vectors m v Hv Hlen Horth i Hi')
    as [L _].
  rewrite orthogonalise_S. cbv zeta.
  rewrite dot_minus_scaled_self.
  - specialize (IH Hi').
    pose proof (Rle_0_sqr (dot (orthogonalise vectors i v) (nth i vectors []))) as S.
    unfold Rsqr in S. lra.
  - rewrite L, Hlen; [reflexivity | lia].
  - rewrite Horth by lia. now rewrite Nat.eqb_refl.
Qed.

(** X9. For linearly independent vectors, each norm that [orthonormalise]
    returns is positive and at most the norm that the vector of its index
    had when it was handed in; the first one is the norm of the first
    vector. *)
Theorem orthonormalise_norms_bounded (d : nat) (vectors : list array) :
  Forall (fun v => length v = d) vectors ->
  linearly_independent d vectors ->
  forall i, (i < length vectors)%nat ->
    0 < nth i (snd (orthonormalise vectors)) 0 <= norm (nth i vectors [])
    /\ (i = 0%nat ->
        nth i (snd (orthonormalise vectors)) 0 = norm (nth i vectors [])).
Proof.
  intros Hlen Hind i Hi.
  destruct (after_all_passes d vectors Hlen Hind (length vectors) (le_n _))
    as (_ & Hd & _ & Horth & _ & _ & Hnorms).
  fold (orthonormalise vectors) in Hd, Horth, Hnorms.
  destruct (Hnorms i Hi) as (E & Hpos & _). cbv zeta in E, Hpos.
  rewrite E. split; [split; [exact Hpos|] | intros ->; reflexivity].
  unfold norm. apply sqrt_le_1_alt.
  apply (orthogonalise_shrinks d _ (length vectors)).
  - apply (proj1 (Forall_forall _ _) Hlen). now apply nth_In.
  - exact Hd.
  - exact Horth.
  - lia.
Qed.

End NumericalTools.

(** The first two axes of space. *)
Definition two_axes : list Helpers.array :=
  [[1; 0; 0]; [0; 1; 0]]%R.

Lemma orthonormalise_orthonormal_input_witness :
  Helpers.orthonormalise two_axes = (two_axes, [1; 1]%R).
Proof.
  apply (orthonormalise_orthonormal_input 3 two_axes).
  - repeat constructor.
  - intros [|[|j]] [|[|k]] Hj Hk; simpl in Hj, Hk; try lia; simpl; lra.
Defined.

Lemma orthonormalise_norms_bounded_witness :
  (0 < nth 1 (snd (Helpers.orthonormalise two_in_space)) 0
   <= Helpers.norm (nth 1 two_in_space []))%R.
Proof.
  apply (orthonormalise_norms_bounded 3 two_in_space
           ltac:(repeat constructor) two_in_space_independent 1%nat).
  simpl. lia.
Defined.

(** ** Further properties of the helper sorter *)

Section SortHelpersAgain.
Import Jitcode.

Lemma _sort_helpers_permutation (n : nat) :
  forall l sorted, length l <= n ->
    _sort_helpers l = Ok sorted -> Permutation l sorted.
Proof.
  induction n as [|n IH]; intros l sorted Hn; rewrite _sort_helpers_eq.
  - destruct l; [|simpl in Hn; lia]. now intros [= <-].
  - destruct (1 <? length l); [|now intros [= <-]].
    destruct (pop_independent l [] l) as [[first others]|] eqn:E; [|discriminate].
    apply pop_independent_some in E as [P _]. simpl in P.
    destruct (_sort_helpers others) as [sorted'|e] eqn:E'; [|discriminate].
    intros [= <-]. rewrite P. constructor. apply IH; [|exact E'].
    apply Permutation_length in P. simpl in P. lia.
Qed.

Lemma depends_on_any_permutation (h : Helper) (l l' : list Helper) :
  Permutation l l' -> depends_on_any h l = depends_on_any h l'.
Proof.
  intros P. destruct (depends_on_any h l') eqn:E.
  - apply depends_on_any_true in E as (x & Hx & D).
    apply depends_on_any_true. exists x. split; [|exact D].
    eapply Permutation_in; [symmetry; exact P | exact Hx].
  - apply depends_on_any_false. intros x Hx.
    apply (proj1 (depends_on_any_false h l') E).
    eapply Permutation_in; [exact P | exact Hx].
Qed.

Lemma _sort_helpers_again (n : nat) :
  forall l sorted, length l <= n ->
    _sort_helpers l = Ok sorted -> _sort_helpers sorted = Ok sorted.
Proof.
  induction n as [|n IH]; intros l sorted Hn H.
  - destruct l; [|simpl in Hn; lia].
    rewrite _sort_helpers_eq in H. injection H as <-. reflexivity.
  - pose proof (_sort_helpers_permutation (S n) l sorted Hn H) as P.
    rewrite _sort_helpers_eq in H.
    destruct (1 <? length l) eqn:E1.
    + destruct (pop_independent l [] l) as [[first others]|] eqn:E2;
        [|discriminate].
      apply pop_independent_some in E2 as [P2 D]. simpl in P2.
      destruct (_sort_helpers others) as [sorted'|e] eqn:E3; [|discriminate].
      injection H as <-.
      rewrite _sort_helpers_eq.
      rewrite <- (Permutation_length P), E1. cbn [pop_independent].
      rewrite <- (depends_on_any_permutation first _ _ P), D. cbn [negb app].
      rewrite (IH others sorted'); [reflexivity | | exact E3].
      apply Permutation_length in P2. simpl in P2. lia.
    + injection H as <-. rewrite _sort_helpers_eq. now rewrite E1.
Qed.

(** X11. What the sorter returns is a permutation of what it was given, and
    it is returned as it is when it is sorted again: the constructor of
    [jitcode_lyap] sorts the helpers and hands them to the constructor of
    [jitcode], which sorts them once more. *)
Theorem _sort_helpers_idempotent (helpers sorted : list Helper) :
  _sort_helpers helpers = Ok sorted ->
  Permutation helpers sorted /\ _sort_helpers sorted = Ok sorted.
Proof.
  intros H. split.
  - exact (_sort_helpers_permutation _ _ _ (le_n _) H).
  - exact (_sort_helpers_again _ _ _ (le_n _) H).
Qed.

End SortHelpersAgain.

Lemma _sort_helpers_idempotent_witness :
  Jitcode._sort_helpers
    [("a"%string, Add (Atom (Symbol "b")) (Num 1)); ("b"%string, y 0)]
  = Ok [("b"%string, y 0); ("a"%string, Add (Atom (Symbol "b")) (Num 1))]
  /\ Jitcode._sort_helpers
       [("b"%string, y 0); ("a"%string, Add (Atom (Symbol "b")) (Num 1))]
     = Ok [("b"%string, y 0); ("a"%string, Add (Atom (Symbol "b")) (Num 1))].
Proof.
  split; [reflexivity|].
  exact (proj2 (_sort_helpers_idempotent
                  [("a"%string, Add (Atom (Symbol "b")) (Num 1));
                   ("b"%string, y 0)]
                  [("b"%string, y 0);
                   ("a"%string, Add (Atom (Symbol "b")) (Num 1))]
                  eq_refl)).
Defined.

Lemma _sort_helpers_rejects_cycle_witness :
  Jitcode._sort_helpers
    [("a"%string, Atom (Symbol "b")); ("b"%string, Atom (Symbol "c"));
     ("c"%string, Atom (Symbol "a"))]
  = Raise (ValueError "Helpers have cyclic dependencies.").
Proof.
  apply (_sort_helpers_rejects_cycle _ ("a"%string, Atom (Symbol "b"))
           ("c"%string, Atom (Symbol "a"))).
  - discriminate.
  - apply t_trans with ("b"%string, Atom (Symbol "c"));
      apply t_step; repeat split; simpl; auto.
  - apply t_step; repeat split; simpl; auto.
Defined.

(** ** The name of the module *)

Section ModuleName.
Import Helpers Jitcode.



End ModuleName.


(** ** Vocabulary of the statements about the values of expressions *)

(** The values [env] with the value [v] for the atom [a]. *)
Definition upd (env : atom -> R) (a : atom) (v : R) : atom -> R :=
  fun b => if atom_eqb b a then v else env b.


(** Every helper refers to helpers before it only: to none of those behind
    it, and not to itself. *)
Fixpoint in_order (helpers : list Helper) : bool :=
  match helpers with
  | [] => true
  | helper :: rest =>
      negb (Jitcode.depends_on_any helper (helper :: rest)) && in_order rest
  end.

(** ** Properties of the expressions *)

Section Expressions.
Local Open Scope R_scope.

Lemma atom_eqb_eq (a b : atom) : atom_eqb a b = true <-> a = b.
Proof.
  destruct a as [x|f i], b as [z|g k]; simpl;
    try (split; [discriminate | discriminate]).
  - rewrite String.eqb_eq. split; [now intros -> | now intros [= ->]].
  - rewrite andb_true_iff, String.eqb_eq, Nat.eqb_eq.
    split; [now intros [-> ->] | now intros [= -> ->]].
Qed.

Lemma atom_eqb_refl (a : atom) : atom_eqb a a = true.
Proof. now apply atom_eqb_eq. Qed.

Lemma atom_eqb_neq (a b : atom) : atom_eqb a b = false <-> a <> b.
Proof.
  rewrite <- atom_eqb_eq. destruct (atom_eqb a b); split; congruence.
Qed.

Lemma atom_eqb_sym (a b : atom) : atom_eqb a b = atom_eqb b a.
Proof.
  destruct (atom_eqb b a) eqn:E.
  - apply atom_eqb_eq in E as ->. apply atom_eqb_refl.
  - apply atom_eqb_neq. apply atom_eqb_neq in E. congruence.
Qed.

Lemma eval_add (env : atom -> R) (a b : expr) :
  eval env (add a b) = eval env a + eval env b.
Proof.
  unfold add.
  destruct a as [[|p|p]| | |], b as [[|q|q]| | |]; simpl;
    rewrite <- ?plus_IZR; try reflexivity; try ring.
Qed.

Lemma eval_mul (env : atom -> R) (a b : expr) :
  eval env (mul a b) = eval env a * eval env b.
Proof.
  unfold mul.
  destruct a as [[|[p|p|]|p]| | |], b as [[|[q|q|]|q]| | |]; simpl;
    rewrite <- ?mult_IZR; try reflexivity; try ring.
Qed.

Lemma has_add (a b : expr) (x : atom) :
  has (add a b) x = true -> has a x = true \/ has b x = true.
Proof.
  unfold add.
  destruct a as [[|p|p]| | |], b as [[|q|q]| | |]; simpl;
    rewrite ?orb_true_iff; try discriminate; tauto.
Qed.

Lemma has_mul (a b : expr) (x : atom) :
  has (mul a b) x = true -> has a x = true \/ has b x = true.
Proof.
  unfold mul.
  destruct a as [[|[p|p|]|p]| | |], b as [[|[q|q|]|q]| | |]; simpl;
    rewrite ?orb_true_iff; try discriminate; tauto.
Qed.




(** *** Substitution *)

Lemma eval_subs (env : atom -> R) (a : atom) (r e : expr) :
  eval env (subs [(a, r)] e) = eval (upd env a (eval env r)) e.
Proof.
  induction e as [z|b|e1 IH1 e2 IH2|e1 IH1 e2 IH2]; simpl.
  - reflexivity.
  - unfold upd. rewrite (atom_eqb_sym b a).
    destruct (atom_eqb a b); reflexivity.
  - now rewrite eval_add, IH1, IH2.
  - now rewrite eval_mul, IH1, IH2.
Qed.

(** What is put in for an atom is there afterwards, and the atom is where
    it was brought in with what was put in. *)
Lemma has_subs (a : atom) (r e : expr) (x : atom) :
  has (subs [(a, r)] e) x = true ->
  (has e x = true /\ x <> a) \/ has r x = true.
Proof.
  induction e as [z|b|e1 IH1 e2 IH2|e1 IH1 e2 IH2]; simpl.
  - discriminate.
  - destruct (atom_eqb a b) eqn:E; simpl; [auto|].
    intros H. left. split; [exact H|].
    apply atom_eqb_eq in H as ->. apply atom_eqb_neq in E. congruence.
  - intros H. rewrite orb_true_iff. apply has_add in H as [H|H];
      [apply IH1 in H | apply IH2 in H]; tauto.
  - intros H. rewrite orb_true_iff. apply has_mul in H as [H|H];
      [apply IH1 in H | apply IH2 in H]; tauto.
Qed.


Lemma has_subs_in_turn (substitutions : list (atom * expr)) (e : expr)
  (x : atom) :
  has (subs_in_turn substitutions e) x = true ->
  (has e x = true /\ ~ In x (map fst substitutions))
  \/ exists s, In s substitutions /\ has (snd s) x = true.
Proof.
  revert e. induction substitutions as [|[a r] rest IH]; intros e; simpl.
  - auto.
  - intros H. apply IH in H as [[H Hx]|(s & Hs & H)].
    + apply has_subs in H as [[H Hne]|H].
      * left. split; [exact H|]. intros [E|Hin]; [congruence | contradiction].
      * right. exists (a, r). auto.
    + right. exists s. auto.
Qed.

(** *** The values of helpers *)

Lemma upd_same (env : atom -> R) (a : atom) (v : R) : upd env a v a = v.
Proof. unfold upd. now rewrite atom_eqb_refl. Qed.

Lemma upd_other (env : atom -> R) (a b : atom) (v : R) :
  b <> a -> upd env a v b = env b.
Proof. intros H. unfold upd. apply atom_eqb_neq in H. now rewrite H. Qed.








End Expressions.

(** ** The Jacobian is the derivative *)

Section Derivatives.
Local Open Scope R_scope.





(** *** Sums over lists *)

Definition sum_over {A : Type} (l : list A) (g : A -> R) : R :=
  fold_right (fun a acc => g a + acc) 0 l.


Lemma sum_over_ext {A : Type} (l : list A) (g h : A -> R) :
  (forall a, In a l -> g a = h a) -> sum_over l g = sum_over l h.
Proof.
  induction l as [|a l IH]; intros H; simpl; [reflexivity|].
  rewrite (H a) by now left. rewrite IH; [reflexivity|].
  intros b Hb. apply H. now right.
Qed.



Lemma sum_over_map {A B : Type} (f : A -> B) (l : list A) (g : B -> R) :
  sum_over (map f l) g = sum_over l (fun a => g (f a)).
Proof. induction l as [|a l IH]; simpl; [reflexivity|]. now rewrite IH. Qed.




End Derivatives.

Section JacobianDerivative.
Import Jitcode.
Local Open Scope R_scope.
Variable X : externals.









Section OneColumn.
Variable helpers : list Helper.
Variable j : nat.
Variable env : atom -> R.
Hypothesis names_differ : NoDup (map fst helpers).
Hypothesis helpers_in_order : in_order helpers = true.



End OneColumn.



End JacobianDerivative.


(** The values of the atoms where the dynamical variable at index [i],
    counted from [start], has the value of [y(i)]; of two equal variables
    the first one counts. *)
Fixpoint from_state (dynvars : list atom) (start : nat) (env : atom -> R)
  : atom -> R :=
  match dynvars with
  | [] => env
  | dynvar :: rest =>
      upd (from_state rest (S start) env) dynvar (env (Apply "y" start))
  end.


(** ** Properties of the conversion of symbols *)

Section Conversion.
Import Jitcode.
Local Open Scope R_scope.

Lemma from_state_other (dynvars : list atom) (start : nat) (env : atom -> R)
  (a : atom) :
  ~ In a dynvars -> from_state dynvars start env a = env a.
Proof.
  revert start. induction dynvars as [|d rest IH]; intros start H; simpl;
    [reflexivity|].
  simpl in H. rewrite upd_other by (intros ->; tauto). apply IH. tauto.
Qed.

(** The substitutions of [dynvars], numbered from [start]. *)
Lemma required_keys (dynvars : list atom) (start : nat) :
  map fst
    (map (fun '(i, dynvar) => (dynvar : atom, y i))
       (combine (seq start (length dynvars)) dynvars))
  = dynvars.
Proof.
  revert start. induction dynvars as [|d rest IH]; intros start; simpl;
    [reflexivity|].
  now rewrite IH.
Qed.

Lemma eval_required (dynvars : list atom) :
  (forall i, ~ In (Apply "y" i) dynvars) ->
  forall start env e,
    eval env
      (subs_in_turn
         (map (fun '(i, dynvar) => (dynvar, y i))
            (combine (seq start (length dynvars)) dynvars)) e)
    = eval (from_state dynvars start env) e.
Proof.
  induction dynvars as [|d rest IH]; intros H start env e; simpl;
    [reflexivity|].
  unfold subs_in_turn. cbn [fold_left]. fold (subs_in_turn
    (map (fun '(i, dynvar) => (dynvar, y i))
       (combine (seq (S start) (length rest)) rest))
    (subs [(d, y start)] e)).
  rewrite IH by (intros i Hi; apply (H i); now right).
  rewrite eval_subs. simpl.
  rewrite from_state_other by (intros Hi; apply (H start); now right).
  reflexivity.
Qed.

Lemma has_required (dynvars : list atom) (e : expr) (d : atom) :
  (forall i, ~ In (Apply "y" i) dynvars) -> In d dynvars ->
  has (subs_in_turn
         (map (fun '(i, dynvar) => (dynvar, y i)) (Helpers.enumerate dynvars))
         e) d = false.
Proof.
  intros H Hd.
  match goal with |- ?b = false => destruct b eqn:E; [|reflexivity] end.
  exfalso. apply has_subs_in_turn in E as [[_ E]|(s & Hs & E)].
  - apply E. unfold Helpers.enumerate. now rewrite required_keys.
  - apply in_map_iff in Hs as ([i d'] & <- & _).
    change (atom_eqb (Apply "y" i) d = true) in E.
    apply atom_eqb_eq in E as <-. now apply (H i).
Qed.

(** X14. [convert_to_required_symbols] fails where [_handle_input] fails.
    Otherwise, when none of the dynamical variables is one of the [y(i)],
    it keeps [n], the number of the expressions and the symbols of the
    helpers; none of the dynamical variables is left in an expression; and
    each expression has, for every state, the value of the one that it comes
    from when the variable at index [i] has the value of [y(i)]. *)
Theorem convert_to_required_symbols_spec (dynvars : list atom)
  (f_sym : f_input) (helpers : list Helper) (n : option nat) :
  (forall i, ~ In (Apply "y" i) dynvars) ->
  match _handle_input f_sym n with
  | Raise e => convert_to_required_symbols dynvars f_sym helpers n = Raise e
  | Ok (entries, n') =>
      exists f helpers',
        convert_to_required_symbols dynvars f_sym helpers n
        = Ok (f, helpers', n')
        /\ Forall2
             (fun entry' entry =>
                (forall d, In d dynvars -> has entry' d = false)
                /\ forall env,
                     eval env entry' = eval (from_state dynvars 0 env) entry)
             f entries
        /\ Forall2
             (fun helper' helper : Helper =>
                fst helper' = fst helper
                /\ (forall d, In d dynvars -> has (snd helper') d = false)
                /\ forall env,
                     eval env (snd helper')
                     = eval (from_state dynvars 0 env) (snd helper))
             helpers' helpers
  end.
Proof.
  intros H. unfold convert_to_required_symbols.
  destruct (_handle_input f_sym n) as [[entries n']|e]; [|reflexivity].
  do 2 eexists. split; [reflexivity|]. split.
  - induction entries as [|entry entries IH]; simpl; constructor; [|exact IH].
    split.
    + intros d Hd. now apply has_required.
    + intros env. apply (eval_required dynvars H 0).
  - induction helpers as [|helper helpers IH]; simpl; constructor; [|exact IH].
    split; [reflexivity|]. split.
    + intros d Hd. now apply has_required.
    + intros env. apply (eval_required dynvars H 0).
Qed.

End Conversion.

Lemma convert_to_required_symbols_spec_witness :
  Jitcode.convert_to_required_symbols [Symbol "u"; Symbol "v"]
    (Jitcode.Sequence [Atom (Symbol "v");
                       Mul (Num (-1)) (Atom (Symbol "u"))]) [] None
  = Ok ([y 1; Mul (Num (-1)) (y 0)], [], 2).
Proof.
  destruct (convert_to_required_symbols_spec [Symbol "u"; Symbol "v"]
              (Jitcode.Sequence [Atom (Symbol "v");
                                 Mul (Num (-1)) (Atom (Symbol "u"))]) [] None)
    as (f & helpers' & E & _).
  - intros i [H|[H|[]]]; discriminate.
  - reflexivity.
Defined.

(** ** Properties of the lambdified functions *)

Section Lambdas.
Import Jitcode.
Local Open Scope R_scope.
Variable X : externals.






End Lambdas.


(** ** Further properties of the tangent-space extension *)

Section Tangent.
Import Jitcode.
Local Open Scope R_scope.
Variable X : externals.

Lemma eval_python_sum (env : atom -> R) (items : list expr) :
  eval env (python_sum items) = sum_over items (eval env).
Proof.
  unfold python_sum.
  assert (G : forall init,
             eval env (fold_left add items init)
             = eval env init + sum_over items (eval env)).
  { induction items as [|item items IH]; intros init; simpl; [ring|].
    rewrite IH, eval_add. ring. }
  rewrite G. simpl. ring.
Qed.

Lemma nth_error_rows {A B C : Type} (g : A -> B -> C) (rows : list B)
  (l : list A) :
  forall i r a b,
    nth_error l i = Some a -> nth_error rows r = Some b ->
    nth_error (flat_map (fun i => map (g i) rows) l) (i * length rows + r)%nat
    = Some (g a b).
Proof.
  induction l as [|a0 l IH]; intros i r a b Ha Hb; [destruct i; discriminate|].
  simpl. destruct i as [|i]; simpl in Ha.
  - injection Ha as ->. simpl.
    rewrite nth_error_app1
      by (rewrite length_map; apply nth_error_Some; congruence).
    now apply map_nth_error.
  - rewrite nth_error_app2 by (rewrite length_map; simpl; lia).
    rewrite length_map.
    replace (S i * length rows + r - length rows)%nat
      with (i * length rows + r)%nat by (simpl; lia).
    now apply IH.
Qed.

(** X16. What [f_lyap] yields begins with the entries of [f_sym]; behind
    them come, for each exponent [i], the products of the rows of the
    Jacobian with the tangent vector [i], the state entries from
    [(i+1)*n] on: the entry for the row [r] has the value of the sum of the
    row's entries, each times [y(k + (i+1)*n)] for its column [k]. *)
Theorem f_lyap_tangent (f_basic : list expr) (helpers : list Helper)
  (n _n_lyap : nat) :
  (forall env e, eval env (X.(sympy_simplify) e) = eval env e) ->
  (forall r, (r < length f_basic)%nat ->
     nth_error (f_lyap X f_basic helpers n _n_lyap) r = nth_error f_basic r)
  /\ forall i r row,
       (i < _n_lyap)%nat ->
       nth_error (_jac_from_f_with_helpers X f_basic helpers false n) r
       = Some row ->
       exists entry,
         nth_error (f_lyap X f_basic helpers n _n_lyap)
           (length f_basic + i * length f_basic + r)
         = Some entry
         /\ forall env,
              eval env entry
              = sum_over (Helpers.enumerate row)
                  (fun '(k, d) =>
                     eval env d * env (Apply "y" (k + (i + 1) * n))).
Proof.
  intros Hsound. unfold f_lyap. split.
  - intros r Hr. now apply nth_error_app1.
  - intros i r row Hi Hrow. eexists. split.
    + rewrite nth_error_app2 by lia.
      replace (length f_basic + i * length f_basic + r - length f_basic)%nat
        with (i * length f_basic + r)%nat by lia.
      rewrite <- (proj1 (jac_row_count X f_basic helpers false n)) at 1.
      apply (nth_error_rows
               (fun i line =>
                  X.(sympy_simplify)
                    (python_sum
                       (map (fun '(k, entry) => mul entry (y (k + (i + 1) * n)))
                          (Helpers.enumerate line))))
               _ (seq 0 _n_lyap) i r i row);
        [|exact Hrow].
      rewrite nth_error_nth' with (d := 0%nat) by (now rewrite length_seq).
      now rewrite seq_nth.
    + intros env. rewrite Hsound, eval_python_sum, sum_over_map.
      apply sum_over_ext. intros [k d] _. now rewrite eval_mul.
Qed.

End Tangent.

(** ** The assignments of the Jacobian *)

Section Assignments.
Import Jitcode.

Lemma in_enumerate_from {A : Type} (l : list A) :
  forall start i x,
    In (i, x) (combine (seq start (length l)) l)
    <-> start <= i /\ nth_error l (i - start) = Some x.
Proof.
  induction l as [|a l IH]; intros start i x; simpl.
  - split; [intros [] | intros [_ H]; destruct (i - start); discriminate].
  - rewrite IH. split.
    + intros [[= <- <-]|[Hle H]].
      * rewrite Nat.sub_diag. auto.
      * split; [lia|]. replace (i - start) with (S (i - S start)) by lia.
        exact H.
    + intros [Hle H]. destruct (i - start) as [|k] eqn:E.
      * left. injection H as <-. f_equal. lia.
      * right. split; [lia|]. replace (i - S start) with k by lia. exact H.
Qed.

Lemma in_enumerate {A : Type} (l : list A) (i : nat) (x : A) :
  In (i, x) (Helpers.enumerate l) <-> nth_error l i = Some x.
Proof.
  unfold Helpers.enumerate. rewrite in_enumerate_from, Nat.sub_0_r.
  split; [tauto | split; [lia | assumption]].
Qed.

Lemma length_flat_map_enumerate {A B : Type} (F : nat * A -> list B)
  (G : A -> nat) (l : list A) :
  (forall i x, length (F (i, x)) = G x) ->
  forall start,
    length (flat_map F (combine (seq start (length l)) l))
    = list_sum (map G l).
Proof.
  intros H. induction l as [|a l IH]; intros start; simpl; [reflexivity|].
  now rewrite length_app, H, IH.
Qed.

(** X17. The generator expression of [generate_jac_C] yields the
    assignments [set_dfdy(i, j, entry)] for the entries of the Jacobian at
    their row [i] and column [j]: for all of them when [sparse_jac] is off,
    and for those that are not zero when it is on. There are as many
    assignments as there are such entries. *)
Theorem jac_assignments_entries (jac_sym_wc : list (list expr))
  (sparse_jac : bool) :
  (forall c,
     In c (jac_assignments jac_sym_wc sparse_jac)
     <-> exists i j row,
           c = {| fn := "set_dfdy"; indices := [i; j];
                  value := c.(value) |}
           /\ nth_error jac_sym_wc i = Some row
           /\ nth_error row j = Some c.(value)
           /\ truthy c.(value) || negb sparse_jac = true)
  /\ length (jac_assignments jac_sym_wc sparse_jac)
     = list_sum
         (map (fun row =>
                 if sparse_jac then length (filter truthy row) else length row)
            jac_sym_wc).
Proof.
  unfold jac_assignments. split.
  - intros c. rewrite in_flat_map. split.
    + intros ([i row] & Hrow & Hc). apply in_enumerate in Hrow.
      apply in_flat_map in Hc as ([j entry] & Hentry & Hc).
      apply in_enumerate in Hentry.
      destruct (truthy entry || negb sparse_jac) eqn:E; [|destruct Hc].
      destruct Hc as [<-|[]]. simpl. exists i, j, row. auto.
    + intros (i & j & row & Ec & Hrow & Hentry & E).
      exists (i, row). split; [now apply in_enumerate|].
      apply in_flat_map. exists (j, c.(value)).
      split; [now apply in_enumerate|]. rewrite E. left. now symmetry.
  - apply (length_flat_map_enumerate _
             (fun row =>
                if sparse_jac then length (filter truthy row) else length row)).
    intros i row. cbv beta iota. unfold Helpers.enumerate.
    rewrite (length_flat_map_enumerate _
               (fun entry => if truthy entry || negb sparse_jac then 1 else 0))
      by (intros j entry; now destruct (truthy entry || negb sparse_jac)).
    induction row as [|entry row IH]; simpl; [now destruct sparse_jac|].
    rewrite IH. destruct sparse_jac, (truthy entry); simpl; lia.
Qed.

End Assignments.

(** ** The constructor *)

Section Constructor.
Import Jitcode.

Lemma _sympify_helpers_id (helpers : list Helper) :
  _sympify_helpers helpers = helpers.
Proof.
  unfold _sympify_helpers. induction helpers as [|[s e] helpers IH]; simpl;
    [reflexivity|].
  now rewrite IH.
Qed.

Lemma acyclic_permutation (l l' : list Helper) :
  Permutation l l' -> acyclic l -> acyclic l'.
Proof.
  intros P. apply acyclic_incl. intros x Hx.
  eapply Permutation_in; [symmetry; exact P | exact Hx].
Qed.

Lemma ordered_in_order (l : list Helper) :
  ordered l -> acyclic l -> in_order l = true.
Proof.
  induction 1 as [|h l Hh Hl IH]; intros Hc; [reflexivity|].
  cbn [in_order]. rewrite IH.
  - rewrite andb_true_r. apply negb_true_iff.
    apply depends_on_any_false. intros x [<-|Hx] D.
    + apply Hc. exists h. apply t_step. repeat split; simpl; auto.
    + unfold depends in D. now rewrite Hh in D.
  - eapply acyclic_incl; [|exact Hc]. intros x Hx. now right.
Qed.

(** X18. With helpers that have no cycle, the constructor fails only where
    [_handle_input] fails; the instance that it returns holds the helpers in
    an order in which each refers to helpers before it only, and [n] and the
    expressions as [_handle_input] gives them. *)
Theorem __init___orders_helpers (f_sym : f_input) (helpers : list Helper)
  (wants_jacobian : bool) (n : option nat) (verbose : bool) :
  acyclic helpers ->
  match __init__ f_sym helpers wants_jacobian n verbose with
  | Ok self =>
      Permutation helpers (Self.helpers self)
      /\ in_order (Self.helpers self) = true
      /\ _handle_input f_sym n = Ok (Self.f_sym self, Self.n self)
  | Raise e => _handle_input f_sym n = Raise e
  end.
Proof.
  intros Hc. unfold __init__.
  destruct (_handle_input f_sym n) as [[entries n']|e]; [|reflexivity].
  rewrite _sympify_helpers_id.
  destruct (_sort_helpers_acyclic _ helpers (le_n _) Hc) as (sorted & -> & P & O).
  simpl. split; [exact P|]. split; [|reflexivity].
  apply ordered_in_order; [exact O|]. now apply (acyclic_permutation helpers).
Qed.

End Constructor.

Lemma f_lyap_tangent_witness :
  exists entry,
    nth_error
      (Jitcode.f_lyap plain_externals [y 1; Mul (Num (-1)) (y 0)] [] 2 1) 3
    = Some entry
    /\ forall env,
         eval env entry
         = sum_over (Helpers.enumerate [Num (-1); Num 0])
             (fun '(k, d) => (eval env d * env (Apply "y" (k + 2)))%R).
Proof.
  exact (proj2 (f_lyap_tangent plain_externals [y 1; Mul (Num (-1)) (y 0)] []
                  2 1 (fun _ _ => eq_refl))
           0 1 [Num (-1); Num 0] (le_n 1) eq_refl).
Defined.

Lemma __init___orders_helpers_witness :
  Permutation
    [("a"%string, Add (Atom (Symbol "b")) (Num 1)); ("b"%string, y 0)]
    [("b"%string, y 0); ("a"%string, Add (Atom (Symbol "b")) (Num 1))]
  /\ in_order
       [("b"%string, y 0); ("a"%string, Add (Atom (Symbol "b")) (Num 1))]
     = true
  /\ Jitcode._handle_input (Jitcode.Sequence [Atom (Symbol "a")]) None
     = Ok ([Atom (Symbol "a")], 1).
Proof.
  apply (__init___orders_helpers (Jitcode.Sequence [Atom (Symbol "a")])
           [("a"%string, Add (Atom (Symbol "b")) (Num 1)); ("b"%string, y 0)]
           false None true).
  apply acyclic_of_rank
    with (rank := fun h => if String.eqb (fst h) "a" then 1 else 0).
  intros a b [<-|[<-|[]]] [<-|[<-|[]]] D; vm_compute in D |- *;
    try discriminate; lia.
Defined.

(** ** Further properties of the integrator facade *)

Section FacadeAgain.
Import Jitcode.
Variable X : externals.

(** *** What a method leaves of the instance

    [c] leaves the [view] of the instance as it was, however it ends. *)
Definition leaves {V A : Type} (view : Self.instance -> V) (c : M A) : Prop :=
  forall s, view (fst (snd (c s))) = view (fst s).

Section Leaves.
Context {V : Type}.
Variable view : Self.instance -> V.

Lemma leaves_ret {A : Type} (a : A) : leaves view (ret a).
Proof. intros s. reflexivity. Qed.

Lemma leaves_raise {A : Type} (e : exn) : leaves view (@raise A e).
Proof. intros s. reflexivity. Qed.

Lemma leaves_get_self : leaves view get_self.
Proof. intros s. reflexivity. Qed.

Lemma leaves_get_world : leaves view get_world.
Proof. intros s. reflexivity. Qed.

Lemma leaves_modify_world (g : world -> world) : leaves view (modify_world g).
Proof. intros s. reflexivity. Qed.

Lemma leaves_modify_self (g : Self.instance -> Self.instance) :
  (forall self, view (g self) = view self) -> leaves view (modify_self g).
Proof. intros H s. apply H. Qed.

Lemma leaves_out_of_fuel {A : Type} :
  leaves view (fun s => (@OutOfFuel A, s)).
Proof. intros s. reflexivity. Qed.

Lemma leaves_bind {A B : Type} (c : M A) (k : A -> M B) :
  leaves view c -> (forall a, leaves view (k a)) -> leaves view (bind c k).
Proof.
  intros Hc Hk s. unfold bind. specialize (Hc s).
  destruct (c s) as [[a| e |] s']; cbn [fst snd] in *; [|exact Hc|exact Hc].
  now rewrite Hk.
Qed.

End Leaves.

Ltac leaves_with known :=
  repeat first
    [ known
    | apply leaves_ret
    | apply leaves_raise
    | apply leaves_get_self
    | apply leaves_get_world
    | apply leaves_modify_world
    | apply leaves_out_of_fuel
    | apply leaves_modify_self; intros; reflexivity
    | apply leaves_bind; [|intros]
    | match goal with
      | |- leaves _ (if ?b then _ else _) => destruct b
      | |- leaves _ (match ?x with _ => _ end) => destruct x
      end ].






(** *** The functions are always to be had *)








(** The declared dimension is not touched by the generation of functions. *)
Lemma _tmpfile_leaves_n (filename : option str) :
  leaves Self.n (Helpers._tmpfile X filename).
Proof. unfold Helpers._tmpfile. leaves_with fail. Qed.

Lemma with_main_and_definitions_leaves_n (name : str)
  (body : file -> file -> outcome unit * (file * file)) :
  leaves Self.n (Helpers.with_main_and_definitions X name body).
Proof.
  unfold Helpers.with_main_and_definitions.
  apply leaves_bind; [apply _tmpfile_leaves_n | intros mainpath].
  apply leaves_bind; [apply _tmpfile_leaves_n | intros defpath].
  intros s. now destruct (body [] []) as [r [mainfile deffile]].
Qed.

Lemma leaves_fails {V A : Type} (view : Self.instance -> V) (c : M A) :
  (forall s, exists e, c s = (Raised e, s)) -> leaves view c.
Proof. intros H s. destruct (H s) as [e ->]. reflexivity. Qed.

Lemma _generate_functions_leaves_n (fuel : nat) :
  leaves Self.n (_generate_functions X fuel).
Proof.
  assert (Hf : leaves Self.n (_generate_f_C X)).
  { unfold _generate_f_C. apply leaves_bind; [apply leaves_get_self|].
    intros self. destruct (negb (Self._f_C_source self));
      [|apply leaves_ret].
    apply leaves_bind; [|intros; unfold report; apply leaves_ret].
    apply leaves_fails. intros s. eexists. apply generate_f_C_raises. }
  assert (Hj : leaves Self.n (_generate_jac_C X)).
  { unfold _generate_jac_C. apply leaves_bind; [apply leaves_get_self|].
    intros self.
    destruct (Self._wants_jacobian self && negb (Self._jac_C_source self));
      [|apply leaves_ret].
    apply leaves_bind; [|intros; unfold report; apply leaves_ret].
    unfold generate_jac_C, _generate_jac_sym, generate_jac_sym.
    leaves_with ltac:(first
      [ apply _tmpfile_leaves_n
      | apply leaves_fails; intros s; eexists;
        apply render_and_write_code_dict_name ]). }
  assert (Hh : leaves Self.n (_generate_helpers_C X)).
  { unfold _generate_helpers_C, generate_helpers_C,
      Helpers.render_and_write_code_old, Helpers.render_declarations, report.
    leaves_with ltac:(first [ apply _tmpfile_leaves_n
                            | apply with_main_and_definitions_leaves_n ]). }
  assert (Hb : leaves Self.n (build_module X)).
  { unfold build_module, _tmpfile.
    leaves_with ltac:(apply _tmpfile_leaves_n). }
  unfold _generate_functions, generate_functions.
  apply leaves_bind; [apply leaves_get_self | intros self].
  assert (G : leaves Self.n
                (try_except (_compile_C X fuel) (generate_lambdas X))).
  { intros s. unfold try_except.
    assert (Hc : leaves Self.n (_compile_C X fuel)).
    { unfold _compile_C, compile_C, choose_modulename, report.
      leaves_with ltac:(first [ apply Hf | apply Hj | apply Hh | apply Hb ]). }
    assert (Hl : leaves Self.n (generate_lambdas X)).
    { unfold generate_lambdas, _generate_f_lambda, _generate_jac_lambda,
        generate_f_lambda, generate_jac_lambda, _generate_jac_sym,
        generate_jac_sym, report.
      leaves_with fail. }
    specialize (Hc s).
    destruct (_compile_C X fuel s) as [[u| e |] s1]; cbn [fst snd] in *;
      try exact Hc.
    now rewrite Hl. }
  destruct (Self.f self);
    [match goal with |- context [if ?b then _ else _] => destruct b end|];
    first [exact G | apply leaves_ret].
Qed.

(** *** Setting the initial value *)

(** X20. [set_initial_value] raises a [ValueError] and changes nothing when
    the state that it is given has not the declared dimension [n]. With the
    declared dimension it returns, and the state and the time are then the
    ones given and an integrator is set: on an instance without state it sets
    the integrator of no name first (SciPy has one for it), which generates
    the functions; with a state it needs the integrator that comes with
    one. *)
Theorem set_initial_value_sets_state (fuel : nat) (y : list R) (t : R)
  (integrator : integrator_class) (self : Self.instance) (w : world) :
  X.(find_integrator) [] = Some integrator ->
  length (modules w) < fuel ->
  (Self._y self <> [] -> Self._integrator self <> None) ->
  if Self.n self =? length y
  then exists self' w',
         set_initial_value X fuel y t (self, w) = (Return tt, (self', w'))
         /\ Self._y self' = y
         /\ Self.t self' = Some t
         /\ Self._integrator self' <> None
         /\ Self.n self' = Self.n self
  else set_initial_value X fuel y t (self, w)
       = (Raised (ValueError
            "The dimension of the initial value does not match the dimension of your differential equations."),
          (self, w)).
Proof.
  intros Hfind Hfuel Hinv. unfold set_initial_value.
  destruct (Self.n self =? length y) eqn:En;
    unfold bind at 1; unfold get_self at 1; cbn [fst snd]; rewrite En;
    cbn [negb]; [|reflexivity].
  unfold ode_set_initial_value.
  unfold bind at 1. unfold get_self at 1. cbn [fst snd].
  destruct (Self._y self) as [|r rest] eqn:Ey.
  - destruct fuel as [|fuel]; [lia|].
    cbn [set_integrator].
    change (str_eqb [] (lit "zvode")) with false. cbv iota.
    unfold _can_use_jacobian. rewrite Hfind.
    unfold bind at 1. unfold bind at 1. unfold ret at 1.
    unfold bind at 1. unfold modify_self at 1. cbn [fst snd].
    unfold bind at 1.
    destruct (_generate_functions_returns X (S fuel)
                (Self.assign_wants_jacobian
                   (Self._wants_jacobian self || takes_with_jacobian integrator)
                   self, w) Hfuel)
      as ([] & [self1 w1] & E1 & Hy1 & Ht1).
    rewrite E1.
    assert (Hn1 : Self.n self1 = Self.n self).
    { pose proof (_generate_functions_leaves_n (S fuel)
                    (Self.assign_wants_jacobian
                       (Self._wants_jacobian self
                        || takes_with_jacobian integrator) self, w)) as L.
      rewrite E1 in L. exact L. }
    unfold bind at 1. unfold get_self at 1. cbn [fst snd].
    destruct (Self.t self1) as [save_t|];
      unfold ode__init__, ode_set_integrator, ode_set_initial_value;
      rewrite Hfind; unfold bind, modify_self, get_self, ret; cbn;
      do 2 eexists; (split; [reflexivity|]); cbn;
      repeat split; try discriminate; exact Hn1.
  - unfold bind, ret, get_self, modify_self. cbn [fst snd].
    destruct (Self._integrator self) as [name|] eqn:Ei.
    + do 2 eexists. split; [reflexivity|]. cbn. rewrite Ei.
      repeat split. discriminate.
    + exfalso. apply Hinv; [discriminate | reflexivity].
Qed.

(** X21. [set_initial_value] of [jitcode_lyap] hands on the state followed
    by one direction of [n_basic] entries for each exponent, and so is
    refused with a [ValueError] unless the dimension that its constructor
    declared is that of the state plus [n_lyap * n_basic]. For an instance
    that the constructor made of [n] expressions this is so for a state of
    [n] entries exactly when all [n] exponents are asked for, or none. *)
Theorem lyap_set_initial_value_refused (entries : list expr)
  (helpers : list Helper) (wants_jacobian : bool) (n_lyap : Z)
  (self : lyap_instance) (fuel : nat) (y : list R) (t : R) (w : world) :
  (forall i n, length (X.(random_direction) i n) = n) ->
  lyap__init__ X (Sequence entries) helpers wants_jacobian None n_lyap
  = Ok self ->
  length y = length entries ->
  (Self.n (base self) =? length entries + _n_lyap self * n_basic self)
  = (_n_lyap self =? length entries) || (_n_lyap self =? 0)
  /\ (_n_lyap self <> length entries -> _n_lyap self <> 0 ->
      lyap_set_initial_value X (n_basic self) (_n_lyap self) fuel y t
        (base self, w)
      = (Raised (ValueError
           "The dimension of the initial value does not match the dimension of your differential equations."),
         (base self, w))).
Proof.
  intros Hdir Hinit Hy.
  apply lyap__init__dimensions in Hinit as (Hb & Hl & _ & Hn).
  cbv zeta in *.
  assert (Hlen : length (y ++ concat
                           (map (fun i => random_direction X i (n_basic self))
                              (seq 0 (_n_lyap self))))
                 = length entries + _n_lyap self * n_basic self).
  { rewrite length_app, Hy. f_equal.
    generalize 0 as start. generalize (_n_lyap self) as k.
    induction k as [|k IH]; intros start; [reflexivity|].
    cbn [seq map concat]. rewrite length_app, Hdir, IH. reflexivity. }
  assert (Hiff : Self.n (base self) = length entries + _n_lyap self * n_basic self
                 <-> _n_lyap self = length entries \/ _n_lyap self = 0).
  { rewrite Hn, Hb. destruct (_n_lyap self * (length entries + 1)) eqn:E; nia. }
  split.
  - destruct (Nat.eqb_spec (Self.n (base self))
                (length entries + _n_lyap self * n_basic self)) as [E|E];
      symmetry.
    + apply orb_true_iff. rewrite !Nat.eqb_eq. now apply Hiff.
    + apply orb_false_iff. rewrite !Nat.eqb_neq. tauto.
  - intros H1 H0. unfold lyap_set_initial_value, set_initial_value.
    unfold bind at 1. unfold get_self at 1. cbn [fst snd].
    rewrite Hlen.
    destruct (Nat.eqb_spec (Self.n (base self))
                (length entries + _n_lyap self * n_basic self)) as [E|E];
      [|reflexivity].
    apply Hiff in E. tauto.
Qed.

End FacadeAgain.


Lemma set_initial_value_sets_state_witness :
  exists self self' w',
    Jitcode.__init__ (Jitcode.Sequence [y 1; Mul (Num (-1)) (y 0)]) [] false
      None true = Ok self
    /\ Jitcode.set_initial_value plain_externals 1 [1%R; 0%R] 0
         (self, {| files := []; modules := [] |})
       = (Return tt, (self', w'))
    /\ Self._y self' = [1%R; 0%R]
    /\ Self.t self' = Some 0%R
    /\ Self._integrator self' <> None
    /\ Self.n self' = 2.
Proof.
  eexists.
  destruct (set_initial_value_sets_state plain_externals 1 [1%R; 0%R] 0
              {| takes_with_jacobian := true |}
              {| Self.f_sym := [y 1; Mul (Num (-1)) (y 0)];
                 Self.n := 2;
                 Self.f := None;
                 Self._f_C_source := false;
                 Self.helpers := [];
                 Self._wants_jacobian := false;
                 Self.jac_sym := None;
                 Self.jac := None;
                 Self._jac_C_source := false;
                 Self._y := [];
                 Self._tmpdir := None;
                 Self._modulename := lit "jitced";
                 Self.verbose := true;
                 Self._number_of_jac_helpers := None;
                 Self._number_of_f_helpers := None;
                 Self.sparse_jac := None;
                 Self.t := None;
                 Self._integrator := None |}
              {| files := []; modules := [] |}
              eq_refl (le_n 1) (fun H => False_ind _ (H eq_refl)))
    as (self' & w' & E & Hy & Ht & Hi & Hn).
  exists self', w'. split; [reflexivity|]. split; [exact E|]. auto.
Defined.

Lemma lyap_set_initial_value_refused_witness :
  exists self,
    Jitcode.lyap__init__ plain_externals
      (Jitcode.Sequence [y 1; Mul (Num (-1)) (y 0)]) [] false None 1
    = Ok self
    /\ Jitcode.lyap_set_initial_value plain_externals 2 1 1 [1%R; 0%R] 0
         (Jitcode.base self, {| files := []; modules := [] |})
       = (Raised (ValueError
            "The dimension of the initial value does not match the dimension of your differential equations."),
          (Jitcode.base self, {| files := []; modules := [] |})).
Proof.
  eexists. split; [reflexivity|].
  apply (proj2 (lyap_set_initial_value_refused plain_externals
                  [y 1; Mul (Num (-1)) (y 0)] [] false 1 _ 1 [1%R; 0%R] 0
                  {| files := []; modules := [] |}
                  (fun i n => repeat_length 1%R n) eq_refl eq_refl)).
  - discriminate.
  - discriminate.
Defined.

(** ** The lambdified Jacobian and the lambdified derivative *)

Section LambdifiedJacobian.
Import Jitcode.
Local Open Scope R_scope.
Variable X : externals.





End LambdifiedJacobian.

